(** * Legislative bill lifecycle aggregation: notebook pipelines, in Rocq

    A shallow embedding of the analysis notebook of the repository (the
    record-validation loop and the pandas cells that derive stage durations,
    stage-conversion rates, committee statistics, the co-sponsorship join and
    the per-capita party ratio), with the properties stated about them.

    Conventions.
    - A DataFrame is a list of rows; every row carries the columns of its
      table.  A nullable column has an [option] type, [None] being pandas'
      null (None / NaN / NaT).
    - A boolean mask [df[mask]] is [List.filter].
    - numpy's float64 is modelled by its values: a finite value is the
      rational it denotes, and every operation returns the nearest binary64
      to the exact result, ties to even (IEEE 754), or NaN / an infinity
      where numpy does.  The sign of zero is not modelled: every zero met
      here comes from non-negative counts.
    - int64 counts are integers of [Z]; statements that need it bound the
      frame length by [2 ^ 63].
    - Python [str] is modelled by its UTF-8 bytes; prefix, suffix and
      substring tests on UTF-8 bytes agree with the tests on code points. *)

From Stdlib Require Import ZArith QArith Qround Qpower Lia Lqa Bool.
From Stdlib Require Import String Ascii List.
From Stdlib Require Floats.SpecFloat.
From stdpp Require Import base option gmap strings.
Import ListNotations.
Local Open Scope Z_scope.

(* ===================================================================== *)
(** * Part I. Definitions                                                 *)
(* ===================================================================== *)

(** ** numpy float64 *)

Inductive float64 : Type :=
  | Fin (q : Q)        (* a finite value *)
  | Inf (neg : bool)   (* inf, -inf *)
  | NaN.

(** [mag q] is the binary exponent of [q > 0]: [2^(mag q) <= q < 2^(mag q + 1)]. *)
Definition mag (q : Q) : Z :=
  let k := Z.log2 (Qnum q) - Z.log2 (Zpos (Qden q)) in
  if Qle_bool (2 ^ k) q then k else k - 1.

(** Nearest integer, ties to even ([rint]). *)
Definition rint_Q (q : Q) : Z :=
  let f := Qfloor q in
  match Qcompare (q - inject_Z f) (1 # 2) with
  | Lt => f
  | Gt => f + 1
  | Eq => if Z.even f then f else f + 1
  end.

(** Rounding of a positive real to binary64: 53 significant bits, least
    exponent [-1074] (subnormals), overflow to [inf] from [2^1024] on. *)
Definition round_pos (q : Q) : float64 :=
  let e := Z.max (mag q - 52) (-1074) in
  let r := (inject_Z (rint_Q (q / 2 ^ e)) * 2 ^ e)%Q in
  if Qle_bool (2 ^ 1024) r then Inf false else Fin (Qred r).

Definition f64_opp (x : float64) : float64 :=
  match x with
  | Fin q => Fin (Qred (- q))
  | Inf s => Inf (negb s)
  | NaN => NaN
  end.

(** Round to nearest, ties to even. *)
Definition rn64 (q : Q) : float64 :=
  match Qcompare q 0 with
  | Eq => Fin 0
  | Gt => round_pos q
  | Lt => f64_opp (round_pos (- q))
  end.

(** Conversion of an integer (int64, Python int) to float64. *)
Definition f64_of_Z (z : Z) : float64 := rn64 (inject_Z z).

(** A float literal of the source text, e.g. [0.7]. *)
Definition f64_literal (q : Q) : float64 := rn64 q.

Definition is_neg (q : Q) : bool := negb (Qle_bool 0 q).

(** True division.  numpy does not raise on a zero divisor: [0/0] is NaN and
    [x/0] an infinity (with a RuntimeWarning). *)
Definition f64_div (x y : float64) : float64 :=
  match x, y with
  | NaN, _ | _, NaN => NaN
  | Inf _, Inf _ => NaN
  | Inf s, Fin b => Inf (xorb s (is_neg b))
  | Fin a, Inf _ => Fin 0
  | Fin a, Fin b =>
      if Qeq_bool b 0
      then (if Qeq_bool a 0 then NaN else Inf (is_neg a))
      else rn64 (a / b)
  end.

Definition f64_mul (x y : float64) : float64 :=
  match x, y with
  | NaN, _ | _, NaN => NaN
  | Inf s, Inf t => Inf (xorb s t)
  | Inf s, Fin b => if Qeq_bool b 0 then NaN else Inf (xorb s (is_neg b))
  | Fin a, Inf t => if Qeq_bool a 0 then NaN else Inf (xorb (is_neg a) t)
  | Fin a, Fin b => rn64 (a * b)
  end.

Definition f64_rint (x : float64) : float64 :=
  match x with
  | Fin q => Fin (inject_Z (rint_Q q))
  | _ => x
  end.

Definition power_of_ten (decimals : nat) : float64 :=
  f64_of_Z (10 ^ Z.of_nat decimals).

(** [round(x, decimals)] on a numpy float64 and [Series.round(decimals)]:
    scale by the power of ten, [rint], scale back. *)
Definition np_round (x : float64) (decimals : nat) : float64 :=
  match decimals with
  | O => f64_rint x
  | _ => f64_div (f64_rint (f64_mul x (power_of_ten decimals)))
                 (power_of_ten decimals)
  end.

(** [x <= y]; every comparison with NaN is false. *)
Definition f64_leb (x y : float64) : bool :=
  match x, y with
  | NaN, _ | _, NaN => false
  | Inf true, _ => true
  | _, Inf false => true
  | Fin a, Fin b => Qle_bool a b
  | _, _ => false
  end.

Definition f64_isnan (x : float64) : bool :=
  match x with NaN => true | _ => false end.

(** Non-negative values: [0 <= x]. *)
Definition f64_nn (x : float64) : Prop := f64_leb (Fin 0) x = true.

(** The value of a float of the Standard Library's IEEE 754 specification,
    to compare the operations above with it. *)
Definition sf_value (x : SpecFloat.spec_float) : float64 :=
  match x with
  | SpecFloat.S754_zero _ => Fin 0
  | SpecFloat.S754_infinity s => Inf s
  | SpecFloat.S754_nan => NaN
  | SpecFloat.S754_finite s m e =>
      Fin (Qred ((if s then -1 else 1) * inject_Z (Zpos m) * 2 ^ e))
  end.

Definition sf_of_Z (z : Z) : SpecFloat.spec_float :=
  SpecFloat.binary_normalize 53 1024 z 0 false.

(** The same value (not the IEEE comparison: NaN is the same as NaN). *)
Definition f64_same (x y : float64) : bool :=
  match x, y with
  | Fin a, Fin b => Qeq_bool a b
  | Inf s, Inf t => Bool.eqb s t
  | NaN, NaN => true
  | _, _ => false
  end.

(** Whether division and multiplication agree with the Standard Library's
    on every pair of the integers [0 .. n]. *)
Definition agrees_up_to (n : nat) : bool :=
  forallb
    (fun a =>
       forallb
         (fun b =>
            f64_same (sf_value (SpecFloat.SFdiv 53 1024 (sf_of_Z a) (sf_of_Z b)))
                     (f64_div (f64_of_Z a) (f64_of_Z b))
            && f64_same (sf_value (SpecFloat.SFmul 53 1024
                                     (SpecFloat.SFdiv 53 1024 (sf_of_Z a) (sf_of_Z b))
                                     (sf_of_Z 1000)))
                        (f64_mul (f64_div (f64_of_Z a) (f64_of_Z b))
                                 (f64_of_Z 1000)))
         (map Z.of_nat (seq 0 (S n))))
    (map Z.of_nat (seq 0 (S n))).

(** ** Python string operations *)

(** [s.endswith(suffix)] *)
Definition endswith (s suffix : string) : bool :=
  (String.length suffix <=? String.length s)%nat &&
  String.eqb
    (String.substring (String.length s - String.length suffix)
                      (String.length suffix) s)
    suffix.

(** [needle in s] *)
Fixpoint contains (needle s : string) : bool :=
  String.prefix needle s ||
  match s with
  | EmptyString => false
  | String _ s' => contains needle s'
  end.

(** [s.split(sep)[0]] for a one-character separator: what precedes the
    first [sep], or all of [s]. *)
Fixpoint split_head (sep : ascii) (s : string) : string :=
  match s with
  | EmptyString => EmptyString
  | String c s' =>
      if Ascii.eqb c sep then EmptyString else String c (split_head sep s')
  end.

(** [sep.join(xs)] *)
Fixpoint join (sep : string) (xs : list string) : string :=
  match xs with
  | [] => EmptyString
  | [x] => x
  | x :: rest => String.append x (String.append sep (join sep rest))
  end.

(** [x in values] / [Series.isin(values)] on strings. *)
Definition isin (x : string) (values : list string) : bool :=
  existsb (String.eqb x) values.

(** ** Record validation (first notebook cell) *)

Module Validation.

(** One extracted JSON document; a key that is missing is [None], and
    subscripting it raises [KeyError]. *)
Record extracted : Type := Extracted {
  title : option string;
  bill_number : option string;
  is_alternative : option bool;
  alternative_bill_numbers : option (list string)
}.

Inductive exn : Type :=
  | ValueError (msg : string)
  | KeyError (key : string)
  | LoadError (msg : string).  (* open() or json.load failed *)

(** [str(e)] *)
Definition str (e : exn) : string :=
  match e with
  | ValueError msg => msg
  | KeyError key => String.append "'" (String.append key "'")
  | LoadError msg => msg
  end.

(** The body of the [try] either raises or returns. *)
Definition result (A : Type) : Type := (exn + A)%type.
Definition ret {A} (a : A) : result A := inr a.
Definition raise {A} (e : exn) : result A := inl e.
Definition bind {A B} (c : result A) (k : A -> result B) : result B :=
  match c with
  | inl e => inl e
  | inr a => k a
  end.

Notation "x <- c ;; k" := (bind c (fun x => k))
  (at level 100, c at next level, right associativity).

(** [data[key]] *)
Definition getitem {A} (key : string) (v : option A) : result A :=
  match v with
  | Some a => ret a
  | None => raise (KeyError key)
  end.

(** [data.get(key) == ""] *)
Definition get_is_empty (v : option string) : bool :=
  match v with
  | Some s => String.eqb s ""
  | None => false
  end.

Definition alt_marker : string := "(대안)".

Definition msg_missing (fname : string) : string :=
  String.append "Missing required fields in " fname.
Definition msg_mismatch (fname : string) : string :=
  String.append "Bill number mismatch in " fname.
Definition msg_alternative (fname : string) : string :=
  String.append
    "Title contains '대안' but is not marked as alternative in " fname.

(** The checks made on one document, with the update of [alter2]. *)
Definition check (fname : string) (data : extracted)
    (alter2 : gmap string (list string))
    : result (gmap string (list string)) :=
  t <- getitem "title" (title data) ;;
  let bill_num := split_head "_" t in
  if get_is_empty (bill_number data) || get_is_empty (title data)
  then raise (ValueError (msg_missing fname))
  else
    n <- getitem "bill_number" (bill_number data) ;;
    if negb (endswith bill_num n)
    then raise (ValueError (msg_mismatch fname))
    else
      flag <- getitem "is_alternative" (is_alternative data) ;;
      if flag : bool
      then
        nums <- getitem "alternative_bill_numbers"
                        (alternative_bill_numbers data) ;;
        ret (<[bill_num := nums]> alter2)
      else
        if contains alt_marker t
        then raise (ValueError (msg_alternative fname))
        else ret alter2.

(** What [open] and [json.load] give for a directory entry. *)
Inductive file : Type :=
  | Broken (msg : string)      (* raises; [msg] is [str] of the exception *)
  | Json (data : extracted).

Record state : Type := State {
  alter2 : gmap string (list string);
  error : list string
}.

(** One iteration of [for fname in os.listdir(extracted_dir)]. *)
Definition step (st : state) (entry : string * file) : state :=
  let '(fname, f) := entry in
  if endswith fname ".json"
  then
    let body :=
      match f with
      | Broken msg => raise (LoadError msg)
      | Json data => check fname data (alter2 st)
      end in
    match body with
    | inr a => State a (error st)
    | inl e => State (alter2 st) (error st ++ [str e])
    end
  else st.

Definition validate (listing : list (string * file)) : state :=
  fold_left step listing (State ∅ []).

(** In the words of the specification: a required field is empty, the
    number derived from the title does not end with the declared one, or
    the title carries the alternative marker while the flag is false. *)
Definition invalid (data : extracted) : Prop :=
  bill_number data = Some ""%string \/
  title data = Some ""%string \/
  (exists t n, title data = Some t /\ bill_number data = Some n /\
               endswith (split_head "_" t) n = false) \/
  (exists t, title data = Some t /\ contains alt_marker t = true /\
             is_alternative data = Some false).

End Validation.

(** ** Bill details: stage durations and stage conversion *)

Module BillDetails.

Inductive date_col : Type :=
  | COMMITTEE_DT
  | CMT_PRESENT_DT
  | CMT_PROC_DT
  | LAW_SUBMIT_DT
  | LAW_PRESENT_DT
  | LAW_PROC_DT
  | PROC_DT.

Definition date_cols : list date_col :=
  [COMMITTEE_DT; CMT_PRESENT_DT; CMT_PROC_DT; LAW_SUBMIT_DT;
   LAW_PRESENT_DT; LAW_PROC_DT; PROC_DT].

(** A row of [bill_details]; [D] is the type of a cell of a date column:
    [option string] as loaded, [option Z] once converted (a Timestamp in
    nanoseconds since the epoch, [None] for NaT). *)
Record row (D : Type) : Type := Row {
  BILL_ID : string;
  PROC_RESULT : string;
  dt : date_col -> D
}.
Arguments Row {D}.
Arguments BILL_ID {D}.
Arguments PROC_RESULT {D}.
Arguments dt {D}.

(** A converted row with the seven columns the cell adds. *)
Record detail : Type := Detail {
  src : row (option Z);
  CMT_MEET : Z;
  CMT_PROC : Z;
  LAW_ : Z;
  LAW_MEET : Z;
  LAW_PROC : Z;
  PROC : Z;
  TOTAL_DT : Z
}.

Definition ns_per_day : Z := 86400 * 10 ^ 9.

(** [(later - earlier).dt.days]: missing next to a NaT, otherwise the
    days component of the Timedelta, which is the floor of the difference
    in days.  The difference is taken in [Z]; pandas takes it in int64,
    which is the same for timestamps less than 2^63 ns (292 years) apart. *)
Definition days (later earlier : option Z) : option Z :=
  match later, earlier with
  | Some a, Some b => Some ((a - b) / ns_per_day)
  | _, _ => None
  end.

(** [.fillna(v).astype(int)] *)
Definition fillna (v : Z) (x : option Z) : Z :=
  match x with
  | Some d => d
  | None => v
  end.

Definition withdrawn : string := "철회".

(** The mask [bill_details["PROC_RESULT"] != "철회"]. *)
Definition not_withdrawn {D : Type} (r : row D) : bool :=
  negb (String.eqb (PROC_RESULT r) withdrawn).

(** The five printed rates, named after the counts they come from:
    위원회 회부, 위원회 처리, 본회의 회부, 본회의 처리, 공포/처리 전환율. *)
Record conversion : Type := Conversion {
  cmt_meet_rate : float64;
  cmt_proc_rate : float64;
  law_meet_rate : float64;
  law_proc_rate : float64;
  proc_rate : float64
}.

(** [(bill_details[col] != -1).sum()] *)
Definition reached (col : detail -> Z) (bill_details : list detail) : Z :=
  Z.of_nat (length (List.filter (fun r => negb (col r =? -1)) bill_details)).

Section Cell.

(** What pandas' date parser makes of a string of a date column; [None]
    where it fails, which [errors="coerce"] turns into NaT. *)
Variable parse : string -> option Z.

(** [pd.to_datetime(cell, errors="coerce")] *)
Definition to_datetime (cell : option string) : option Z :=
  match cell with
  | Some s => parse s
  | None => None
  end.

(** [for col in date_cols: bill_details[col] = pd.to_datetime(...)] *)
Definition coerce (r : row (option string)) : row (option Z) :=
  Row (BILL_ID r) (PROC_RESULT r) (fun col => to_datetime (dt r col)).

Definition gap (r : row (option Z)) (later earlier : date_col) : Z :=
  fillna (-1) (days (dt r later) (dt r earlier)).

Definition add_durations (r : row (option Z)) : detail :=
  {| src := r;
     CMT_MEET := gap r CMT_PRESENT_DT COMMITTEE_DT;
     CMT_PROC := gap r CMT_PROC_DT CMT_PRESENT_DT;
     LAW_ := gap r LAW_SUBMIT_DT CMT_PROC_DT;
     LAW_MEET := gap r LAW_PRESENT_DT LAW_SUBMIT_DT;
     LAW_PROC := gap r LAW_PROC_DT LAW_PRESENT_DT;
     PROC := gap r PROC_DT LAW_PROC_DT;
     TOTAL_DT := gap r PROC_DT COMMITTEE_DT |}.

(** The frame after the duration columns are added. *)
Definition durations (bill_details : list (row (option string)))
    : list detail :=
  let bill_details := map coerce bill_details in
  let bill_details := List.filter not_withdrawn bill_details in
  map add_durations bill_details.

(** The stage-conversion rates the cell prints. *)
Definition stage_conversion (bill_details : list (row (option string)))
    : conversion :=
  let bill_details := durations bill_details in
  let total := Z.of_nat (length bill_details) in
  let cmt_meet := reached CMT_MEET bill_details in
  let cmt_proc := reached CMT_PROC bill_details in
  let law_meet := reached LAW_MEET bill_details in
  let law_proc := reached LAW_PROC bill_details in
  let proc := reached PROC bill_details in
  {| cmt_meet_rate := np_round (f64_div (f64_of_Z cmt_meet) (f64_of_Z total)) 3;
     cmt_proc_rate := np_round (f64_div (f64_of_Z cmt_proc) (f64_of_Z total)) 3;
     law_meet_rate := np_round (f64_div (f64_of_Z law_meet) (f64_of_Z total)) 3;
     law_proc_rate := np_round (f64_div (f64_of_Z law_proc) (f64_of_Z total)) 3;
     proc_rate := np_round (f64_div (f64_of_Z proc) (f64_of_Z total)) 3 |}.

End Cell.

(** The seven duration columns and the two date columns each is the
    difference of. *)
Inductive gap_col : Type :=
  | G_CMT_MEET | G_CMT_PROC | G_LAW_ | G_LAW_MEET | G_LAW_PROC | G_PROC
  | G_TOTAL_DT.

Definition gap_value (g : gap_col) (d : detail) : Z :=
  match g with
  | G_CMT_MEET => CMT_MEET d
  | G_CMT_PROC => CMT_PROC d
  | G_LAW_ => LAW_ d
  | G_LAW_MEET => LAW_MEET d
  | G_LAW_PROC => LAW_PROC d
  | G_PROC => PROC d
  | G_TOTAL_DT => TOTAL_DT d
  end.

Definition later_of (g : gap_col) : date_col :=
  match g with
  | G_CMT_MEET => CMT_PRESENT_DT
  | G_CMT_PROC => CMT_PROC_DT
  | G_LAW_ => LAW_SUBMIT_DT
  | G_LAW_MEET => LAW_PRESENT_DT
  | G_LAW_PROC => LAW_PROC_DT
  | G_PROC => PROC_DT
  | G_TOTAL_DT => PROC_DT
  end.

Definition earlier_of (g : gap_col) : date_col :=
  match g with
  | G_CMT_MEET => COMMITTEE_DT
  | G_CMT_PROC => CMT_PRESENT_DT
  | G_LAW_ => CMT_PROC_DT
  | G_LAW_MEET => LAW_SUBMIT_DT
  | G_LAW_PROC => LAW_PRESENT_DT
  | G_PROC => LAW_PROC_DT
  | G_TOTAL_DT => COMMITTEE_DT
  end.

(** The lifecycle order of the date columns. *)
Definition position (c : date_col) : nat :=
  match c with
  | COMMITTEE_DT => 0
  | CMT_PRESENT_DT => 1
  | CMT_PROC_DT => 2
  | LAW_SUBMIT_DT => 3
  | LAW_PRESENT_DT => 4
  | LAW_PROC_DT => 5
  | PROC_DT => 6
  end.

(** Every date of the row is present. *)
Definition all_present (r : row (option Z)) : Prop :=
  forall c, dt r c <> None.

(** A date is present only if the dates before it are. *)
Definition prefix_closed (r : row (option Z)) : Prop :=
  forall c c', (position c <= position c')%nat ->
    dt r c' <> None -> dt r c <> None.

(** The dates that are present do not decrease along the lifecycle. *)
Definition chronological (r : row (option Z)) : Prop :=
  forall c c' a b, (position c <= position c')%nat ->
    dt r c = Some a -> dt r c' = Some b -> a <= b.

(** Only the referral to the committee is dated. *)
Definition only_referred (r : row (option Z)) : Prop :=
  forall c, dt r c <> None <-> c = COMMITTEE_DT.

End BillDetails.

(** ** A date parser for the examples

    pandas accepts many formats; [iso_date] reads the plain calendar date
    "YYYY-MM-DD", to midnight of that day in nanoseconds since 1970-01-01,
    and rejects everything else. *)

Module IsoDate.

Definition digit (c : ascii) : option Z :=
  let n := Z.of_nat (nat_of_ascii c) - 48 in
  if (0 <=? n) && (n <=? 9) then Some n else None.

Fixpoint number (acc : Z) (s : string) : option Z :=
  match s with
  | EmptyString => Some acc
  | String c s' =>
      match digit c with
      | Some d => number (10 * acc + d) s'
      | None => None
      end
  end.

Definition is_leap (y : Z) : bool :=
  ((y mod 4 =? 0) && negb (y mod 100 =? 0)) || (y mod 400 =? 0).

Definition days_in_month (y m : Z) : Z :=
  if m =? 2 then (if is_leap y then 29 else 28)
  else if (m =? 4) || (m =? 6) || (m =? 9) || (m =? 11) then 30
  else 31.

(** Days from 1970-01-01 to the given date of the proleptic Gregorian
    calendar. *)
Definition days_from_civil (y m d : Z) : Z :=
  let y := if m <=? 2 then y - 1 else y in
  let era := y / 400 in
  let yoe := y - era * 400 in
  let doy := (153 * (if 2 <? m then m - 3 else m + 9) + 2) / 5 + d - 1 in
  let doe := yoe * 365 + yoe / 4 - yoe / 100 + doy in
  era * 146097 + doe - 719468.

Definition iso_date (s : string) : option Z :=
  if (String.length s =? 10)%nat
     && (String.eqb (String.substring 4 1 s) "-")
     && (String.eqb (String.substring 7 1 s) "-")
  then
    match number 0 (String.substring 0 4 s),
          number 0 (String.substring 5 2 s),
          number 0 (String.substring 8 2 s) with
    | Some y, Some m, Some d =>
        if (1 <=? m) && (m <=? 12) && (1 <=? d) && (d <=? days_in_month y m)
        then Some (days_from_civil y m d * BillDetails.ns_per_day)
        else None
    | _, _, _ => None
    end
  else None.

End IsoDate.

(** ** Grouping *)

Definition opt_eqb (o : option string) (k : string) : bool :=
  match o with
  | Some s => String.eqb s k
  | None => false
  end.

(** The distinct keys of a column, nulls dropped. *)
Fixpoint keys_of (col : list (option string)) : list string :=
  match col with
  | [] => []
  | None :: rest => keys_of rest
  | Some k :: rest => if isin k (keys_of rest) then keys_of rest
                      else k :: keys_of rest
  end.

(** [df.groupby(key)]: one group per distinct non-null key, with the rows
    of that key in frame order.  pandas lists the groups by sorted key and
    the cells then re-sort them by a count; the order of the groups is not
    modelled, and no statement below depends on it. *)
Definition groupby {A : Type} (key : A -> option string) (df : list A)
    : list (string * list A) :=
  map (fun k => (k, List.filter (fun r => opt_eqb (key r) k) df))
      (keys_of (map key df)).

(** ** Bills and committee statistics *)

Module Bills.

Record bill : Type := Bill {
  BILL_ID : string;
  BILL_NAME : string;
  COMMITTEE_NAME : option string;
  STATUS : string
}.

Definition accepted : list string := ["원안가결"; "수정가결"].
Definition resolved : list string :=
  ["원안가결"; "수정가결"; "수정안반영폐기"; "대안반영폐기"].

(** [bills.loc[x.index, "STATUS"].isin(statuses).sum()] over a group. *)
Definition count_status (statuses : list string) (group : list bill) : Z :=
  Z.of_nat (length (List.filter (fun b => isin (STATUS b) statuses) group)).

End Bills.

Module CommitteeStats.

Record stat : Type := Stat {
  COMMITTEE_NAME : string;
  BILL_COUNT : Z;
  PASS_COUNT : Z;
  NEW_BILL_COUNT : Z;
  PASS_RATE : float64;
  PROCESSED_RATE : float64
}.

(** The aggregation of the cell, for any grouping column.  BILL_COUNT is
    the "count" of BILL_ID, the number of its non-null values in the group;
    BILL_ID is never null. *)
Definition group_stats (key : Bills.bill -> option string)
    (bills : list Bills.bill) : list stat :=
  map (fun g : string * list Bills.bill =>
         let bill_count := Z.of_nat (length (map Bills.BILL_ID (snd g))) in
         let pass_count := Bills.count_status Bills.accepted (snd g) in
         let new_bill_count := Bills.count_status Bills.resolved (snd g) in
         {| COMMITTEE_NAME := fst g;
            BILL_COUNT := bill_count;
            PASS_COUNT := pass_count;
            NEW_BILL_COUNT := new_bill_count;
            PASS_RATE :=
              np_round (f64_div (f64_of_Z pass_count) (f64_of_Z bill_count)) 2;
            PROCESSED_RATE :=
              np_round (f64_div (f64_of_Z new_bill_count) (f64_of_Z bill_count)) 2
         |})
      (groupby key bills).

Definition committe_stats (bills : list Bills.bill) : list stat :=
  group_stats Bills.COMMITTEE_NAME bills.

End CommitteeStats.

(** ** Proposers, members and the co-sponsorship join *)

Module Proposers.

Record proposer : Type := Proposer {
  BILL_ID : string;
  PROPOSER_ID : string;
  PROPOSER_TYPE : string
}.

End Proposers.

Module Members.

Record member : Type := Member {
  MONA_CD : string;
  POLY_NM : string
}.

End Members.

Module CoSponsor.

(** A row of [proposers.merge(members[["MONA_CD", "POLY_NM"]], ...)
    .drop(columns=["MONA_CD"])]. *)
Record joined : Type := Joined {
  BILL_ID : string;
  PROPOSER_ID : string;
  PROPOSER_TYPE : string;
  POLY_NM : string
}.

(** Inner join on [PROPOSER_ID = MONA_CD]: every pair of a proposer row
    and a member row with equal keys, in the order of the left frame. *)
Definition merge_members (proposers : list Proposers.proposer)
    (members : list Members.member) : list joined :=
  flat_map
    (fun p =>
       map (fun m => Joined (Proposers.BILL_ID p) (Proposers.PROPOSER_ID p)
                            (Proposers.PROPOSER_TYPE p) (Members.POLY_NM m))
           (List.filter
              (fun m => String.eqb (Proposers.PROPOSER_ID p) (Members.MONA_CD m))
              members))
    proposers.

(** [dict(x.value_counts())]: how often each value occurs. *)
Definition value_counts (xs : list string) : gmap string nat :=
  fold_right (fun x m => <[x := S (default O (m !! x))]> m) ∅ xs.

(** A row of [bp].  The dict literal of the aggregation has the key
    "PROPOSER_ID" twice; the later entry, the join, is the one in force. *)
Record bp_row : Type := BpRow {
  bp_BILL_ID : string;
  PROPOSER_POLY_NM : gmap string nat;
  PROPOSER_IDS : string
}.

Definition aggregate (g : string * list joined) : bp_row :=
  {| bp_BILL_ID := fst g;
     PROPOSER_POLY_NM := value_counts (map POLY_NM (snd g));
     PROPOSER_IDS := join ", " (map PROPOSER_ID (snd g)) |}.

Definition bp (proposers : list Proposers.proposer)
    (members : list Members.member) : list bp_row :=
  let bp := map aggregate
                (groupby (fun r => Some (BILL_ID r))
                         (merge_members proposers members)) in
  List.filter (fun r => (1 <? size (PROPOSER_POLY_NM r))%nat) bp.

Definition ana (bills : list Bills.bill)
    (proposers : list Proposers.proposer) (members : list Members.member)
    : list Bills.bill :=
  List.filter
    (fun b => isin (Bills.BILL_ID b) (map bp_BILL_ID (bp proposers members)))
    bills.

(** In the words of the specification: the party labels of the proposers
    of a bill that have a member record, and the bills with more than one
    such label. *)
Definition party_label (proposers : list Proposers.proposer)
    (members : list Members.member) (bill_id label : string) : Prop :=
  exists p m, In p proposers /\ In m members /\
    Proposers.BILL_ID p = bill_id /\
    Proposers.PROPOSER_ID p = Members.MONA_CD m /\
    Members.POLY_NM m = label.

Definition cross_party (proposers : list Proposers.proposer)
    (members : list Members.member) (bill_id : string) : Prop :=
  exists l1 l2, l1 <> l2 /\
    party_label proposers members bill_id l1 /\
    party_label proposers members bill_id l2.

End CoSponsor.

(** ** Per-capita productivity of the parties *)

Module PerCapita.

Record headcount : Type := Headcount {
  h_POLY_NM : string;
  MEMBER_COUNT : Z;
  MEMBER_RATIO : float64
}.

(** [members.groupby("POLY_NM").count()["MONA_CD"]] with the share of
    each party. *)
Definition member_ratio (members : list Members.member) : list headcount :=
  let member_ratio :=
    map (fun g : string * list Members.member =>
           (fst g, Z.of_nat (length (map Members.MONA_CD (snd g)))))
        (groupby (fun m => Some (Members.POLY_NM m)) members) in
  let total := fold_right Z.add 0 (map snd member_ratio) in
  map (fun r : string * Z =>
         Headcount (fst r) (snd r)
           (np_round (f64_div (f64_of_Z (snd r)) (f64_of_Z total)) 2))
      member_ratio.

(** A row of [bill_props]. *)
Record bill_prop : Type := BillProp {
  BILL_ID : string;
  PROPOSER_ID : string;
  PROPOSER_TYPE : string;
  POLY_NM : string;
  COMMITTEE_NAME : option string;
  BILL_NAME : string
}.

Definition bill_props (proposers : list Proposers.proposer)
    (members : list Members.member) (bills : list Bills.bill)
    : list bill_prop :=
  flat_map
    (fun j =>
       map (fun b => BillProp (CoSponsor.BILL_ID j) (CoSponsor.PROPOSER_ID j)
                              (CoSponsor.PROPOSER_TYPE j) (CoSponsor.POLY_NM j)
                              (Bills.COMMITTEE_NAME b) (Bills.BILL_NAME b))
           (List.filter
              (fun b => String.eqb (CoSponsor.BILL_ID j) (Bills.BILL_ID b))
              bills))
    (CoSponsor.merge_members proposers members).

Definition lead_props (bill_props : list bill_prop) : list bill_prop :=
  List.filter (fun r => String.eqb (PROPOSER_TYPE r) "의원대표") bill_props.

(** [lead_props.groupby(["POLY_NM"]).count()["BILL_ID"]]: party and
    BILL_COUNT. *)
Definition bill_counts (lead_props : list bill_prop) : list (string * Z) :=
  map (fun g : string * list bill_prop =>
         (fst g, Z.of_nat (length (map BILL_ID (snd g)))))
      (groupby (fun r => Some (POLY_NM r)) lead_props).

Record party_row : Type := PartyRow {
  p_POLY_NM : string;
  BILL_COUNT : Z;
  p_MEMBER_COUNT : option Z;   (* null where the left merge finds no party *)
  RATIO : float64
}.

(** A column of counts that may hold nulls, as float64. *)
Definition f64_of_cell (c : option Z) : float64 :=
  match c with
  | Some z => f64_of_Z z
  | None => NaN
  end.

(** [data.merge(member_ratio[["POLY_NM", "MEMBER_COUNT"]], on="POLY_NM",
    how="left")] followed by [RATIO = BILL_COUNT / MEMBER_COUNT]. *)
Definition per_capita (data : list (string * Z))
    (member_ratio : list headcount) : list party_row :=
  flat_map
    (fun d : string * Z =>
       let with_count (c : option Z) :=
         PartyRow (fst d) (snd d) c
                  (f64_div (f64_of_Z (snd d)) (f64_of_cell c)) in
       match List.filter (fun h => String.eqb (fst d) (h_POLY_NM h))
                         member_ratio with
       | [] => [with_count None]
       | found => map (fun h => with_count (Some (MEMBER_COUNT h))) found
       end)
    data.

(** The cell, from the loaded frames. *)
Definition party_ratio (proposers : list Proposers.proposer)
    (members : list Members.member) (bills : list Bills.bill)
    : list party_row :=
  per_capita (bill_counts (lead_props (bill_props proposers members bills)))
             (member_ratio members).

End PerCapita.

(** ** Sample frames *)

Module Samples.
Import BillDetails.

(** A bill presented to the committee the day before it was referred. *)
Definition out_of_order : row (option string) :=
  Row "2200001" "원안가결"
      (fun c => match c with
                | COMMITTEE_DT => Some "2024-01-02"
                | CMT_PRESENT_DT => Some "2024-01-01"
                | _ => None
                end)%string.

(** A bill with its seven dates, ten days from referral to promulgation. *)
Definition fully_processed : row (option string) :=
  Row "2200002" "수정가결"
      (fun c => match c with
                | COMMITTEE_DT => Some "2024-03-01"
                | CMT_PRESENT_DT => Some "2024-03-02"
                | CMT_PROC_DT => Some "2024-03-04"
                | LAW_SUBMIT_DT => Some "2024-03-05"
                | LAW_PRESENT_DT => Some "2024-03-07"
                | LAW_PROC_DT => Some "2024-03-08"
                | PROC_DT => Some "2024-03-11"
                end)%string.

(** A bill referred to its committee and never taken up. *)
Definition stalled : row (option string) :=
  Row "2200003" "임기만료폐기"
      (fun c => match c with
                | COMMITTEE_DT => Some "2024-03-01"
                | _ => None
                end)%string.

Definition withdrawn_bill : row (option string) :=
  Row "2200004" withdrawn
      (fun c => match c with
                | COMMITTEE_DT => Some "2024-03-01"
                | _ => None
                end)%string.

Definition synthetic : list (row (option string)) :=
  [fully_processed; stalled; withdrawn_bill].

(** A bill with its seven dates whose committee disposition is dated the
    day before its presentation. *)
Definition disposed_early : row (option string) :=
  Row "2200005" "원안가결"
      (fun c => match c with
                | COMMITTEE_DT => Some "2024-03-01"
                | CMT_PRESENT_DT => Some "2024-03-05"
                | CMT_PROC_DT => Some "2024-03-04"
                | LAW_SUBMIT_DT => Some "2024-03-06"
                | LAW_PRESENT_DT => Some "2024-03-07"
                | LAW_PROC_DT => Some "2024-03-08"
                | PROC_DT => Some "2024-03-09"
                end)%string.

End Samples.

(** ** Further definitions: what a directory entry contributes *)

Module ValidationOutcome.
Import Validation.

(** The message a directory entry leaves in [error], if it leaves one: a
    file that is not named "*.json" leaves none, a file that does not load
    leaves the message of its exception, a document leaves the message of
    the check that raises. *)
Definition failure (entry : string * file) : option string :=
  if endswith (fst entry) ".json"
  then
    match snd entry with
    | Broken msg => Some msg
    | Json data =>
        match check (fst entry) data ∅ with
        | inl e => Some (str e)
        | inr _ => None
        end
    end
  else None.

(** A document that passes every check and is flagged as alternative. *)
Definition accepted_alternative (data : extracted) (key : string)
    (nums : list string) : Prop :=
  exists t n,
    title data = Some t /\ bill_number data = Some n /\
    t <> ""%string /\ n <> ""%string /\
    key = split_head "_" t /\ endswith key n = true /\
    is_alternative data = Some true /\
    alternative_bill_numbers data = Some nums.

End ValidationOutcome.

(** ** The cell after the conversion of its date columns *)

Module Converted.
Import BillDetails.

(** Lines 847 to 868 of the cell, on a frame whose date columns already hold
    what [pd.to_datetime] made of them (a Timestamp, or [None] for NaT):
    the withdrawn rows are dropped, the duration columns added, and the
    five rates taken. *)
Definition conversion_of (bill_details : list (row (option Z))) : conversion :=
  let bill_details := List.filter not_withdrawn bill_details in
  let bill_details := map add_durations bill_details in
  let total := Z.of_nat (length bill_details) in
  let cmt_meet := reached CMT_MEET bill_details in
  let cmt_proc := reached CMT_PROC bill_details in
  let law_meet := reached LAW_MEET bill_details in
  let law_proc := reached LAW_PROC bill_details in
  let proc := reached PROC bill_details in
  {| cmt_meet_rate := np_round (f64_div (f64_of_Z cmt_meet) (f64_of_Z total)) 3;
     cmt_proc_rate := np_round (f64_div (f64_of_Z cmt_proc) (f64_of_Z total)) 3;
     law_meet_rate := np_round (f64_div (f64_of_Z law_meet) (f64_of_Z total)) 3;
     law_proc_rate := np_round (f64_div (f64_of_Z law_proc) (f64_of_Z total)) 3;
     proc_rate := np_round (f64_div (f64_of_Z proc) (f64_of_Z total)) 3 |}.

End Converted.

(** ** The means of the duration columns (last expression of the cell) *)

Module DurationMeans.
Import BillDetails.

(** One column of [bill_details[[...]].replace(-1, pd.NA).mean(skipna=True)]:
    the values equal to -1 become missing and are skipped; the others are
    summed (as integers, the column being of object dtype) and the sum is
    divided by their number; a column with no value left has mean NaN. *)
Definition column_mean (col : detail -> Z) (bill_details : list detail)
    : float64 :=
  let values := List.filter (fun v => negb (v =? -1)) (map col bill_details) in
  let count := Z.of_nat (length values) in
  if 0 <? count
  then f64_div (f64_of_Z (fold_right Z.add 0 values)) (f64_of_Z count)
  else NaN.

Record means : Type := Means {
  mean_CMT_MEET : float64;
  mean_CMT_PROC : float64;
  mean_LAW_ : float64;
  mean_LAW_MEET : float64;
  mean_LAW_PROC : float64;
  mean_PROC : float64;
  mean_TOTAL_DT : float64
}.

Definition duration_means (parse : string -> option Z)
    (bill_details : list (row (option string))) : means :=
  let bill_details := durations parse bill_details in
  {| mean_CMT_MEET := column_mean CMT_MEET bill_details;
     mean_CMT_PROC := column_mean CMT_PROC bill_details;
     mean_LAW_ := column_mean LAW_ bill_details;
     mean_LAW_MEET := column_mean LAW_MEET bill_details;
     mean_LAW_PROC := column_mean LAW_PROC bill_details;
     mean_PROC := column_mean PROC bill_details;
     mean_TOTAL_DT := column_mean TOTAL_DT bill_details |}.

End DurationMeans.

(** ** Totals over a table *)

(** [column.sum()] of an integer column. *)
Definition sum_Z (values : list Z) : Z := fold_right Z.add 0 values.

(** The rows whose grouping key is not null. *)
Definition has_key {A : Type} (key : A -> option string) (r : A) : bool :=
  match key r with
  | Some _ => true
  | None => false
  end.

(** ** The proposer columns of a joined row *)

Module JoinedRows.

Definition proposer_of (j : CoSponsor.joined) : Proposers.proposer :=
  Proposers.Proposer (CoSponsor.BILL_ID j) (CoSponsor.PROPOSER_ID j)
                     (CoSponsor.PROPOSER_TYPE j).

(** The proposer rows whose identifier is the MONA_CD of some member. *)
Definition has_member (members : list Members.member)
    (p : Proposers.proposer) : bool :=
  isin (Proposers.PROPOSER_ID p) (map Members.MONA_CD members).

End JoinedRows.

(** ** The dashboard's view state (the [Dashboard] component) *)

Module Dashboard.

Inductive TabType : Type := overview | member_stats | bill_stats.

Section ViewState.

(** [MemberStatisticsResponse] *)
Variable member : Type.

(** The three [useState] cells of the component. *)
Record state : Type := ViewState {
  activeTab : TabType;
  selectedMember : option member;
  selectedAge : string
}.

Definition initial : state := ViewState overview None "22".

Definition handleMemberSelect (m : member) (s : state) : state :=
  ViewState member_stats (Some m) (selectedAge s).

Definition handleAgeChange (age : string) (s : state) : state :=
  ViewState (activeTab s) None age.

Definition handleTabChange (tab : TabType) (s : state) : state :=
  ViewState tab
            (match tab with
             | member_stats => selectedMember s
             | _ => None
             end)
            (selectedAge s).

(** [setSelectedMember], which the member page receives as [onMemberSelect]
    and calls with the member of the card that is clicked, or with null
    when the detail view is closed. *)
Definition setSelectedMember (m : option member) (s : state) : state :=
  ViewState (activeTab s) m (selectedAge s).

(** What the user can do: the tab bar is always shown; the overview page
    and the member page are rendered only under their own tab, each with
    its member cards and its age filter. *)
Inductive step : state -> state -> Prop :=
  | click_tab (s : state) (tab : TabType) :
      step s (handleTabChange tab s)
  | overview_select (s : state) (m : member) :
      activeTab s = overview -> step s (handleMemberSelect m s)
  | overview_age (s : state) (age : string) :
      activeTab s = overview -> step s (handleAgeChange age s)
  | member_page_select (s : state) (m : option member) :
      activeTab s = member_stats -> step s (setSelectedMember m s)
  | member_page_age (s : state) (age : string) :
      activeTab s = member_stats -> step s (handleAgeChange age s).

Inductive reachable : state -> Prop :=
  | reach_initial : reachable initial
  | reach_step (s s' : state) : reachable s -> step s s' -> reachable s'.

End ViewState.

Arguments activeTab {member}.
Arguments selectedMember {member}.
Arguments selectedAge {member}.

End Dashboard.

(** ** Frontend utilities *)

Module Utils.

(** A JavaScript string by its UTF-16 code units. *)
Definition jsstring : Type := list N.

Definition slash : N := 47.

(** '무소속' *)
Definition independent : jsstring := [47924; 49548; 49549]%N.

(** '...' *)
Definition ellipsis : jsstring := [46; 46; 46]%N.

(** [s.split(sep)] for a separator of one code unit; never empty. *)
Fixpoint split (sep : N) (s : jsstring) : list jsstring :=
  match s with
  | [] => [[]]
  | c :: s' =>
      if N.eqb c sep then [] :: split sep s'
      else match split sep s' with
           | seg :: rest => (c :: seg) :: rest
           | [] => [[c]]
           end
  end.

(** [getShortPartyName]; [None] is a name that is undefined. *)
Definition getShortPartyName (fullPartyName : option jsstring) : jsstring :=
  match fullPartyName with
  | None => independent
  | Some [] => independent
  | Some name =>
      match List.last (split slash name) [] with
      | [] => independent
      | short => short
      end
  end.

(** A relative index of [slice]: counted from the end when negative, and
    clamped to the array. *)
Definition relative (len k : Z) : Z :=
  if k <? 0 then Z.max (len + k) 0 else Z.min k len.

(** [l.slice(start, end)] for integral arguments. *)
Definition slice {A : Type} (l : list A) (start end_ : Z) : list A :=
  let len := Z.of_nat (length l) in
  let from := relative len start in
  let to := relative len end_ in
  firstn (Z.to_nat (to - from)) (skipn (Z.to_nat from) l).

(** [truncateText], for an integral [maxLength]. *)
Definition truncateText (text : jsstring) (maxLength : Z) : jsstring :=
  if Z.of_nat (length text) <=? maxLength then text
  else slice text 0 maxLength ++ ellipsis.

(** The loop of [chunkArray], for an integral [chunkSize]: [fuel] bounds the
    number of tests of the loop condition, and [None] is a loop that has
    not ended within it. *)
Fixpoint chunk_loop {A : Type} (fuel : nat) (array : list A) (chunkSize i : Z)
    (chunks : list (list A)) : option (list (list A)) :=
  match fuel with
  | O => None
  | S fuel' =>
      if i <? Z.of_nat (length array)
      then chunk_loop fuel' array chunkSize (i + chunkSize)
                      (chunks ++ [slice array i (i + chunkSize)])
      else Some chunks
  end.

Definition chunkArray {A : Type} (fuel : nat) (array : list A)
    (chunkSize : Z) : option (list (list A)) :=
  chunk_loop fuel array chunkSize 0 [].

End Utils.


(** ** The statistics hooks of the frontend (src/frontend/src/hooks) *)

From Stdlib Require Import Sorting.Sorted.

(** Addition of two JavaScript numbers. *)
Definition f64_add (x y : float64) : float64 :=
  match x, y with
  | NaN, _ | _, NaN => NaN
  | Inf s, Inf t => if Bool.eqb s t then Inf s else NaN
  | Inf s, Fin _ => Inf s
  | Fin _, Inf t => Inf t
  | Fin a, Fin b => rn64 (a + b)
  end.

(** [Math.round]: the nearest integer, a tie going up. *)
Definition math_round (x : float64) : float64 :=
  match x with
  | Fin q => Fin (inject_Z (Qfloor (q + (1 # 2))))
  | _ => x
  end.

(** [array.sort(compare)] for a comparator with integral results.  The sort
    is stable, so that for a comparator that orders by a key its result is
    the one of an insertion sort that puts an element before the first
    one it does not have to follow. *)
Fixpoint sort_insert {A : Type} (compare : A -> A -> Z) (x : A)
    (sorted : list A) : list A :=
  match sorted with
  | [] => [x]
  | y :: rest =>
      if compare x y <=? 0 then x :: sorted
      else y :: sort_insert compare x rest
  end.

Definition array_sort {A : Type} (compare : A -> A -> Z) (array : list A)
    : list A :=
  fold_right (sort_insert compare) [] array.

Fixpoint jsstring_eqb (s t : Utils.jsstring) : bool :=
  match s, t with
  | [], [] => true
  | c :: s', d :: t' => N.eqb c d && jsstring_eqb s' t'
  | _, _ => false
  end.

Module Hooks.
Import Utils.

(** The fields of a [MemberStatisticsResponse] that the hooks below read:
    [member_info.PLPT_NM] and, of [bill_stats], the two counts (integers)
    and the pass rate of the bills led. *)
Record member : Type := Member {
  PLPT_NM : option jsstring;
  lead_count : Z;
  lead_pass_rate : float64;
  total_count : Z
}.

(** [Math.round(x * 10) / 10] *)
Definition one_decimal (x : float64) : float64 :=
  f64_div (math_round (f64_mul x (f64_literal 10))) (f64_literal 10).

Definition sum_counts (count : member -> Z) (members : list member) : Z :=
  fold_left (fun sum m => sum + count m) members 0.

Definition sum_rates (members : list member) : float64 :=
  fold_left (fun sum m => f64_add sum (lead_pass_rate m)) members (Fin 0).

Record OverallStats : Type := Overall {
  totalMembers : Z;
  totalLeadBills : Z;
  avgLeadBillCount : float64;
  avgLeadPassRate : float64;
  totalBills : Z
}.

(** [useOverallStats].  The counts are integers, whose sums are exact as
    JavaScript numbers up to 2^53. *)
Definition useOverallStats (members : list member) : OverallStats :=
  let totalMembers := Z.of_nat (length members) in
  let totalLeadBills := sum_counts lead_count members in
  let avgLeadBillCount :=
    if totalMembers =? 0 then Fin 0
    else one_decimal (f64_div (f64_of_Z totalLeadBills) (f64_of_Z totalMembers)) in
  let avgLeadPassRate :=
    if totalMembers =? 0 then Fin 0
    else one_decimal (f64_div (sum_rates members) (f64_of_Z totalMembers)) in
  let totalBills := sum_counts total_count members in
  {| totalMembers := totalMembers;
     totalLeadBills := totalLeadBills;
     avgLeadBillCount := avgLeadBillCount;
     avgLeadPassRate := avgLeadPassRate;
     totalBills := totalBills |}.

(** An entry of [partyMap].  [count] is the length of [topMembers], an
    array index; [totalLeadBills] is a sum of JavaScript numbers. *)
Record PartyStats : Type := Party {
  name : jsstring;
  count : Z;
  partyLeadBills : float64;     (* totalLeadBills *)
  partyLeadBillCount : float64; (* avgLeadBillCount *)
  partyLeadPassRate : float64;  (* avgLeadPassRate *)
  topMembers : list member
}.

(** The key of a member in [partyMap]:
    [(member.member_info.PLPT_NM || '무소속').split('/').pop() || '무소속']. *)
Definition party_of (m : member) : jsstring :=
  let partyFull :=
    match PLPT_NM m with
    | Some (c :: s) => c :: s
    | _ => independent
    end in
  match List.last (split slash partyFull) [] with
  | [] => independent
  | party => party
  end.

Definition has (party : jsstring) (partyMap : list PartyStats) : bool :=
  existsb (fun d => jsstring_eqb (name d) party) partyMap.

(** The entry of a key is changed in place. *)
Fixpoint update (party : jsstring) (f : PartyStats -> PartyStats)
    (partyMap : list PartyStats) : list PartyStats :=
  match partyMap with
  | [] => []
  | d :: rest =>
      if jsstring_eqb (name d) party then f d :: rest
      else d :: update party f rest
  end.

Definition add_member (m : member) (partyData : PartyStats) : PartyStats :=
  {| name := name partyData;
     count := count partyData + 1;
     partyLeadBills :=
       f64_add (partyLeadBills partyData) (f64_of_Z (lead_count m));
     partyLeadBillCount := partyLeadBillCount partyData;
     partyLeadPassRate := partyLeadPassRate partyData;
     topMembers := topMembers partyData ++ [m] |}.

(** One round of [members.forEach]; the map keeps its keys in the order of
    their insertion. *)
Definition visit (partyMap : list PartyStats) (m : member) : list PartyStats :=
  let party := party_of m in
  let partyMap :=
    if has party partyMap then partyMap
    else partyMap ++ [ {| name := party; count := 0;
                          partyLeadBills := Fin 0;
                          partyLeadBillCount := Fin 0;
                          partyLeadPassRate := Fin 0;
                          topMembers := [] |} ] in
  update party (add_member m) partyMap.

(** The object built for one value of the map; the pass rates are summed
    before [topMembers] is sorted. *)
Definition summarize (party : PartyStats) : PartyStats :=
  {| name := name party;
     count := count party;
     partyLeadBills := partyLeadBills party;
     partyLeadBillCount :=
       one_decimal (f64_div (partyLeadBills party)
                            (f64_of_Z (count party)));
     partyLeadPassRate :=
       one_decimal (f64_div (sum_rates (topMembers party))
                            (f64_of_Z (count party)));
     topMembers :=
       slice (array_sort (fun a b => lead_count b - lead_count a)
                         (topMembers party)) 0 2 |}.

Definition usePartyStats (members : list member) : list PartyStats :=
  map summarize (fold_left visit members []).

(** The members whose key in [partyMap] is [party]. *)
Definition in_party (party : jsstring) (m : member) : bool :=
  jsstring_eqb (party_of m) party.

(** The lead counts of some members, added up as JavaScript numbers in
    the order of the list. *)
Definition lead_total (members : list member) : float64 :=
  fold_left (fun sum m => f64_add sum (f64_of_Z (lead_count m))) members (Fin 0).

(** What an entry of [partyMap] holds once the members [seen] have been
    visited. *)
Definition accumulated (seen : list member) (d : PartyStats) : Prop :=
  topMembers d = List.filter (in_party (name d)) seen /\
  count d = Z.of_nat (length (topMembers d)) /\
  partyLeadBills d = lead_total (topMembers d) /\
  topMembers d <> [].

Definition visited (seen : list member) (partyMap : list PartyStats) : Prop :=
  List.NoDup (map name partyMap) /\
  Forall (accumulated seen) partyMap /\
  (forall m, In m seen -> In (party_of m) (map name partyMap)).

Record BillStatisticsResponse : Type := Bill {
  bill_code : jsstring;
  bill_name : jsstring;
  bill_committee : jsstring;
  bill_count : Z;
  bill_pass_rate : float64
}.

Record TopBill : Type := Top {
  top_name : jsstring;
  top_committee : jsstring;
  top_count : Z;
  top_pass_rate : float64
}.

Definition top_bill (bill : BillStatisticsResponse) : TopBill :=
  {| top_name := bill_name bill;
     top_committee := bill_committee bill;
     top_count := bill_count bill;
     top_pass_rate := bill_pass_rate bill |}.

(** [useTopBills].  [bills.sort] sorts the array of the caller in place:
    the first component is that array afterwards, the second the value
    returned. *)
Definition useTopBills (bills : list BillStatisticsResponse)
    : list BillStatisticsResponse * list TopBill :=
  let bills := array_sort (fun a b => bill_count b - bill_count a) bills in
  (bills, map top_bill (slice bills 0 3)).

End Hooks.

(** Sample responses of the API. *)
Module HookSamples.
Import Hooks.

(** Parties 'A/B', 'B' and none; the labels are 'B', 'B' and '무소속'. *)
Definition first_member : member :=
  {| PLPT_NM := Some [65; 47; 66]%N; lead_count := 2;
     lead_pass_rate := Fin (inject_Z 50); total_count := 10 |}.

Definition second_member : member :=
  {| PLPT_NM := Some [66]%N; lead_count := 3;
     lead_pass_rate := Fin (inject_Z 100); total_count := 4 |}.

Definition third_member : member :=
  {| PLPT_NM := None; lead_count := 7;
     lead_pass_rate := Fin (inject_Z 0); total_count := 9 |}.

Definition fourth_member : member :=
  {| PLPT_NM := Some [66]%N; lead_count := 5;
     lead_pass_rate := Fin (inject_Z 20); total_count := 6 |}.

Definition members : list member :=
  [first_member; second_member; third_member; fourth_member].

Definition bill_of (code : N) (count : Z) : BillStatisticsResponse :=
  {| bill_code := [code]; bill_name := [code]; bill_committee := [];
     bill_count := count; bill_pass_rate := Fin 0 |}.

Definition bills : list BillStatisticsResponse :=
  [bill_of 49 1; bill_of 50 5; bill_of 51 3; bill_of 52 5].

End HookSamples.
(* ===================================================================== *)
(** * Part II. Properties                                                 *)
(* ===================================================================== *)

(** ** float64: rounding is monotone *)

Lemma Qpow2_pos (e : Z) : (0 < 2 ^ e)%Q.
Proof. apply Qpower_0_lt. reflexivity. Qed.

Lemma Qpow2_add (a b : Z) : (2 ^ (a + b) == 2 ^ a * 2 ^ b)%Q.
Proof. apply Qpower_plus. discriminate. Qed.

Lemma Qpow2_le (a b : Z) : a <= b -> (2 ^ a <= 2 ^ b)%Q.
Proof. intros H. apply Qpower_le_compat_l; [exact H | discriminate]. Qed.

Lemma Qpow2_lt_inv (a b : Z) : (2 ^ a < 2 ^ b)%Q -> a < b.
Proof. intros H. apply (Qpower_lt_compat_l_inv 2); [exact H | reflexivity]. Qed.

Lemma Qpow2_inject (n : Z) : 0 <= n -> (2 ^ n == inject_Z (2 ^ n))%Q.
Proof. intros H. symmetry. apply (Zpower_Qpower 2 n H). Qed.

Lemma Q_as_quot (q : Q) : (q * inject_Z (Zpos (Qden q)) == inject_Z (Qnum q))%Q.
Proof.
  destruct q as [n d]. unfold Qeq, Qmult, inject_Z. simpl. lia.
Qed.

Lemma mag_spec (q : Q) : (0 < q)%Q -> (2 ^ mag q <= q)%Q /\ (q < 2 ^ (mag q + 1))%Q.
Proof.
  intros Hq.
  assert (Hn : 0 < Qnum q) by (destruct q as [n d]; unfold Qlt in Hq; simpl in *; lia).
  set (d := Zpos (Qden q)). set (n := Qnum q) in *.
  assert (Hd : 0 < d) by (unfold d; lia).
  pose proof (Z.log2_spec n Hn) as [HnL HnU].
  pose proof (Z.log2_spec d Hd) as [HdL HdU].
  pose proof (Z.log2_nonneg n) as HL0. pose proof (Z.log2_nonneg d) as HM0.
  set (L := Z.log2 n) in *. set (M := Z.log2 d) in *.
  pose proof (Q_as_quot q) as Hquot. fold d n in Hquot.
  assert (HdQ : (0 < inject_Z d)%Q) by (unfold Qlt; simpl; lia).
  (* bounds on n and d in Q *)
  assert (B1 : (2 ^ L <= inject_Z n)%Q).
  { rewrite Qpow2_inject by lia. rewrite <- Zle_Qle. exact HnL. }
  assert (B2 : (inject_Z n < 2 ^ (L + 1))%Q).
  { rewrite Qpow2_inject by lia. rewrite <- Zlt_Qlt. exact HnU. }
  assert (B3 : (2 ^ M <= inject_Z d)%Q).
  { rewrite Qpow2_inject by lia. rewrite <- Zle_Qle. exact HdL. }
  assert (B4 : (inject_Z d < 2 ^ (M + 1))%Q).
  { rewrite Qpow2_inject by lia. rewrite <- Zlt_Qlt. exact HdU. }
  (* q < 2^(k+1) and 2^(k-1) < q *)
  assert (U : (q < 2 ^ (L - M + 1))%Q).
  { apply (Qmult_lt_r _ _ (inject_Z d) HdQ). rewrite Hquot.
    eapply Qlt_le_trans; [exact B2|].
    replace (L + 1) with ((L - M + 1) + M) by lia. rewrite Qpow2_add.
    apply Qmult_le_l; [apply Qpow2_pos | exact B3]. }
  assert (Lo : (2 ^ (L - M - 1) < q)%Q).
  { apply (Qmult_lt_r _ _ (inject_Z d) HdQ). rewrite Hquot.
    eapply Qlt_le_trans; [|exact B1].
    replace L with ((L - M - 1) + (M + 1)) at 2 by lia. rewrite Qpow2_add.
    apply Qmult_lt_l; [apply Qpow2_pos | exact B4]. }
  unfold mag. fold n d L M.
  destruct (Qle_bool (2 ^ (L - M)) q) eqn:E.
  - apply Qle_bool_iff in E. split; [exact E | exact U].
  - split.
    + apply Qlt_le_weak. exact Lo.
    + replace (L - M - 1 + 1) with (L - M) by lia.
      apply Qnot_le_lt. intros C. apply Qle_bool_iff in C. congruence.
Qed.

Lemma mag_mono (p q : Q) : (0 < p)%Q -> (p <= q)%Q -> mag p <= mag q.
Proof.
  intros Hp Hpq.
  assert (Hq : (0 < q)%Q) by (eapply Qlt_le_trans; eauto).
  destruct (mag_spec p Hp) as [A _]. destruct (mag_spec q Hq) as [_ B].
  assert (H : (2 ^ mag p < 2 ^ (mag q + 1))%Q).
  { eapply Qle_lt_trans; [exact A|]. eapply Qle_lt_trans; [exact Hpq | exact B]. }
  apply Qpow2_lt_inv in H. lia.
Qed.

Lemma rint_Q_bounds (q : Q) : Qfloor q <= rint_Q q <= Qfloor q + 1.
Proof.
  unfold rint_Q. destruct (Qcompare _ _); [destruct (Z.even _)| |]; lia.
Qed.

Lemma rint_Q_inject (z : Z) : rint_Q (inject_Z z) = z.
Proof.
  unfold rint_Q. rewrite Qfloor_Z.
  assert (E : (inject_Z z - inject_Z z ?= 1 # 2)%Q = Lt).
  { rewrite <- Qlt_alt. lra. }
  rewrite E. reflexivity.
Qed.

Lemma rint_Q_mono (p q : Q) : (p <= q)%Q -> rint_Q p <= rint_Q q.
Proof.
  intros H. pose proof (Qfloor_resp_le _ _ H) as Hf.
  destruct (Z.eq_dec (Qfloor p) (Qfloor q)) as [E|NE].
  - unfold rint_Q. rewrite E.
    destruct (Qcompare (p - inject_Z (Qfloor q)) (1 # 2)) eqn:Cp;
    destruct (Qcompare (q - inject_Z (Qfloor q)) (1 # 2)) eqn:Cq;
    try (destruct (Z.even (Qfloor q))); try lia;
    try (rewrite <- Qeq_alt in * ); try (rewrite <- Qlt_alt in * );
    try (rewrite <- Qgt_alt in * ); exfalso; lra.
  - pose proof (rint_Q_bounds p). pose proof (rint_Q_bounds q). lia.
Qed.

Lemma round_pos_value_le (p q : Q) :
  (0 < p)%Q -> (p <= q)%Q ->
  (inject_Z (rint_Q (p / 2 ^ (Z.max (mag p - 52) (-1074)))) * 2 ^ (Z.max (mag p - 52) (-1074))
   <= inject_Z (rint_Q (q / 2 ^ (Z.max (mag q - 52) (-1074)))) * 2 ^ (Z.max (mag q - 52) (-1074)))%Q.
Proof.
  intros Hp Hpq.
  assert (Hq : (0 < q)%Q) by (eapply Qlt_le_trans; eauto).
  pose proof (mag_mono p q Hp Hpq) as Hm.
  set (e1 := Z.max (mag p - 52) (-1074)). set (e2 := Z.max (mag q - 52) (-1074)).
  destruct (Z.eq_dec e1 e2) as [E|NE].
  - rewrite <- E. apply Qmult_le_compat_r; [|apply Qlt_le_weak, Qpow2_pos].
    rewrite <- Zle_Qle. apply rint_Q_mono.
    apply Qmult_le_compat_r; [exact Hpq|].
    apply Qlt_le_weak, Qinv_lt_0_compat, Qpow2_pos.
  - assert (Hlt : e1 < e2) by (unfold e1, e2 in *; lia).
    assert (He2 : e2 = mag q - 52) by (unfold e1, e2 in *; lia).
    assert (Hmag : mag p + 1 <= mag q) by (unfold e1, e2 in *; lia).
    destruct (mag_spec p Hp) as [_ Pu]. destruct (mag_spec q Hq) as [Ql _].
    (* the common boundary 2 ^ mag q *)
    apply Qle_trans with (2 ^ mag q)%Q.
    + replace (mag q) with ((mag q - e1) + e1) at 1 by lia. rewrite Qpow2_add.
      apply Qmult_le_compat_r; [|apply Qlt_le_weak, Qpow2_pos].
      rewrite (Qpow2_inject (mag q - e1)) by lia. rewrite <- Zle_Qle.
      rewrite <- (rint_Q_inject (2 ^ (mag q - e1))). apply rint_Q_mono.
      rewrite <- (Qpow2_inject (mag q - e1)) by lia.
      apply Qle_shift_div_r; [apply Qpow2_pos|].
      rewrite <- Qpow2_add. replace (mag q - e1 + e1) with (mag q) by lia.
      apply Qlt_le_weak. eapply Qlt_le_trans; [exact Pu|]. apply Qpow2_le. lia.
    + replace (mag q) with (52 + e2) at 1 by lia. rewrite Qpow2_add.
      apply Qmult_le_compat_r; [|apply Qlt_le_weak, Qpow2_pos].
      rewrite (Qpow2_inject 52) by lia. rewrite <- Zle_Qle.
      rewrite <- (rint_Q_inject (2 ^ 52)) at 1. apply rint_Q_mono.
      rewrite <- (Qpow2_inject 52) by lia.
      apply Qle_shift_div_l; [apply Qpow2_pos|].
      rewrite <- Qpow2_add. replace (52 + e2) with (mag q) by lia. exact Ql.
Qed.

Lemma round_pos_mono (p q : Q) :
  (0 < p)%Q -> (p <= q)%Q -> f64_leb (round_pos p) (round_pos q) = true.
Proof.
  intros Hp Hpq. pose proof (round_pos_value_le p q Hp Hpq) as H.
  unfold round_pos.
  set (rp := (inject_Z _ * 2 ^ Z.max (mag p - 52) (-1074))%Q) in *.
  set (rq := (inject_Z _ * 2 ^ Z.max (mag q - 52) (-1074))%Q) in *.
  destruct (Qle_bool (2 ^ 1024) rq) eqn:Eq.
  - destruct (Qle_bool (2 ^ 1024) rp); reflexivity.
  - destruct (Qle_bool (2 ^ 1024) rp) eqn:Ep.
    + apply Qle_bool_iff in Ep.
      assert (C : Qle_bool (2 ^ 1024) rq = true).
      { apply Qle_bool_iff. eapply Qle_trans; eauto. }
      congruence.
    + simpl. apply Qle_bool_iff. rewrite !Qred_correct. exact H.
Qed.

Lemma round_pos_nonneg (q : Q) : (0 < q)%Q -> f64_leb (Fin 0) (round_pos q) = true.
Proof.
  intros Hq. unfold round_pos.
  set (e := Z.max (mag q - 52) (-1074)).
  destruct (Qle_bool _ _); [reflexivity|]. simpl.
  apply Qle_bool_iff. rewrite Qred_correct.
  apply Qmult_le_0_compat; [|apply Qlt_le_weak, Qpow2_pos].
  change 0%Q with (inject_Z 0). rewrite <- Zle_Qle.
  rewrite <- (rint_Q_inject 0). apply rint_Q_mono.
  apply Qlt_le_weak. apply Qlt_shift_div_l; [apply Qpow2_pos|].
  rewrite Qmult_0_l. exact Hq.
Qed.

Lemma rn64_mono (p q : Q) :
  (0 <= p)%Q -> (p <= q)%Q -> f64_leb (rn64 p) (rn64 q) = true.
Proof.
  intros Hp Hpq. unfold rn64.
  destruct (Qcompare p 0) eqn:Cp.
  - destruct (Qcompare q 0) eqn:Cq.
    + reflexivity.
    + rewrite <- Qlt_alt in Cq. exfalso. rewrite <- Qeq_alt in Cp. lra.
    + rewrite <- Qgt_alt in Cq. apply round_pos_nonneg. exact Cq.
  - rewrite <- Qlt_alt in Cp. exfalso. lra.
  - rewrite <- Qgt_alt in Cp.
    destruct (Qcompare q 0) eqn:Cq.
    + rewrite <- Qeq_alt in Cq. exfalso. lra.
    + rewrite <- Qlt_alt in Cq. exfalso. lra.
    + apply round_pos_mono; assumption.
Qed.

Lemma f64_nn_Fin (q : Q) : f64_nn (Fin q) <-> (0 <= q)%Q.
Proof. unfold f64_nn. simpl. apply Qle_bool_iff. Qed.

Lemma rn64_0 : rn64 0 = Fin 0.
Proof. reflexivity. Qed.

Lemma rn64_nn (q : Q) : (0 <= q)%Q -> f64_nn (rn64 q).
Proof.
  intros H. unfold f64_nn. rewrite <- rn64_0. apply rn64_mono; [lra | exact H].
Qed.

Lemma is_neg_pos (q : Q) : (0 < q)%Q -> is_neg q = false.
Proof.
  intros H. unfold is_neg. apply negb_false_iff, Qle_bool_iff. lra.
Qed.

Lemma Qeq_bool_pos (q : Q) : (0 < q)%Q -> Qeq_bool q 0 = false.
Proof.
  intros H. destruct (Qeq_bool q 0) eqn:E; [|reflexivity].
  apply Qeq_bool_iff in E. lra.
Qed.

(** Order-preservation of the three steps on non-negative values. *)
Lemma f64_div_mono (x y : float64) (t : Q) :
  (0 < t)%Q -> f64_nn x -> f64_leb x y = true ->
  f64_nn (f64_div x (Fin t)) /\
  f64_leb (f64_div x (Fin t)) (f64_div y (Fin t)) = true.
Proof.
  intros Ht Hx Hxy.
  destruct x as [a|[|]|]; try discriminate Hx;
  destruct y as [b|[|]|]; try discriminate Hxy; simpl;
  rewrite ?(Qeq_bool_pos t Ht), ?(is_neg_pos t Ht); simpl; auto.
  - apply f64_nn_Fin in Hx. simpl in Hxy. apply Qle_bool_iff in Hxy.
    assert (H0 : (0 <= a / t)%Q).
    { apply Qle_shift_div_l; [exact Ht|]. rewrite Qmult_0_l. exact Hx. }
    split; [apply rn64_nn; exact H0|].
    apply rn64_mono; [exact H0|].
    apply Qmult_le_compat_r; [exact Hxy|].
    apply Qlt_le_weak, Qinv_lt_0_compat, Ht.
  - apply f64_nn_Fin in Hx.
    assert (H0 : (0 <= a / t)%Q).
    { apply Qle_shift_div_l; [exact Ht|]. rewrite Qmult_0_l. exact Hx. }
    pose proof (rn64_nn _ H0) as N. split; [exact N|].
    unfold f64_nn in N. destruct (rn64 (a / t)) as [c|[|]|]; simpl in *; auto.
Qed.

Lemma f64_mul_mono (x y : float64) (t : Q) :
  (0 < t)%Q -> f64_nn x -> f64_leb x y = true ->
  f64_nn (f64_mul x (Fin t)) /\
  f64_leb (f64_mul x (Fin t)) (f64_mul y (Fin t)) = true.
Proof.
  intros Ht Hx Hxy.
  destruct x as [a|[|]|]; try discriminate Hx;
  destruct y as [b|[|]|]; try discriminate Hxy; simpl;
  rewrite ?(Qeq_bool_pos t Ht), ?(is_neg_pos t Ht); simpl; auto.
  - apply f64_nn_Fin in Hx. simpl in Hxy. apply Qle_bool_iff in Hxy.
    assert (H0 : (0 <= a * t)%Q).
    { apply Qmult_le_0_compat; [exact Hx | apply Qlt_le_weak, Ht]. }
    split; [apply rn64_nn; exact H0|].
    apply rn64_mono; [exact H0|].
    apply Qmult_le_compat_r; [exact Hxy | apply Qlt_le_weak, Ht].
  - apply f64_nn_Fin in Hx.
    assert (H0 : (0 <= a * t)%Q).
    { apply Qmult_le_0_compat; [exact Hx | apply Qlt_le_weak, Ht]. }
    pose proof (rn64_nn _ H0) as N. split; [exact N|].
    unfold f64_nn in N. destruct (rn64 (a * t)) as [c|[|]|]; simpl in *; auto.
Qed.

Lemma f64_rint_mono (x y : float64) :
  f64_nn x -> f64_leb x y = true ->
  f64_nn (f64_rint x) /\ f64_leb (f64_rint x) (f64_rint y) = true.
Proof.
  intros Hx Hxy.
  destruct x as [a|[|]|]; try discriminate Hx;
  destruct y as [b|[|]|]; try discriminate Hxy; simpl; auto.
  - apply f64_nn_Fin in Hx. simpl in Hxy. apply Qle_bool_iff in Hxy.
    split.
    + apply f64_nn_Fin. change 0%Q with (inject_Z 0). rewrite <- Zle_Qle.
      rewrite <- (rint_Q_inject 0). apply rint_Q_mono. exact Hx.
    + apply Qle_bool_iff. rewrite <- Zle_Qle. apply rint_Q_mono. exact Hxy.
  - apply f64_nn_Fin in Hx. split; [|reflexivity].
    apply f64_nn_Fin. change 0%Q with (inject_Z 0). rewrite <- Zle_Qle.
    rewrite <- (rint_Q_inject 0). apply rint_Q_mono. exact Hx.
Qed.

(** Integers of the int64 range convert to finite, positive values. *)
Lemma f64_of_Z_pos (z : Z) :
  1 <= z <= 2 ^ 63 -> exists q, f64_of_Z z = Fin q /\ (0 < q)%Q.
Proof.
  intros [Hl Hu]. unfold f64_of_Z.
  assert (A : f64_leb (rn64 1) (rn64 (inject_Z z)) = true).
  { apply rn64_mono; [lra|]. change 1%Q with (inject_Z 1). rewrite <- Zle_Qle. exact Hl. }
  assert (B : f64_leb (rn64 (inject_Z z)) (rn64 (inject_Z (2 ^ 63))) = true).
  { apply rn64_mono.
    - change 0%Q with (inject_Z 0). rewrite <- Zle_Qle. lia.
    - rewrite <- Zle_Qle. exact Hu. }
  replace (rn64 1) with (Fin 1) in A by (vm_compute; reflexivity).
  replace (rn64 (inject_Z (2 ^ 63))) with (Fin (inject_Z (2 ^ 63))) in B
    by (vm_compute; reflexivity).
  destruct (rn64 (inject_Z z)) as [q|[|]|]; try discriminate.
  exists q. split; [reflexivity|]. simpl in A. apply Qle_bool_iff in A. lra.
Qed.

Lemma np_round_mono (x y : float64) (decimals : nat) :
  (decimals <= 18)%nat -> f64_nn x -> f64_leb x y = true ->
  f64_leb (np_round x decimals) (np_round y decimals) = true.
Proof.
  intros Hd Hx Hxy. unfold np_round.
  destruct decimals as [|d]; [apply f64_rint_mono; assumption|].
  destruct (f64_of_Z_pos (10 ^ Z.of_nat (S d))) as (t & Et & Ht).
  { split.
    - apply (Z.pow_le_mono_r 10 0); lia.
    - apply Z.le_trans with (10 ^ 18); [apply Z.pow_le_mono_r; lia|].
      vm_compute. discriminate. }
  unfold power_of_ten. rewrite Et.
  destruct (f64_mul_mono x y t Ht Hx Hxy) as [M1 M2].
  destruct (f64_rint_mono _ _ M1 M2) as [R1 R2].
  apply (f64_div_mono _ _ t Ht R1 R2).
Qed.

(** The rounded ratio of two counts grows with the numerator. *)
Lemma ratio_mono (a b t : Z) (decimals : nat) :
  (decimals <= 18)%nat -> 0 <= a <= b -> 1 <= t <= 2 ^ 63 ->
  f64_leb (np_round (f64_div (f64_of_Z a) (f64_of_Z t)) decimals)
          (np_round (f64_div (f64_of_Z b) (f64_of_Z t)) decimals) = true.
Proof.
  intros Hd [Ha Hab] Ht.
  destruct (f64_of_Z_pos t Ht) as (q & Eq & Hq). rewrite Eq.
  assert (Na : f64_nn (f64_of_Z a)).
  { apply rn64_nn. change 0%Q with (inject_Z 0). rewrite <- Zle_Qle. exact Ha. }
  assert (Lab : f64_leb (f64_of_Z a) (f64_of_Z b) = true).
  { apply rn64_mono.
    - change 0%Q with (inject_Z 0). rewrite <- Zle_Qle. exact Ha.
    - rewrite <- Zle_Qle. exact Hab. }
  destruct (f64_div_mono _ _ q Hq Na Lab) as [D1 D2].
  apply np_round_mono; assumption.
Qed.

(** The operations agree with the IEEE 754 specification of the Standard
    Library on the quotients used in the examples. *)
Example f64_div_agrees_7_10 :
  sf_value (SpecFloat.SFdiv 53 1024 (sf_of_Z 7) (sf_of_Z 10))
  = f64_div (f64_of_Z 7) (f64_of_Z 10).
Proof. vm_compute. reflexivity. Qed.

Example f64_div_agrees_1_3 :
  sf_value (SpecFloat.SFdiv 53 1024 (sf_of_Z 1) (sf_of_Z 3))
  = f64_div (f64_of_Z 1) (f64_of_Z 3).
Proof. vm_compute. reflexivity. Qed.

Example f64_div_agrees_0_0 :
  sf_value (SpecFloat.SFdiv 53 1024 (sf_of_Z 0) (sf_of_Z 0))
  = f64_div (f64_of_Z 0) (f64_of_Z 0).
Proof. vm_compute. reflexivity. Qed.

Example f64_mul_agrees_scaled :
  sf_value (SpecFloat.SFmul 53 1024
              (SpecFloat.SFdiv 53 1024 (sf_of_Z 2) (sf_of_Z 3)) (sf_of_Z 1000))
  = f64_mul (f64_div (f64_of_Z 2) (f64_of_Z 3)) (power_of_ten 3).
Proof. vm_compute. reflexivity. Qed.

Example f64_agrees_up_to_40 : agrees_up_to 40 = true.
Proof. vm_compute. reflexivity. Qed.

Example f64_of_Z_agrees_rounding :
  sf_value (sf_of_Z (2 ^ 53 + 1)) = f64_of_Z (2 ^ 53 + 1) /\
  sf_value (sf_of_Z (2 ^ 53 + 3)) = f64_of_Z (2 ^ 53 + 3) /\
  sf_value (sf_of_Z (2 ^ 1024)) = f64_of_Z (2 ^ 1024) /\
  sf_value (sf_of_Z (2 ^ 1024 - 2 ^ 970)) = f64_of_Z (2 ^ 1024 - 2 ^ 970).
Proof. repeat split; vm_compute; reflexivity. Qed.

Example f64_div_agrees_subnormal :
  sf_value (SpecFloat.SFdiv 53 1024
              (SpecFloat.SFdiv 53 1024 (sf_of_Z 3) (sf_of_Z (2 ^ 1000)))
              (sf_of_Z (2 ^ 75)))
  = f64_div (f64_div (f64_of_Z 3) (f64_of_Z (2 ^ 1000))) (f64_of_Z (2 ^ 75)).
Proof. vm_compute. reflexivity. Qed.

Example np_round_two_thirds :
  np_round (f64_div (f64_of_Z 2) (f64_of_Z 3)) 3 = f64_literal (667 # 1000).
Proof. vm_compute. reflexivity. Qed.

(** ** Record validation *)

Section ValidationFacts.
Import Validation.

Lemma check_invalid (fname : string) (d : extracted)
    (a : gmap string (list string)) :
  invalid d -> exists e, check fname d a = inl e.
Proof.
  unfold check. intros [H | [H | [(t & n & Ht & Hn & He) | (t & Ht & Hc & Hf)]]].
  - rewrite H. destruct (title d) as [t|]; simpl; eauto.
  - rewrite H. simpl. rewrite orb_true_r. eauto.
  - rewrite Ht, Hn. simpl.
    destruct (String.eqb n "" || String.eqb t ""); simpl; eauto.
    rewrite He. simpl. eauto.
  - rewrite Ht, Hf. simpl.
    destruct (get_is_empty (bill_number d) || String.eqb t ""); simpl; eauto.
    destruct (bill_number d) as [n|]; simpl; eauto.
    destruct (endswith (split_head "_" t) n); simpl; eauto.
    rewrite Hc. eauto.
Qed.

(** The errors collected so far only ever grow at the end. *)
Lemma run_error_app (l : list (string * file)) (a : gmap string (list string))
    (e : list string) :
  fold_left step l (State a e)
  = State (alter2 (fold_left step l (State a [])))
          (e ++ error (fold_left step l (State a []))).
Proof.
  revert a e. induction l as [|[fname f] l IH]; intros a e; simpl.
  - rewrite app_nil_r. reflexivity.
  - destruct (endswith fname ".json"); [|apply IH].
    destruct (match f with
              | Broken msg => raise (LoadError msg)
              | Json data => check fname data a
              end) as [x|a']; simpl.
    + rewrite (IH a (e ++ [str x])), (IH a [str x]). simpl.
      rewrite <- app_assoc. reflexivity.
    + apply IH.
Qed.

Lemma validate_app (pre post : list (string * file)) :
  validate (pre ++ post)
  = State (alter2 (fold_left step post (State (alter2 (validate pre)) [])))
          (error (validate pre)
           ++ error (fold_left step post (State (alter2 (validate pre)) []))).
Proof.
  unfold validate. rewrite fold_left_app.
  destruct (fold_left step pre (State ∅ [])) as [a e]. simpl.
  apply run_error_app.
Qed.

(** C9. A record of the batch that is invalid (an empty bill_number or
    title, a title-derived number that does not end with the declared one,
    or the alternative marker in the title of a record not flagged as
    alternative) adds one message to the error list and nothing to
    [alter2]; what the records before and after it contribute, to the
    errors and to [alter2], is what they contribute without it. *)
Theorem invalid_record_reported_batch_continues
    (pre post : list (string * file)) (fname : string) (d : extracted) :
  endswith fname ".json" = true ->
  invalid d ->
  exists (msg : string) (errs_pre errs_post : list string),
    error (validate pre) = errs_pre /\
    error (validate (pre ++ post)) = errs_pre ++ errs_post /\
    error (validate (pre ++ (fname, Json d) :: post))
      = errs_pre ++ msg :: errs_post /\
    alter2 (validate (pre ++ (fname, Json d) :: post))
      = alter2 (validate (pre ++ post)).
Proof.
  intros Hjson Hinv.
  destruct (check_invalid fname d (alter2 (validate pre)) Hinv) as [e He].
  exists (str e), (error (validate pre)),
    (error (fold_left step post (State (alter2 (validate pre)) []))).
  rewrite !validate_app. simpl. rewrite Hjson, He.
  rewrite (run_error_app post (alter2 (validate pre)) [str e]). simpl. auto.
Qed.

Lemma invalid_record_reported_batch_continues_witness :
  exists (msg : string) (errs_pre errs_post : list string),
    error (validate [("1.json", Json (Extracted (Some "2100001_a") (Some "2100001")
                                        (Some false) None))])
      = errs_pre /\
    error (validate ([("1.json", Json (Extracted (Some "2100001_a") (Some "2100001")
                                         (Some false) None))]
                     ++ [("3.json", Json (Extracted (Some "2100003_c") (Some "2100003")
                                            (Some true) (Some ["2100001"])))]))
      = errs_pre ++ errs_post /\
    error (validate ([("1.json", Json (Extracted (Some "2100001_a") (Some "2100001")
                                         (Some false) None))]
                     ++ ("2.json", Json (Extracted (Some "2100002_b") (Some "")
                                           (Some false) None))
                     :: [("3.json", Json (Extracted (Some "2100003_c") (Some "2100003")
                                            (Some true) (Some ["2100001"])))]))
      = errs_pre ++ msg :: errs_post /\
    alter2 (validate ([("1.json", Json (Extracted (Some "2100001_a") (Some "2100001")
                                          (Some false) None))]
                      ++ ("2.json", Json (Extracted (Some "2100002_b") (Some "")
                                            (Some false) None))
                      :: [("3.json", Json (Extracted (Some "2100003_c") (Some "2100003")
                                             (Some true) (Some ["2100001"])))]))
      = alter2 (validate ([("1.json", Json (Extracted (Some "2100001_a") (Some "2100001")
                                              (Some false) None))]
                          ++ [("3.json", Json (Extracted (Some "2100003_c") (Some "2100003")
                                                 (Some true) (Some ["2100001"])))])).
Proof.
  apply invalid_record_reported_batch_continues.
  - reflexivity.
  - left. reflexivity.
Defined.

Lemma msg_alternative_not_missing (fname : string) :
  ValueError (msg_missing fname) <> ValueError (msg_alternative fname).
Proof. unfold msg_missing, msg_alternative. simpl. discriminate. Qed.

Lemma msg_alternative_not_mismatch (fname : string) :
  ValueError (msg_mismatch fname) <> ValueError (msg_alternative fname).
Proof. unfold msg_mismatch, msg_alternative. simpl. discriminate. Qed.

Lemma get_is_empty_false (v : option string) (s : string) :
  v = Some s -> s <> ""%string -> get_is_empty v = false.
Proof.
  intros -> Hs. simpl. apply String.eqb_neq. exact Hs.
Qed.

(** C10. The title is checked against the alternative flag in one direction
    only.  A record flagged as alternative is never reported for its title:
    when its required fields are filled, its numbers match and it lists its
    alternative bill numbers, it is accepted and recorded in [alter2]
    whether or not the title carries the marker.  The inconsistency message
    is raised exactly for a record that passes the earlier checks, has its
    flag false and the marker in its title. *)
Theorem alternative_checked_one_way (fname : string) (d : extracted)
    (a : gmap string (list string)) :
  (is_alternative d = Some true ->
     check fname d a <> inl (ValueError (msg_alternative fname)) /\
     forall t n nums,
       title d = Some t -> bill_number d = Some n ->
       alternative_bill_numbers d = Some nums ->
       t <> ""%string -> n <> ""%string ->
       endswith (split_head "_" t) n = true ->
       check fname d a = inr (<[split_head "_" t := nums]> a)) /\
  (check fname d a = inl (ValueError (msg_alternative fname)) <->
     exists t n,
       title d = Some t /\ bill_number d = Some n /\
       t <> ""%string /\ n <> ""%string /\
       endswith (split_head "_" t) n = true /\
       is_alternative d = Some false /\ contains alt_marker t = true).
Proof.
  pose proof (msg_alternative_not_missing fname) as N1.
  pose proof (msg_alternative_not_mismatch fname) as N2.
  split; [intros Hflag; split|split].
  - unfold check, raise, ret. rewrite Hflag.
    destruct (title d) as [t|]; simpl; [|discriminate].
    destruct (get_is_empty (bill_number d) || String.eqb t ""); simpl;
      [congruence|].
    destruct (bill_number d) as [n|]; simpl; [|discriminate].
    destruct (endswith (split_head "_" t) n); simpl; [|congruence].
    destruct (alternative_bill_numbers d); simpl; discriminate.
  - intros t n nums Ht Hn Hnums Ht0 Hn0 He. unfold check, raise, ret.
    rewrite (get_is_empty_false _ _ Hn Hn0), (get_is_empty_false _ _ Ht Ht0).
    rewrite Ht, Hn, Hflag, Hnums. simpl. rewrite He. reflexivity.
  - unfold check, raise, ret.
    destruct (title d) as [t|] eqn:Ht; simpl; [|discriminate].
    destruct (bill_number d) as [n|] eqn:Hn; simpl.
    + destruct (String.eqb n "") eqn:En; simpl; [congruence|].
      destruct (String.eqb t "") eqn:Et; simpl; [congruence|].
      destruct (endswith (split_head "_" t) n) eqn:He; simpl; [|congruence].
      destruct (is_alternative d) as [[|]|] eqn:Hf; simpl.
      * destruct (alternative_bill_numbers d); simpl; discriminate.
      * destruct (contains alt_marker t) eqn:Hc; [|discriminate].
        intros _. exists t, n.
        apply String.eqb_neq in En, Et. auto 10.
      * discriminate.
    + destruct (String.eqb t "") eqn:Et; simpl; [congruence|discriminate].
  - intros (t & n & Ht & Hn & Ht0 & Hn0 & He & Hf & Hc). unfold check, raise, ret.
    rewrite (get_is_empty_false _ _ Hn Hn0), (get_is_empty_false _ _ Ht Ht0).
    rewrite Ht, Hn, Hf. simpl. rewrite He, Hc. reflexivity.
Qed.

Lemma alternative_checked_one_way_witness :
  check "7.json"
        (Extracted (Some "2100007_plain title") (Some "2100007") (Some true)
                   (Some ["2100001"; "2100002"]))
        ∅
  = inr (<["2100007"%string := ["2100001"; "2100002"]%string]> ∅).
Proof.
  destruct (alternative_checked_one_way "7.json"
              (Extracted (Some "2100007_plain title") (Some "2100007")
                         (Some true) (Some ["2100001"; "2100002"])) ∅)
    as [H _].
  destruct (H eq_refl) as [_ Haccept].
  refine (Haccept "2100007_plain title"%string "2100007"%string
                  ["2100001"; "2100002"]%string eq_refl eq_refl eq_refl _ _ eq_refl);
    discriminate.
Defined.

(** The loop on a directory listing: a valid plain record, a record with an
    empty bill number, a file that does not load, a file that is not JSON
    by name, a record with a missing key, a title with the marker and no
    flag, and an alternative. *)
Example validate_sample :
  let st :=
    validate
      [("1.json", Json (Extracted (Some "2100001_a") (Some "2100001")
                          (Some false) None));
       ("2.json", Json (Extracted (Some "2100002_b") (Some "")
                          (Some false) None));
       ("3.json", Broken "Expecting value: line 1 column 1 (char 0)");
       ("notes.txt", Broken "never opened");
       ("5.json", Json (Extracted (Some "2100005_e") (Some "2100005") None None));
       ("6.json", Json (Extracted (Some "2100006_f(대안)") (Some "2100006")
                          (Some false) None));
       ("7.json", Json (Extracted (Some "2100007_g(대안)") (Some "2100007")
                          (Some true) (Some ["2100001"; "2100006"])))]%string in
  error st
  = ["Missing required fields in 2.json";
     "Expecting value: line 1 column 1 (char 0)";
     "'is_alternative'";
     "Title contains '대안' but is not marked as alternative in 6.json"]%string
  /\ alter2 st !! "2100007"%string = Some ["2100001"; "2100006"]%string
  /\ size (alter2 st) = 1%nat.
Proof. vm_compute. repeat split; reflexivity. Qed.

End ValidationFacts.

(** ** Stage durations *)

Section DurationFacts.
Import BillDetails.
Variable parse : string -> option Z.

Lemma ns_per_day_value : ns_per_day = 86400000000000.
Proof. reflexivity. Qed.

(** The loop over [date_cols] converts every date column. *)
Lemma date_cols_complete (c : date_col) : In c date_cols.
Proof. destruct c; simpl; tauto. Qed.

Lemma gap_value_add_durations (g : gap_col) (r : row (option Z)) :
  gap_value g (add_durations r) = gap r (later_of g) (earlier_of g).
Proof. destruct g; reflexivity. Qed.

Lemma gap_absent (r : row (option Z)) (later earlier : date_col) :
  dt r later = None \/ dt r earlier = None -> gap r later earlier = -1.
Proof.
  unfold gap, days. intros [H | H]; rewrite H; [|destruct (dt r later)];
    reflexivity.
Qed.

Lemma gap_present (r : row (option Z)) (later earlier : date_col) (t2 t1 : Z) :
  dt r later = Some t2 -> dt r earlier = Some t1 ->
  gap r later earlier = (t2 - t1) / ns_per_day.
Proof. unfold gap, days. intros -> ->. reflexivity. Qed.

Lemma in_durations (bill_details : list (row (option string)))
    (d : detail) :
  In d (durations parse bill_details) <->
  exists b, In b bill_details /\ PROC_RESULT b <> withdrawn /\
            d = add_durations (coerce parse b).
Proof.
  unfold durations. rewrite in_map_iff. split.
  - intros (r & <- & Hr). apply filter_In in Hr as [Hr Hw].
    apply in_map_iff in Hr as (b & <- & Hb). exists b.
    split; [exact Hb|]. split; [|reflexivity].
    unfold not_withdrawn in Hw. simpl in Hw.
    apply negb_true_iff, String.eqb_neq in Hw. exact Hw.
  - intros (b & Hb & Hw & ->). exists (coerce parse b). split; [reflexivity|].
    apply filter_In. split; [apply in_map; exact Hb|].
    unfold not_withdrawn. simpl. apply negb_true_iff, String.eqb_neq. exact Hw.
Qed.

(** C3 (amended). For a record that is not withdrawn, each of the seven
    duration columns is the integer -1 whenever a date at either end is
    null or is a string the parser rejects; otherwise it is the number of
    whole days between the two timestamps (the floor of their difference
    in days, the difference of the calendar dates when neither carries a
    time of day).  That number is itself -1 exactly when the later date
    precedes the earlier one by at most a day, and is not negative when the
    dates are in order. *)
Theorem gap_sentinel_or_whole_days
    (bill_details : list (row (option string))) (b : row (option string))
    (g : gap_col) :
  In b bill_details -> PROC_RESULT b <> withdrawn ->
  In (add_durations (coerce parse b)) (durations parse bill_details) /\
  (to_datetime parse (dt b (later_of g)) = None \/
   to_datetime parse (dt b (earlier_of g)) = None ->
   gap_value g (add_durations (coerce parse b)) = -1) /\
  (forall t2 t1 : Z,
     to_datetime parse (dt b (later_of g)) = Some t2 ->
     to_datetime parse (dt b (earlier_of g)) = Some t1 ->
     gap_value g (add_durations (coerce parse b)) = (t2 - t1) / ns_per_day /\
     (gap_value g (add_durations (coerce parse b)) = -1 <->
      t2 < t1 <= t2 + ns_per_day) /\
     (t1 <= t2 -> 0 <= gap_value g (add_durations (coerce parse b))) /\
     (forall k2 k1 : Z, t2 = k2 * ns_per_day -> t1 = k1 * ns_per_day ->
        gap_value g (add_durations (coerce parse b)) = k2 - k1)).
Proof.
  intros Hb Hw. rewrite gap_value_add_durations.
  split; [|split].
  - apply in_durations. exists b. auto.
  - intros H. apply gap_absent. exact H.
  - intros t2 t1 H2 H1.
    rewrite (gap_present (coerce parse b) _ _ t2 t1 H2 H1).
    rewrite ns_per_day_value.
    split; [reflexivity|]. split; [split|split].
    + intros E. Z.to_euclidean_division_equations. lia.
    + intros [A B]. Z.to_euclidean_division_equations. lia.
    + intros Hle. apply Z.div_pos; lia.
    + intros k2 k1 -> ->. Z.to_euclidean_division_equations. lia.
Qed.

End DurationFacts.

Lemma gap_sentinel_or_whole_days_witness :
  BillDetails.gap_value BillDetails.G_TOTAL_DT
    (BillDetails.add_durations
       (BillDetails.coerce IsoDate.iso_date Samples.fully_processed)) = 10.
Proof.
  destruct (gap_sentinel_or_whole_days IsoDate.iso_date Samples.synthetic
              Samples.fully_processed BillDetails.G_TOTAL_DT)
    as (_ & _ & H).
  - left. reflexivity.
  - discriminate.
  - destruct (H (19793 * BillDetails.ns_per_day) (19783 * BillDetails.ns_per_day))
      as (_ & _ & _ & Hk); [vm_compute; reflexivity ..|].
    exact (Hk 19793 19783 eq_refl eq_refl).
Defined.

(** C3, as stated, fails: the column CMT_MEET of [Samples.out_of_order] is
    -1 although both of its dates are present and parse. *)
Lemma gap_sentinel_with_both_dates_present :
  BillDetails.PROC_RESULT Samples.out_of_order <> BillDetails.withdrawn /\
  ~ (BillDetails.gap_value BillDetails.G_CMT_MEET
       (BillDetails.add_durations
          (BillDetails.coerce IsoDate.iso_date Samples.out_of_order)) = -1
     <->
     (BillDetails.to_datetime IsoDate.iso_date
        (BillDetails.dt Samples.out_of_order
           (BillDetails.later_of BillDetails.G_CMT_MEET)) = None \/
      BillDetails.to_datetime IsoDate.iso_date
        (BillDetails.dt Samples.out_of_order
           (BillDetails.earlier_of BillDetails.G_CMT_MEET)) = None)).
Proof.
  split; [discriminate|].
  intros [H _].
  assert (E : BillDetails.gap_value BillDetails.G_CMT_MEET
                (BillDetails.add_durations
                   (BillDetails.coerce IsoDate.iso_date Samples.out_of_order))
              = -1) by (vm_compute; reflexivity).
  destruct (H E) as [C | C]; vm_compute in C; discriminate C.
Qed.

Section SpanFacts.
Import BillDetails.

Lemma seven_dates (r : row (option Z)) :
  all_present r -> chronological r ->
  exists t0 t1 t2 t3 t4 t5 t6,
    dt r COMMITTEE_DT = Some t0 /\ dt r CMT_PRESENT_DT = Some t1 /\
    dt r CMT_PROC_DT = Some t2 /\ dt r LAW_SUBMIT_DT = Some t3 /\
    dt r LAW_PRESENT_DT = Some t4 /\ dt r LAW_PROC_DT = Some t5 /\
    dt r PROC_DT = Some t6 /\
    t0 <= t1 /\ t1 <= t2 /\ t2 <= t3 /\ t3 <= t4 /\ t4 <= t5 /\ t5 <= t6.
Proof.
  intros Hall Hch.
  destruct (dt r COMMITTEE_DT) as [t0|] eqn:E0; [|destruct (Hall _ E0)].
  destruct (dt r CMT_PRESENT_DT) as [t1|] eqn:E1; [|destruct (Hall _ E1)].
  destruct (dt r CMT_PROC_DT) as [t2|] eqn:E2; [|destruct (Hall _ E2)].
  destruct (dt r LAW_SUBMIT_DT) as [t3|] eqn:E3; [|destruct (Hall _ E3)].
  destruct (dt r LAW_PRESENT_DT) as [t4|] eqn:E4; [|destruct (Hall _ E4)].
  destruct (dt r LAW_PROC_DT) as [t5|] eqn:E5; [|destruct (Hall _ E5)].
  destruct (dt r PROC_DT) as [t6|] eqn:E6; [|destruct (Hall _ E6)].
  exists t0, t1, t2, t3, t4, t5, t6.
  repeat (split; [reflexivity|]).
  repeat split.
  - apply (Hch COMMITTEE_DT CMT_PRESENT_DT); simpl; auto.
  - apply (Hch CMT_PRESENT_DT CMT_PROC_DT); simpl; auto.
  - apply (Hch CMT_PROC_DT LAW_SUBMIT_DT); simpl; auto.
  - apply (Hch LAW_SUBMIT_DT LAW_PRESENT_DT); simpl; auto.
  - apply (Hch LAW_PRESENT_DT LAW_PROC_DT); simpl; auto.
  - apply (Hch LAW_PROC_DT PROC_DT); simpl; auto.
Qed.

Lemma span_dominates (r : row (option Z)) (g : gap_col) :
  all_present r -> chronological r ->
  gap_value g (add_durations r) <= TOTAL_DT (add_durations r).
Proof.
  intros Hall Hch.
  destruct (seven_dates r Hall Hch)
    as (t0 & t1 & t2 & t3 & t4 & t5 & t6 & E0 & E1 & E2 & E3 & E4 & E5 & E6
        & L1 & L2 & L3 & L4 & L5 & L6).
  destruct g; simpl; unfold gap, days;
    rewrite ?E0, ?E1, ?E2, ?E3, ?E4, ?E5, ?E6; simpl;
    apply Z.div_le_mono; rewrite ?ns_per_day_value; lia.
Qed.

(** C6. In the frame with the duration columns, which holds the bills that
    are not withdrawn, every row whose seven dates are all present and do
    not decrease along the lifecycle has a TOTAL_DT at least as large as
    each of its duration columns, the six gaps between consecutive
    milestones among them. *)
Theorem total_span_dominates (parse : string -> option Z)
    (bill_details : list (row (option string))) (d : detail) (g : gap_col) :
  In d (durations parse bill_details) ->
  all_present (src d) -> chronological (src d) ->
  gap_value g d <= TOTAL_DT d.
Proof.
  intros Hd Hall Hch.
  apply in_durations in Hd as (b & _ & _ & ->).
  apply span_dominates; assumption.
Qed.

End SpanFacts.

Lemma total_span_dominates_witness :
  BillDetails.gap_value BillDetails.G_CMT_PROC
    (BillDetails.add_durations
       (BillDetails.coerce IsoDate.iso_date Samples.fully_processed))
  <= BillDetails.TOTAL_DT
       (BillDetails.add_durations
          (BillDetails.coerce IsoDate.iso_date Samples.fully_processed)).
Proof.
  apply (total_span_dominates IsoDate.iso_date Samples.synthetic).
  - left. reflexivity.
  - intros c. destruct c; vm_compute; discriminate.
  - intros c c' a b Hpos Ha Hb.
    destruct c, c'; simpl in Hpos; try lia;
      vm_compute in Ha; vm_compute in Hb;
      injection Ha as <-; injection Hb as <-; lia.
Defined.

(** ** Stage conversion *)

Section ConversionFacts.
Import BillDetails.
Variable parse : string -> option Z.

Lemma filter_length_le {A : Type} (p : A -> bool) (l : list A) :
  (length (List.filter p l) <= length l)%nat.
Proof.
  induction l as [|x l IH]; simpl; [lia|]. destruct (p x); simpl; lia.
Qed.

Lemma filter_length_mono {A : Type} (p q : A -> bool) (l : list A) :
  (forall x, In x l -> p x = true -> q x = true) ->
  (length (List.filter p l) <= length (List.filter q l))%nat.
Proof.
  induction l as [|x l IH]; intros H; simpl; [lia|].
  assert (IH' : (length (List.filter p l) <= length (List.filter q l))%nat).
  { apply IH. intros y Hy. apply H. right. exact Hy. }
  destruct (p x) eqn:Ep.
  - rewrite (H x (or_introl eq_refl) Ep). simpl. lia.
  - destruct (q x); simpl; lia.
Qed.

Lemma reached_bounds (col : detail -> Z) (df : list detail) :
  0 <= reached col df <= Z.of_nat (length df).
Proof.
  unfold reached. pose proof (filter_length_le (fun r => negb (col r =? -1)) df).
  lia.
Qed.

Lemma reached_mono (col col' : detail -> Z) (df : list detail) :
  (forall d, In d df -> col d <> -1 -> col' d <> -1) ->
  reached col df <= reached col' df.
Proof.
  intros H. unfold reached. apply Nat2Z.inj_le, filter_length_mono.
  intros d Hd Hc. apply negb_true_iff, Z.eqb_neq in Hc.
  apply negb_true_iff, Z.eqb_neq. apply H; assumption.
Qed.

Lemma durations_filter (bill_details : list (row (option string))) :
  durations parse bill_details
  = map (fun b => add_durations (coerce parse b))
        (List.filter not_withdrawn bill_details).
Proof.
  unfold durations.
  induction bill_details as [|b l IH]; simpl; [reflexivity|].
  change (not_withdrawn (coerce parse b)) with (not_withdrawn b).
  destruct (not_withdrawn b); simpl.
  - f_equal. exact IH.
  - exact IH.
Qed.

(** C1 (amended). When no record of the input is left once the withdrawn
    ones are removed, the cell raises nothing: the five counts and the total
    are 0, each quotient is numpy's 0/0, and every one of the five printed
    rates is NaN. *)
Theorem empty_population_rates_are_nan
    (bill_details : list (row (option string))) :
  List.filter not_withdrawn bill_details = [] ->
  stage_conversion parse bill_details = Conversion NaN NaN NaN NaN NaN.
Proof.
  intros H. unfold stage_conversion. rewrite durations_filter, H.
  vm_compute. reflexivity.
Qed.

End ConversionFacts.

Lemma empty_population_rates_are_nan_witness :
  BillDetails.stage_conversion IsoDate.iso_date
    [Samples.withdrawn_bill; Samples.withdrawn_bill]
  = BillDetails.Conversion NaN NaN NaN NaN NaN.
Proof.
  apply empty_population_rates_are_nan. reflexivity.
Defined.

(** C1, as stated, fails: on a frame whose only record is withdrawn the
    cell returns, and the rate it prints first is NaN. *)
Lemma empty_population_prints_nan :
  List.filter BillDetails.not_withdrawn [Samples.withdrawn_bill] = [] /\
  f64_isnan
    (BillDetails.cmt_meet_rate
       (BillDetails.stage_conversion IsoDate.iso_date [Samples.withdrawn_bill]))
  = true.
Proof. split; vm_compute; reflexivity. Qed.

Section RateFacts.
Import BillDetails.
Variable parse : string -> option Z.

Lemma gap_reached (r : row (option Z)) (later earlier : date_col) :
  chronological r -> (position earlier <= position later)%nat ->
  dt r later <> None -> dt r earlier <> None ->
  0 <= gap r later earlier.
Proof.
  intros Hch Hpos Hl He. unfold gap, days.
  destruct (dt r later) as [t2|] eqn:E2; [|contradiction].
  destruct (dt r earlier) as [t1|] eqn:E1; [|contradiction].
  simpl. apply Z.div_pos; [|rewrite ns_per_day_value; lia].
  pose proof (Hch earlier later t1 t2 Hpos E1 E2). lia.
Qed.

Lemma gap_not_sentinel (r : row (option Z)) (later earlier : date_col) :
  gap r later earlier <> -1 -> dt r later <> None /\ dt r earlier <> None.
Proof.
  intros H. split; intros C; apply H, gap_absent; auto.
Qed.

(** Under the two assumptions on the dates, a bill that reached a stage
    reached the stage before it. *)
Lemma reached_stage_before (r : row (option Z)) :
  prefix_closed r -> chronological r ->
  (CMT_PROC (add_durations r) <> -1 -> CMT_MEET (add_durations r) <> -1) /\
  (LAW_MEET (add_durations r) <> -1 -> CMT_PROC (add_durations r) <> -1) /\
  (LAW_PROC (add_durations r) <> -1 -> LAW_MEET (add_durations r) <> -1) /\
  (PROC (add_durations r) <> -1 -> LAW_PROC (add_durations r) <> -1).
Proof.
  intros Hpre Hch. simpl.
  assert (step : forall l e l' e',
            (position e' <= position l')%nat ->
            (position l' <= position l)%nat ->
            gap r l e <> -1 -> gap r l' e' <> -1).
  { intros l e l' e' P1 P2 H. apply gap_not_sentinel in H as [Hl _].
    assert (Hl' : dt r l' <> None) by (apply (Hpre l' l P2 Hl)).
    assert (He' : dt r e' <> None) by (apply (Hpre e' l); [lia | exact Hl]).
    pose proof (gap_reached r l' e' Hch P1 Hl' He'). lia. }
  repeat split; apply step; simpl; lia.
Qed.

Lemma rate_le (col col' : detail -> Z) (df : list detail) :
  0 < Z.of_nat (length df) < 2 ^ 63 ->
  (forall d, In d df -> col d <> -1 -> col' d <> -1) ->
  f64_leb
    (np_round (f64_div (f64_of_Z (reached col df))
                       (f64_of_Z (Z.of_nat (length df)))) 3)
    (np_round (f64_div (f64_of_Z (reached col' df))
                       (f64_of_Z (Z.of_nat (length df)))) 3)
  = true.
Proof.
  intros Hlen H. apply ratio_mono; [lia | | lia].
  split; [apply reached_bounds | apply reached_mono; exact H].
Qed.

(** C4 (amended). Take a population with at least one record left once the
    withdrawn ones are removed (and fewer than 2^63), in which a date is
    present only if the dates before it are, and in which the dates present
    do not decrease along the lifecycle.  Then the five rates, each the
    count of the rows whose column is not -1 over the same total, rounded to
    three decimals, do not increase in the order printed. *)
Theorem conversion_rates_non_increasing
    (bill_details : list (row (option string))) :
  0 < Z.of_nat (length (List.filter not_withdrawn bill_details)) < 2 ^ 63 ->
  (forall b, In b bill_details -> PROC_RESULT b <> withdrawn ->
     prefix_closed (coerce parse b) /\ chronological (coerce parse b)) ->
  f64_leb (cmt_proc_rate (stage_conversion parse bill_details))
          (cmt_meet_rate (stage_conversion parse bill_details)) = true /\
  f64_leb (law_meet_rate (stage_conversion parse bill_details))
          (cmt_proc_rate (stage_conversion parse bill_details)) = true /\
  f64_leb (law_proc_rate (stage_conversion parse bill_details))
          (law_meet_rate (stage_conversion parse bill_details)) = true /\
  f64_leb (proc_rate (stage_conversion parse bill_details))
          (law_proc_rate (stage_conversion parse bill_details)) = true.
Proof.
  intros Hlen Hrows. unfold stage_conversion. simpl.
  assert (Hlen' : 0 < Z.of_nat (length (durations parse bill_details)) < 2 ^ 63).
  { rewrite durations_filter, length_map. exact Hlen. }
  assert (Hd : forall d, In d (durations parse bill_details) ->
                 exists r, d = add_durations r /\ prefix_closed r /\ chronological r).
  { intros d Hin. apply in_durations in Hin as (b & Hb & Hw & ->).
    exists (coerce parse b). split; [reflexivity|]. apply Hrows; assumption. }
  repeat split; apply rate_le; try exact Hlen';
    intros d Hin; destruct (Hd d Hin) as (r & -> & Hp & Hc);
    apply (reached_stage_before r Hp Hc).
Qed.

(** C2 (amended). Three records: one with its seven dates present, in
    lifecycle order and ten days from first to last, one with only
    COMMITTEE_DT, one withdrawn.  Over the two that are kept, the rate
    printed as committee-referral conversion is 0.5: it counts the rows
    whose CMT_MEET is not -1, and the stalled bill has no CMT_PRESENT_DT.
    The rate printed as final-disposition conversion is 0.5 too. *)
Theorem synthetic_three_bills (b1 b2 b3 : row (option string)) :
  PROC_RESULT b1 <> withdrawn ->
  all_present (coerce parse b1) -> chronological (coerce parse b1) ->
  TOTAL_DT (add_durations (coerce parse b1)) = 10 ->
  PROC_RESULT b2 <> withdrawn -> only_referred (coerce parse b2) ->
  PROC_RESULT b3 = withdrawn ->
  cmt_meet_rate (stage_conversion parse [b1; b2; b3]) = Fin (1 # 2) /\
  proc_rate (stage_conversion parse [b1; b2; b3]) = Fin (1 # 2).
Proof.
  intros W1 Hall Hch _ W2 Honly W3.
  assert (D : durations parse [b1; b2; b3]
              = [add_durations (coerce parse b1); add_durations (coerce parse b2)]).
  { rewrite durations_filter. unfold not_withdrawn. simpl.
    apply String.eqb_neq in W1, W2. apply String.eqb_eq in W3.
    rewrite W1, W2, W3. reflexivity. }
  assert (A1 : forall l e, (position e <= position l)%nat ->
                 (gap (coerce parse b1) l e =? -1) = false).
  { intros l e P. apply Z.eqb_neq.
    pose proof (gap_reached (coerce parse b1) l e Hch P (Hall l) (Hall e)). lia. }
  assert (A2 : forall l e, l <> COMMITTEE_DT ->
                 (gap (coerce parse b2) l e =? -1) = true).
  { intros l e Hl. apply Z.eqb_eq, gap_absent. left.
    destruct (dt (coerce parse b2) l) eqn:E; [|reflexivity].
    exfalso. apply Hl. apply Honly. rewrite E. discriminate. }
  unfold stage_conversion. rewrite D. unfold reached. simpl.
  rewrite !A1 by (simpl; lia). rewrite !A2 by discriminate.
  split; vm_compute; reflexivity.
Qed.

End RateFacts.

(** The assumptions on dates, decided on sample rows by evaluation. *)
Ltac dates_by_evaluation :=
  match goal with
  | |- BillDetails.all_present _ =>
      intros c; destruct c; vm_compute; discriminate
  | |- BillDetails.prefix_closed _ =>
      let c := fresh "c" in let c' := fresh "c" in
      let P := fresh "P" in let H := fresh "H" in
      intros c c' P H; destruct c, c'; simpl in P; try lia;
      vm_compute in H; vm_compute; congruence
  | |- BillDetails.chronological _ =>
      let c := fresh "c" in let c' := fresh "c" in
      let a := fresh "a" in let b := fresh "b" in
      let P := fresh "P" in let Ha := fresh "H" in let Hb := fresh "H" in
      intros c c' a b P Ha Hb; destruct c, c'; simpl in P; try lia;
      vm_compute in Ha; vm_compute in Hb; try discriminate;
      injection Ha as <-; injection Hb as <-; lia
  | |- BillDetails.only_referred _ =>
      let c := fresh "c" in
      intros c; destruct c; vm_compute; split; congruence
  end.

Lemma synthetic_three_bills_witness :
  BillDetails.cmt_meet_rate
    (BillDetails.stage_conversion IsoDate.iso_date
       [Samples.fully_processed; Samples.stalled; Samples.withdrawn_bill])
  = Fin (1 # 2) /\
  BillDetails.proc_rate
    (BillDetails.stage_conversion IsoDate.iso_date
       [Samples.fully_processed; Samples.stalled; Samples.withdrawn_bill])
  = Fin (1 # 2).
Proof.
  apply synthetic_three_bills.
  - discriminate.
  - dates_by_evaluation.
  - dates_by_evaluation.
  - vm_compute. reflexivity.
  - discriminate.
  - dates_by_evaluation.
  - reflexivity.
Defined.

(** C2, as stated, fails: on the three sample records the rate printed as
    committee-referral conversion is 0.5, not 1.0. *)
Lemma synthetic_referral_rate_is_not_one :
  BillDetails.cmt_meet_rate
    (BillDetails.stage_conversion IsoDate.iso_date Samples.synthetic)
  = f64_literal (1 # 2) /\
  BillDetails.cmt_meet_rate
    (BillDetails.stage_conversion IsoDate.iso_date Samples.synthetic)
  <> f64_literal 1.
Proof.
  split; [vm_compute; reflexivity|].
  intros H. vm_compute in H. discriminate H.
Qed.

Lemma conversion_rates_non_increasing_witness :
  f64_leb
    (BillDetails.cmt_proc_rate
       (BillDetails.stage_conversion IsoDate.iso_date Samples.synthetic))
    (BillDetails.cmt_meet_rate
       (BillDetails.stage_conversion IsoDate.iso_date Samples.synthetic))
  = true.
Proof.
  apply (conversion_rates_non_increasing IsoDate.iso_date Samples.synthetic).
  - vm_compute. split; reflexivity.
  - intros b [<- | [<- | [<- | []]]] Hw.
    + split; dates_by_evaluation.
    + split; dates_by_evaluation.
    + exfalso. apply Hw. reflexivity.
Defined.

(** C4, as stated, fails: [Samples.disposed_early] has all of its dates, so
    a date is present only if the earlier ones are, yet CMT_PROC is -1 for
    it (its committee disposition is dated a day before its presentation)
    and the third printed rate, 1.0, exceeds the second, 0.0.  On the empty
    population the rates are NaN, and NaN is not at most NaN. *)
Lemma conversion_rates_increase_when_out_of_order :
  (BillDetails.prefix_closed
     (BillDetails.coerce IsoDate.iso_date Samples.disposed_early) /\
   BillDetails.cmt_proc_rate
     (BillDetails.stage_conversion IsoDate.iso_date [Samples.disposed_early])
   = Fin 0 /\
   BillDetails.law_meet_rate
     (BillDetails.stage_conversion IsoDate.iso_date [Samples.disposed_early])
   = Fin 1 /\
   f64_leb
     (BillDetails.law_meet_rate
        (BillDetails.stage_conversion IsoDate.iso_date [Samples.disposed_early]))
     (BillDetails.cmt_proc_rate
        (BillDetails.stage_conversion IsoDate.iso_date [Samples.disposed_early]))
   = false) /\
  f64_leb
    (BillDetails.cmt_proc_rate (BillDetails.stage_conversion IsoDate.iso_date []))
    (BillDetails.cmt_meet_rate (BillDetails.stage_conversion IsoDate.iso_date []))
  = false.
Proof.
  split; [split; [dates_by_evaluation|]|];
    repeat split; vm_compute; reflexivity.
Qed.

(** ** Grouping *)

Lemma isin_In (x : string) (values : list string) :
  isin x values = true <-> In x values.
Proof.
  unfold isin. rewrite existsb_exists. split.
  - intros (y & Hy & E). apply String.eqb_eq in E. subst. exact Hy.
  - intros H. exists x. split; [exact H | apply String.eqb_refl].
Qed.

Lemma in_keys_of (col : list (option string)) (k : string) :
  In k (keys_of col) <-> In (Some k) col.
Proof.
  induction col as [|[s|] col IH]; simpl.
  - tauto.
  - destruct (isin s (keys_of col)) eqn:E.
    + apply isin_In in E. rewrite IH. split; [tauto|].
      intros [H | H]; [|exact H]. injection H as ->. apply IH. exact E.
    + simpl. rewrite IH. split; intros [H | H]; auto; left; congruence.
  - rewrite IH. split; [tauto|]. intros [H | H]; [discriminate | exact H].
Qed.

Lemma in_groupby {A : Type} (key : A -> option string) (df : list A)
    (k : string) (g : list A) :
  In (k, g) (groupby key df) <->
  In (Some k) (map key df) /\ g = List.filter (fun r => opt_eqb (key r) k) df.
Proof.
  unfold groupby. rewrite in_map_iff. split.
  - intros (k' & E & Hk). injection E as -> <-.
    split; [apply in_keys_of; exact Hk | reflexivity].
  - intros [Hk ->]. exists k. split; [reflexivity | apply in_keys_of; exact Hk].
Qed.

Lemma opt_eqb_Some (o : option string) (k : string) :
  opt_eqb o k = true <-> o = Some k.
Proof.
  destruct o as [s|]; simpl.
  - rewrite String.eqb_eq. split; congruence.
  - split; discriminate.
Qed.

(** ** Committee statistics *)

Section CommitteeFacts.
Import CommitteeStats.

Lemma accepted_is_resolved (s : string) :
  isin s Bills.accepted = true -> isin s Bills.resolved = true.
Proof.
  unfold isin, Bills.accepted, Bills.resolved. simpl.
  destruct (String.eqb s "원안가결"); [reflexivity|].
  destruct (String.eqb s "수정가결"); [reflexivity|]. discriminate.
Qed.

Lemma pass_count_le_new_bill_count (group : list Bills.bill) :
  0 <= Bills.count_status Bills.accepted group
    <= Bills.count_status Bills.resolved group.
Proof.
  unfold Bills.count_status. split; [lia|].
  apply Nat2Z.inj_le, filter_length_mono.
  intros b _. apply accepted_is_resolved.
Qed.

(** A group holds at least one bill. *)
Lemma group_stats_bill_count_pos (key : Bills.bill -> option string)
    (bills : list Bills.bill) (row : stat) :
  In row (group_stats key bills) -> 0 < BILL_COUNT row.
Proof.
  unfold group_stats. intros Hrow.
  apply in_map_iff in Hrow as ([k g] & <- & Hg).
  cbn [BILL_COUNT fst snd]. apply in_groupby in Hg as [Hk ->].
  apply in_map_iff in Hk as (b & Hb & Hin).
  assert (Hg : In b (List.filter (fun r => opt_eqb (key r) k) bills)).
  { apply filter_In. split; [exact Hin|]. apply opt_eqb_Some. exact Hb. }
  rewrite length_map.
  destruct (List.filter _ bills); [destruct Hg | simpl; lia].
Qed.

(** C5. In every group of the grouped bills that counts at least one bill,
    PASS_RATE = round(PASS_COUNT / BILL_COUNT, 2) is at most PROCESSED_RATE
    = round(NEW_BILL_COUNT / BILL_COUNT, 2): the accepted statuses are among
    the resolved ones, so PASS_COUNT <= NEW_BILL_COUNT, and the division and
    the rounding keep the order.  It holds for the grouping by committee of
    the cell and for the same aggregation over any other grouping column;
    the frame is taken to have fewer than 2^63 rows. *)
Theorem pass_rate_le_processed_rate (key : Bills.bill -> option string)
    (bills : list Bills.bill) (row : stat) :
  Z.of_nat (length bills) < 2 ^ 63 ->
  In row (group_stats key bills) ->
  0 < BILL_COUNT row ->
  f64_leb (PASS_RATE row) (PROCESSED_RATE row) = true.
Proof.
  intros Hlen Hrow Hcount. unfold group_stats in Hrow.
  apply in_map_iff in Hrow as ([k g] & <- & Hg).
  cbn [PASS_RATE PROCESSED_RATE BILL_COUNT fst snd] in *.
  apply in_groupby in Hg as [_ ->].
  rewrite length_map in *.
  pose proof (filter_length_le (fun r => opt_eqb (key r) k) bills) as Hle.
  apply ratio_mono; [lia | apply pass_count_le_new_bill_count | lia].
Qed.

End CommitteeFacts.

Example committe_stats_sample :
  CommitteeStats.committe_stats
    [Bills.Bill "2200010" "a" (Some "법제사법위원회") "원안가결";
     Bills.Bill "2200011" "b" (Some "법제사법위원회") "대안반영폐기";
     Bills.Bill "2200012" "c" (Some "법제사법위원회") "임기만료폐기";
     Bills.Bill "2200013" "d" None "수정가결"]%string
  = [CommitteeStats.Stat "법제사법위원회" 3 1 2
       (f64_literal (33 # 100)) (f64_literal (67 # 100))].
Proof. vm_compute. reflexivity. Qed.

Lemma pass_rate_le_processed_rate_witness :
  f64_leb (np_round (f64_div (f64_of_Z 1) (f64_of_Z 3)) 2)
          (np_round (f64_div (f64_of_Z 2) (f64_of_Z 3)) 2) = true.
Proof.
  apply (pass_rate_le_processed_rate Bills.COMMITTEE_NAME
           [Bills.Bill "2200010" "a" (Some "법제사법위원회") "원안가결";
            Bills.Bill "2200011" "b" (Some "법제사법위원회") "대안반영폐기";
            Bills.Bill "2200012" "c" (Some "법제사법위원회") "임기만료폐기";
            Bills.Bill "2200013" "d" None "수정가결"]%string
           (CommitteeStats.Stat "법제사법위원회" 3 1 2
              (np_round (f64_div (f64_of_Z 1) (f64_of_Z 3)) 2)
              (np_round (f64_div (f64_of_Z 2) (f64_of_Z 3)) 2))).
  - vm_compute. reflexivity.
  - left. reflexivity.
  - reflexivity.
Defined.

(** ** Co-sponsorship *)

Section CoSponsorFacts.
Import CoSponsor.

Lemma in_merge_members (proposers : list Proposers.proposer)
    (members : list Members.member) (j : joined) :
  In j (merge_members proposers members) <->
  exists p m, In p proposers /\ In m members /\
    Proposers.PROPOSER_ID p = Members.MONA_CD m /\
    j = Joined (Proposers.BILL_ID p) (Proposers.PROPOSER_ID p)
               (Proposers.PROPOSER_TYPE p) (Members.POLY_NM m).
Proof.
  unfold merge_members. rewrite in_flat_map. split.
  - intros (p & Hp & Hj). apply in_map_iff in Hj as (m & <- & Hm).
    apply filter_In in Hm as [Hm E]. apply String.eqb_eq in E.
    exists p, m. auto.
  - intros (p & m & Hp & Hm & E & ->). exists p. split; [exact Hp|].
    apply in_map_iff. exists m. split; [reflexivity|].
    apply filter_In. split; [exact Hm | apply String.eqb_eq; exact E].
Qed.

Lemma dom_value_counts (xs : list string) :
  dom (value_counts xs) = (list_to_set xs : gset string).
Proof.
  induction xs as [|x xs IH]; simpl.
  - apply dom_empty_L.
  - rewrite dom_insert_L, IH. reflexivity.
Qed.

Lemma two_elements (X : gset string) :
  (1 < size X)%nat <-> exists x y, x <> y /\ x ∈ X /\ y ∈ X.
Proof.
  split.
  - intros H.
    destruct (size_pos_elem_of X) as [x Hx]; [lia|].
    assert (Hsing : ({[x]} : gset string) ⊆ X).
    { intros z Hz. apply elem_of_singleton in Hz. subst z. exact Hx. }
    destruct (size_pos_elem_of (X ∖ {[x]})) as [y Hy].
    { rewrite (size_difference X {[x]} Hsing), size_singleton. lia. }
    apply elem_of_difference in Hy as [Hy Hne].
    rewrite elem_of_singleton in Hne.
    exists x, y. split; [congruence | split; assumption].
  - intros (x & y & Hxy & Hx & Hy).
    assert (Hsub : ({[x]} ∪ {[y]} : gset string) ⊆ X).
    { intros z Hz. apply elem_of_union in Hz as [Hz | Hz];
        apply elem_of_singleton in Hz; subst z; assumption. }
    apply subseteq_size in Hsub.
    rewrite size_union in Hsub.
    + rewrite !size_singleton in Hsub. lia.
    + intros z Hz1 Hz2. apply elem_of_singleton in Hz1, Hz2. congruence.
Qed.

Lemma value_counts_size (xs : list string) :
  (1 <? size (value_counts xs))%nat = true <->
  exists x y, x <> y /\ In x xs /\ In y xs.
Proof.
  rewrite Nat.ltb_lt, <- size_dom, dom_value_counts, two_elements.
  split; intros (x & y & Hxy & Hx & Hy); exists x, y;
    (split; [exact Hxy|]);
    rewrite ?elem_of_list_to_set, ?list_elem_of_In in *; auto.
Qed.

Lemma in_bp_ids (proposers : list Proposers.proposer)
    (members : list Members.member) (bill_id : string) :
  In bill_id (map bp_BILL_ID (bp proposers members)) <->
  cross_party proposers members bill_id.
Proof.
  unfold bp, cross_party, party_label.
  rewrite in_map_iff. split.
  - intros (r & <- & Hr). apply filter_In in Hr as [Hr Hsize].
    apply in_map_iff in Hr as ([k g] & <- & Hg). simpl in *.
    apply in_groupby in Hg as [_ ->].
    apply value_counts_size in Hsize as (l1 & l2 & Hne & H1 & H2).
    exists l1, l2. split; [exact Hne|].
    split.
    + apply in_map_iff in H1 as (j & <- & Hj). apply filter_In in Hj as [Hj E].
      apply opt_eqb_Some in E. injection E as E.
      apply in_merge_members in Hj as (p & m & Hp & Hm & Hid & ->).
      exists p, m. simpl in *. auto.
    + apply in_map_iff in H2 as (j & <- & Hj). apply filter_In in Hj as [Hj E].
      apply opt_eqb_Some in E. injection E as E.
      apply in_merge_members in Hj as (p & m & Hp & Hm & Hid & ->).
      exists p, m. simpl in *. auto.
  - intros (l1 & l2 & Hne & (p1 & m1 & Hp1 & Hm1 & Hb1 & Hid1 & Hl1)
                          & (p2 & m2 & Hp2 & Hm2 & Hb2 & Hid2 & Hl2)).
    set (merged := merge_members proposers members).
    set (j1 := Joined (Proposers.BILL_ID p1) (Proposers.PROPOSER_ID p1)
                      (Proposers.PROPOSER_TYPE p1) (Members.POLY_NM m1)).
    set (j2 := Joined (Proposers.BILL_ID p2) (Proposers.PROPOSER_ID p2)
                      (Proposers.PROPOSER_TYPE p2) (Members.POLY_NM m2)).
    assert (J1 : In j1 merged) by (apply in_merge_members; exists p1, m1; auto).
    assert (J2 : In j2 merged) by (apply in_merge_members; exists p2, m2; auto).
    set (g := List.filter (fun r => opt_eqb (Some (BILL_ID r)) bill_id) merged).
    assert (G1 : In j1 g).
    { apply filter_In. split; [exact J1|]. apply opt_eqb_Some. simpl. congruence. }
    assert (G2 : In j2 g).
    { apply filter_In. split; [exact J2|]. apply opt_eqb_Some. simpl. congruence. }
    exists (aggregate (bill_id, g)). split; [reflexivity|].
    apply filter_In. split.
    + apply in_map. apply in_groupby. split; [|reflexivity].
      apply in_map_iff. exists j1. split; [simpl; congruence | exact J1].
    + simpl. apply value_counts_size. exists l1, l2. split; [exact Hne|].
      split; apply in_map_iff; [exists j1 | exists j2]; auto.
Qed.

(** C7. A bill identifier is in [bp] exactly when, among the pairs of a
    proposer row of that bill and a member row with the same identifier,
    more than one party label occurs; and [ana] is the frame of bills,
    filtered in place by exactly that classification of BILL_ID. *)
Theorem cross_party_bills_selected (bills : list Bills.bill)
    (proposers : list Proposers.proposer) (members : list Members.member) :
  exists classify : string -> bool,
    (forall bill_id,
       classify bill_id = true <-> cross_party proposers members bill_id) /\
    (forall bill_id,
       classify bill_id = true <->
       In bill_id (map bp_BILL_ID (bp proposers members))) /\
    ana bills proposers members
    = List.filter (fun b => classify (Bills.BILL_ID b)) bills.
Proof.
  exists (fun bill_id => isin bill_id (map bp_BILL_ID (bp proposers members))).
  split; [|split].
  - intros bill_id. rewrite isin_In. apply in_bp_ids.
  - intros bill_id. apply isin_In.
  - reflexivity.
Qed.

End CoSponsorFacts.

Example ana_sample :
  CoSponsor.ana
    [Bills.Bill "B1" "x" (Some "정무위원회") "원안가결";
     Bills.Bill "B2" "y" None "철회";
     Bills.Bill "B3" "z" (Some "정무위원회") "수정가결"]%string
    [Proposers.Proposer "B1" "M1" "의원대표";
     Proposers.Proposer "B1" "M2" "의원공동";
     Proposers.Proposer "B2" "M1" "의원대표";
     Proposers.Proposer "B2" "M3" "의원공동";
     Proposers.Proposer "B3" "M2" "의원대표";
     Proposers.Proposer "B3" "M9" "의원공동"]%string
    [Members.Member "M1" "더불어민주당";
     Members.Member "M2" "국민의힘";
     Members.Member "M3" "더불어민주당"]%string
  = [Bills.Bill "B1" "x" (Some "정무위원회") "원안가결"]%string.
Proof. vm_compute. reflexivity. Qed.

(** ** Per-capita ratio *)

Lemma rint_Q_comp (p q : Q) : (p == q)%Q -> rint_Q p = rint_Q q.
Proof.
  intros E. unfold rint_Q. rewrite (Qfloor_comp p q E).
  assert (C : ((p - inject_Z (Qfloor q)) ?= 1 # 2)%Q
              = ((q - inject_Z (Qfloor q)) ?= 1 # 2)%Q).
  { apply Qcompare_comp; [rewrite E|]; reflexivity. }
  rewrite C. reflexivity.
Qed.

Lemma Qred_inject_Z (z : Z) : Qred (inject_Z z) = inject_Z z.
Proof.
  unfold Qred, inject_Z.
  pose proof (Z.ggcd_gcd z 1) as Hg.
  pose proof (Z.ggcd_correct_divisors z 1) as Hd.
  destruct (Z.ggcd z 1) as [g [aa bb]]. simpl in *.
  rewrite Z.gcd_1_r in Hg. subst g.
  destruct Hd as [-> Hb]. assert (bb = 1) by lia. subst bb.
  f_equal. lia.
Qed.

(** Integers up to 2^53 are binary64 values: the conversion is exact. *)
Lemma f64_of_Z_exact (z : Z) : 0 <= z <= 2 ^ 53 -> f64_of_Z z = Fin (inject_Z z).
Proof.
  intros [H0 H53].
  destruct (Z.eq_dec z 0) as [->|Hz]; [reflexivity|].
  destruct (Z.eq_dec z (2 ^ 53)) as [->|Hz']; [vm_compute; reflexivity|].
  assert (Hpos : (0 < inject_Z z)%Q).
  { change 0%Q with (inject_Z 0). rewrite <- Zlt_Qlt. lia. }
  unfold f64_of_Z, rn64.
  rewrite (proj1 (Qgt_alt _ _) Hpos). unfold round_pos.
  set (e := Z.max (mag (inject_Z z) - 52) (-1074)).
  assert (He : e <= 0).
  { destruct (mag_spec _ Hpos) as [Hm _].
    assert (Hlt : (2 ^ mag (inject_Z z) < 2 ^ 53)%Q).
    { eapply Qle_lt_trans; [exact Hm|].
      rewrite (Qpow2_inject 53) by lia. rewrite <- Zlt_Qlt. lia. }
    apply Qpow2_lt_inv in Hlt. unfold e. lia. }
  assert (Hscaled : (inject_Z z / 2 ^ e == inject_Z (z * 2 ^ (- e)))%Q).
  { rewrite inject_Z_mult, <- (Qpow2_inject (- e)) by lia.
    rewrite Qpower_opp. reflexivity. }
  assert (Hr : (inject_Z (rint_Q (inject_Z z / 2 ^ e)) * 2 ^ e == inject_Z z)%Q).
  { rewrite (rint_Q_comp _ _ Hscaled), rint_Q_inject.
    rewrite inject_Z_mult, <- (Qpow2_inject (- e)) by lia.
    rewrite <- Qmult_assoc, <- Qpow2_add.
    replace (- e + e) with 0 by lia. rewrite Qmult_1_r. reflexivity. }
  assert (Hsmall : Qle_bool (2 ^ 1024)
                     (inject_Z (rint_Q (inject_Z z / 2 ^ e)) * 2 ^ e) = false).
  { destruct (Qle_bool _ _) eqn:E; [|reflexivity].
    apply Qle_bool_iff in E. rewrite Hr in E.
    assert (Hbig : (2 ^ 53 <= 2 ^ 1024)%Q) by (apply Qpow2_le; lia).
    rewrite (Qpow2_inject 53) in Hbig by lia.
    assert (Hzq : (inject_Z z < inject_Z (2 ^ 53))%Q) by (rewrite <- Zlt_Qlt; lia).
    exfalso. lra. }
  rewrite Hsmall. f_equal.
  rewrite (Qred_complete _ _ Hr). apply Qred_inject_Z.
Qed.

Section PerCapitaFacts.
Import PerCapita.

Lemma in_per_capita (data : list (string * Z)) (member_ratio : list headcount)
    (row : party_row) :
  In row (per_capita data member_ratio) <->
  exists d, In d data /\
    ((List.filter (fun h => String.eqb (fst d) (h_POLY_NM h)) member_ratio = [] /\
      row = PartyRow (fst d) (snd d) None
                     (f64_div (f64_of_Z (snd d)) NaN))
     \/
     (exists h, In h member_ratio /\ h_POLY_NM h = fst d /\
        row = PartyRow (fst d) (snd d) (Some (MEMBER_COUNT h))
                       (f64_div (f64_of_Z (snd d)) (f64_of_Z (MEMBER_COUNT h))))).
Proof.
  unfold per_capita. rewrite in_flat_map.
  split; intros (d & Hd & H); exists d; (split; [exact Hd|]).
  - destruct (List.filter _ member_ratio) as [|h0 found] eqn:E.
    + left. destruct H as [<- | []]. auto.
    + right. apply in_map_iff in H as (h & <- & Hh).
      rewrite <- E in Hh. apply filter_In in Hh as [Hh Q].
      apply String.eqb_eq in Q. exists h. auto.
  - destruct H as [[E ->] | (h & Hh & Q & ->)].
    + rewrite E. left. reflexivity.
    + assert (Hin : In h (List.filter (fun h => String.eqb (fst d) (h_POLY_NM h))
                                      member_ratio)).
      { apply filter_In. split; [exact Hh|]. apply String.eqb_eq. auto. }
      destruct (List.filter _ member_ratio) as [|h0 found] eqn:E; [destruct Hin|].
      apply in_map_iff. exists h. split; [reflexivity|exact Hin].
Qed.


Lemma round_pos_not_nan (q : Q) : round_pos q <> NaN.
Proof. unfold round_pos. destruct (Qle_bool _ _); discriminate. Qed.

Lemma rn64_not_nan (q : Q) : rn64 q <> NaN.
Proof.
  unfold rn64. destruct (Qcompare q 0); [discriminate | |apply round_pos_not_nan].
  pose proof (round_pos_not_nan (- q)).
  destruct (round_pos (- q)); simpl; congruence.
Qed.


(** Every party of [data] has its rows in the result. *)
Lemma per_capita_covers (data : list (string * Z))
    (member_ratio : list headcount) (d : string * Z) :
  In d data ->
  exists row, In row (per_capita data member_ratio) /\
    p_POLY_NM row = fst d /\ BILL_COUNT row = snd d.
Proof.
  intros Hd.
  destruct (List.filter (fun h => String.eqb (fst d) (h_POLY_NM h)) member_ratio)
    as [|h found] eqn:E.
  - eexists. split; [apply in_per_capita; exists d; split; [exact Hd|]|].
    + left. split; [exact E | reflexivity].
    + simpl. auto.
  - assert (Hh : In h (List.filter (fun h => String.eqb (fst d) (h_POLY_NM h))
                                   member_ratio)) by (rewrite E; left; reflexivity).
    apply filter_In in Hh as [Hh Q]. apply String.eqb_eq in Q.
    eexists. split; [apply in_per_capita; exists d; split; [exact Hd|]|].
    + right. exists h. split; [exact Hh|]. split; [auto | reflexivity].
    + simpl. auto.
Qed.


End PerCapitaFacts.

Section PartyRatioFacts.
Import PerCapita.

Lemma in_member_ratio (members : list Members.member) (h : headcount) :
  In h (member_ratio members) ->
  0 < MEMBER_COUNT h /\
  exists m, In m members /\ Members.POLY_NM m = h_POLY_NM h.
Proof.
  unfold member_ratio. intros H.
  apply in_map_iff in H as ([p c] & <- & H).
  apply in_map_iff in H as ([k g] & E & H). injection E as <- <-.
  cbn [fst snd MEMBER_COUNT h_POLY_NM].
  apply in_groupby in H as [Hk ->].
  apply in_map_iff in Hk as (m & Hm & Hin). injection Hm as Hm.
  split; [|exists m; auto].
  rewrite length_map.
  assert (Hg : In m (List.filter
                       (fun r => opt_eqb (Some (Members.POLY_NM r)) k) members)).
  { apply filter_In. split; [exact Hin|]. apply opt_eqb_Some. congruence. }
  destruct (List.filter _ members); [destruct Hg | simpl; lia].
Qed.

Lemma member_ratio_has_party (members : list Members.member)
    (m : Members.member) :
  In m members ->
  exists h, In h (member_ratio members) /\ h_POLY_NM h = Members.POLY_NM m.
Proof.
  intros Hm. unfold member_ratio.
  set (g := List.filter
              (fun r => opt_eqb (Some (Members.POLY_NM r)) (Members.POLY_NM m))
              members).
  eexists. split.
  - apply in_map_iff. exists (Members.POLY_NM m, Z.of_nat (length (map Members.MONA_CD g))).
    split; [reflexivity|].
    apply in_map_iff. exists (Members.POLY_NM m, g). split; [reflexivity|].
    apply in_groupby. split; [|reflexivity].
    apply in_map_iff. exists m. auto.
  - reflexivity.
Qed.

(** In the cell itself the lookup never fails: the parties of [data] are
    read from the member frame through the inner join, so each has a
    headcount, of at least one member. *)
Lemma party_ratio_always_matched (proposers : list Proposers.proposer)
    (members : list Members.member) (bills : list Bills.bill)
    (row : party_row) :
  In row (party_ratio proposers members bills) ->
  exists m, p_MEMBER_COUNT row = Some m /\ 0 < m.
Proof.
  unfold party_ratio. intros Hrow.
  apply in_per_capita in Hrow as ([p c] & Hd & H). cbn [fst snd] in H.
  assert (Hp : exists m, In m members /\ Members.POLY_NM m = p).
  { unfold bill_counts in Hd. apply in_map_iff in Hd as ([k g] & E & Hg).
    injection E as <- <-. apply in_groupby in Hg as [Hk _].
    apply in_map_iff in Hk as (r & Hr & Hin). injection Hr as Hr.
    unfold lead_props in Hin. apply filter_In in Hin as [Hin _].
    unfold bill_props in Hin. apply in_flat_map in Hin as (j & Hj & Hin).
    apply in_map_iff in Hin as (b & <- & _). cbn [POLY_NM] in Hr.
    apply in_merge_members in Hj as (q & m & _ & Hm & _ & ->).
    exists m. split; [exact Hm | exact Hr]. }
  destruct Hp as (m & Hm & Hp).
  destruct (member_ratio_has_party members m Hm) as (h & Hh & Q).
  destruct H as [[E _] | (h' & Hh' & _ & ->)].
  - exfalso.
    assert (Hin : In h (List.filter (fun h => String.eqb p (h_POLY_NM h))
                                    (member_ratio members))).
    { apply filter_In. split; [exact Hh|]. apply String.eqb_eq. congruence. }
    rewrite E in Hin. destruct Hin.
  - exists (MEMBER_COUNT h'). split; [reflexivity|].
    apply (in_member_ratio members h' Hh').
Qed.

End PartyRatioFacts.


(** The float 0.7 is the binary64 3152519739159347 / 2^52. *)
Example f64_literal_0_7 :
  f64_literal (7 # 10) = Fin (3152519739159347 # 4503599627370496).
Proof. vm_compute. reflexivity. Qed.

(** The cell run on sample frames: one party of two members, one lead
    proposal. *)
Example party_ratio_sample :
  PerCapita.party_ratio
    [Proposers.Proposer "B1" "M1" "의원대표";
     Proposers.Proposer "B1" "M2" "의원공동"]%string
    [Members.Member "M1" "가당"; Members.Member "M2" "가당"]%string
    [Bills.Bill "B1" "x" None "원안가결"]%string
  = [PerCapita.PartyRow "가당" 1 (Some 2) (Fin (1 # 2))].
Proof. vm_compute. reflexivity. Qed.


(* ===================================================================== *)
(** * Part III. Further properties of the notebook and the frontend       *)
(* ===================================================================== *)

(** ** Record validation: the error list and [alter2] *)

Section ValidationOutcomeFacts.
Import Validation ValidationOutcome.

(** Whether a document is accepted, and with which message it is refused,
    does not depend on what [alter2] holds. *)
Lemma check_independent (fname : string) (d : extracted)
    (a a' : gmap string (list string)) :
  match check fname d a, check fname d a' with
  | inl e, inl e' => e = e'
  | inr _, inr _ => True
  | _, _ => False
  end.
Proof.
  unfold check, raise, ret.
  destruct (title d) as [t|]; simpl; [|reflexivity].
  destruct (get_is_empty (bill_number d) || String.eqb t ""); simpl;
    [reflexivity|].
  destruct (bill_number d) as [n|]; simpl; [|reflexivity].
  destruct (endswith (split_head "_" t) n); simpl; [|reflexivity].
  destruct (is_alternative d) as [[|]|]; simpl; [| |reflexivity].
  - destruct (alternative_bill_numbers d); simpl; [exact I | reflexivity].
  - destruct (contains alt_marker t); simpl; [reflexivity | exact I].
Qed.

Lemma step_outcome (st : state) (entry : string * file) :
  error (step st entry)
  = error st ++ match failure entry with Some msg => [msg] | None => [] end.
Proof.
  destruct entry as [fname f]. unfold step, failure. simpl.
  destruct (endswith fname ".json"); [|rewrite app_nil_r; reflexivity].
  destruct f as [msg|data]; simpl; [reflexivity|].
  pose proof (check_independent fname data (alter2 st) ∅) as H.
  destruct (check fname data (alter2 st)) as [e|a],
           (check fname data ∅) as [e'|a']; try contradiction; simpl.
  - subst e'. reflexivity.
  - rewrite app_nil_r. reflexivity.
Qed.

Lemma run_outcome (l : list (string * file)) (st : state) :
  error (fold_left step l st) = error st ++ omap failure l.
Proof.
  revert st. induction l as [|entry l IH]; intros st; simpl.
  - rewrite app_nil_r. reflexivity.
  - rewrite IH, step_outcome.
    destruct (failure entry); simpl; rewrite <- app_assoc; reflexivity.
Qed.

(** X1. The error list of a run is, in the order of the directory listing,
    one message for each "*.json" file that does not load or whose document
    fails a check, and nothing else: files with another name leave no
    trace, and whether a document is refused never depends on the documents
    read before it. *)
Theorem validate_errors_in_listing_order (listing : list (string * file)) :
  error (validate listing) = omap failure listing.
Proof.
  unfold validate. rewrite run_outcome. reflexivity.
Qed.

(** What an accepted document does to [alter2]. *)
Lemma check_accepts (fname : string) (d : extracted)
    (a a' : gmap string (list string)) :
  check fname d a = inr a' ->
  (a' = a /\ is_alternative d = Some false) \/
  (exists key nums, accepted_alternative d key nums /\ a' = <[key := nums]> a).
Proof.
  unfold check, raise, ret, accepted_alternative.
  destruct (title d) as [t|] eqn:Ht; simpl; [|discriminate].
  destruct (bill_number d) as [n|] eqn:Hn; simpl.
  - destruct (String.eqb n "") eqn:En; simpl; [discriminate|].
    destruct (String.eqb t "") eqn:Et; simpl; [discriminate|].
    destruct (endswith (split_head "_" t) n) eqn:He; simpl; [|discriminate].
    apply String.eqb_neq in En, Et.
    destruct (is_alternative d) as [[|]|]; simpl; [| |discriminate].
    + destruct (alternative_bill_numbers d) as [nums|]; simpl; [|discriminate].
      intros E. injection E as <-. right.
      exists (split_head "_" t), nums. split; [|reflexivity].
      exists t, n. auto 10.
    + destruct (contains alt_marker t); [discriminate|].
      intros E. injection E as <-. left. auto.
  - destruct (String.eqb t ""); simpl; discriminate.
Qed.

Lemma check_accepted_alternative (fname : string) (d : extracted)
    (a : gmap string (list string)) (key : string) (nums : list string) :
  accepted_alternative d key nums -> check fname d a = inr (<[key := nums]> a).
Proof.
  intros (t & n & Ht & Hn & Ht0 & Hn0 & -> & He & Hf & Hnums).
  unfold check.
  rewrite (get_is_empty_false _ _ Hn Hn0), (get_is_empty_false _ _ Ht Ht0).
  rewrite Ht, Hn, Hf, Hnums. simpl. rewrite He. reflexivity.
Qed.

Lemma step_alter2 (st : state) (entry : string * file) (k : string)
    (v : list string) :
  alter2 (step st entry) !! k = Some v ->
  alter2 st !! k = Some v \/
  (exists d, entry = (fst entry, Json d) /\
     endswith (fst entry) ".json" = true /\ accepted_alternative d k v).
Proof.
  destruct entry as [fname f]. unfold step. simpl.
  destruct (endswith fname ".json") eqn:Hj; [|auto].
  destruct f as [msg|d]; simpl; [auto|].
  destruct (check fname d (alter2 st)) as [e|a'] eqn:Hc; simpl; [auto|].
  apply check_accepts in Hc as [[-> _] | (key & nums & Hacc & ->)]; [auto|].
  destruct (decide (key = k)) as [->|Hne].
  - rewrite lookup_insert_eq. intros E. injection E as <-. right. eauto.
  - rewrite lookup_insert_ne by exact Hne. auto.
Qed.

Lemma run_alter2 (l : list (string * file)) (st : state) (k : string)
    (v : list string) :
  alter2 (fold_left step l st) !! k = Some v ->
  alter2 st !! k = Some v \/
  (exists fname d, In (fname, Json d) l /\
     endswith fname ".json" = true /\ accepted_alternative d k v).
Proof.
  revert st. induction l as [|entry l IH]; intros st H; simpl in *; [auto|].
  destruct (IH _ H) as [H' | (fname & d & Hin & Hj & Hacc)].
  - destruct (step_alter2 _ _ _ _ H') as [H'' | (d & E & Hj & Hacc)]; [auto|].
    right. exists (fst entry), d. rewrite <- E. auto.
  - right. exists fname, d. auto.
Qed.

(** X2. Every entry of [alter2] comes from a document of the listing: a
    "*.json" file whose title and bill number are filled, whose
    title-derived number is the key and ends with the declared number, and
    which is flagged as alternative with that list of alternative bill
    numbers.  No refused document and no document without the flag ever
    writes to [alter2]. *)
Theorem alter2_entries_come_from_accepted_alternatives
    (listing : list (string * file)) (key : string) (nums : list string) :
  alter2 (validate listing) !! key = Some nums ->
  exists fname d,
    In (fname, Json d) listing /\ endswith fname ".json" = true /\
    accepted_alternative d key nums.
Proof.
  intros H. destruct (run_alter2 listing (State ∅ []) key nums H) as [C | C].
  - simpl in C. rewrite lookup_empty in C. discriminate C.
  - exact C.
Qed.

Lemma step_keeps_other_keys (st : state) (entry : string * file) (k : string) :
  (forall d nums, snd entry = Json d -> ~ accepted_alternative d k nums) ->
  alter2 (step st entry) !! k = alter2 st !! k.
Proof.
  destruct entry as [fname f]. unfold step. simpl. intros Hno.
  destruct (endswith fname ".json"); [|reflexivity].
  destruct f as [msg|d]; simpl; [reflexivity|].
  destruct (check fname d (alter2 st)) as [e|a'] eqn:Hc; simpl; [reflexivity|].
  apply check_accepts in Hc as [[-> _] | (key & nums & Hacc & ->)]; [reflexivity|].
  destruct (decide (key = k)) as [->|Hne].
  - destruct (Hno d nums eq_refl Hacc).
  - apply lookup_insert_ne. exact Hne.
Qed.

Lemma run_keeps_other_keys (l : list (string * file)) (st : state) (k : string) :
  (forall f d nums, In (f, Json d) l -> ~ accepted_alternative d k nums) ->
  alter2 (fold_left step l st) !! k = alter2 st !! k.
Proof.
  revert st. induction l as [|entry l IH]; intros st Hno; simpl; [reflexivity|].
  rewrite IH.
  - apply step_keeps_other_keys. intros d nums E.
    apply (Hno (fst entry)). left. destruct entry; simpl in *; congruence.
  - intros f d nums Hin. apply (Hno f). right. exact Hin.
Qed.

(** X3. The last accepted alternative for a bill number wins: when a
    "*.json" document is accepted as alternative under some key and no
    document after it in the listing is accepted as alternative under the
    same key, [alter2] maps the key to that document's list, whatever
    earlier files had stored there. *)
Theorem alter2_last_accepted_wins (pre post : list (string * file))
    (fname : string) (d : extracted) (key : string) (nums : list string) :
  endswith fname ".json" = true ->
  accepted_alternative d key nums ->
  (forall f d' nums', In (f, Json d') post ->
     ~ accepted_alternative d' key nums') ->
  alter2 (validate (pre ++ (fname, Json d) :: post)) !! key = Some nums.
Proof.
  intros Hj Hacc Hpost. unfold validate.
  rewrite fold_left_app. simpl fold_left.
  rewrite (run_keeps_other_keys post _ key Hpost).
  unfold step. rewrite Hj.
  rewrite (check_accepted_alternative fname d _ key nums Hacc). simpl.
  apply lookup_insert_eq.
Qed.

End ValidationOutcomeFacts.

Lemma alter2_entries_come_from_accepted_alternatives_witness :
  exists fname d,
    In (fname, Validation.Json d)
       [("7.json", Validation.Json
                     (Validation.Extracted (Some "2100007_g") (Some "2100007")
                        (Some true) (Some ["2100001"])))]%string /\
    endswith fname ".json" = true /\
    ValidationOutcome.accepted_alternative d "2100007" ["2100001"]%string.
Proof.
  apply alter2_entries_come_from_accepted_alternatives.
  vm_compute. reflexivity.
Defined.

Lemma alter2_last_accepted_wins_witness :
  Validation.alter2
    (Validation.validate
       ([("1.json", Validation.Json
                      (Validation.Extracted (Some "2100007_old") (Some "2100007")
                         (Some true) (Some ["2100001"])))]
        ++ ("2.json", Validation.Json
                        (Validation.Extracted (Some "2100007_new") (Some "007")
                           (Some true) (Some ["2100002"; "2100003"])))
        :: [("3.json", Validation.Json
                         (Validation.Extracted (Some "2100007_x") (Some "")
                            (Some true) (Some ["2100009"])))]))%string
  !! "2100007"%string
  = Some ["2100002"; "2100003"]%string.
Proof.
  apply alter2_last_accepted_wins.
  - reflexivity.
  - exists "2100007_new"%string, "007"%string.
    repeat split; try reflexivity; discriminate.
  - intros f d' nums' [E | []] (t & n & Ht & Hn & _ & Hn0 & _).
    injection E as _ <-. simpl in Hn. injection Hn as <-. apply Hn0. reflexivity.
Defined.

(** ** float64: rounding respects equality of rationals; ratios lie in [0, 1] *)

Lemma mag_comp (p q : Q) : (0 < p)%Q -> (p == q)%Q -> mag p = mag q.
Proof.
  intros Hp E.
  assert (Hq : (0 < q)%Q) by (rewrite <- E; exact Hp).
  assert (L1 : mag p <= mag q) by (apply mag_mono; [exact Hp | rewrite E; apply Qle_refl]).
  assert (L2 : mag q <= mag p) by (apply mag_mono; [exact Hq | rewrite E; apply Qle_refl]).
  lia.
Qed.

Lemma round_pos_comp (p q : Q) : (0 < p)%Q -> (p == q)%Q -> round_pos p = round_pos q.
Proof.
  intros Hp E. unfold round_pos. rewrite (mag_comp p q Hp E).
  set (e := Z.max (mag q - 52) (-1074)).
  assert (Er : rint_Q (p / 2 ^ e) = rint_Q (q / 2 ^ e)).
  { apply rint_Q_comp. rewrite E. reflexivity. }
  rewrite Er. reflexivity.
Qed.

Lemma rn64_comp (p q : Q) : (p == q)%Q -> rn64 p = rn64 q.
Proof.
  intros E. unfold rn64.
  assert (C : (p ?= 0)%Q = (q ?= 0)%Q) by (apply Qcompare_comp; [exact E | reflexivity]).
  rewrite C. destruct (q ?= 0)%Q eqn:Cq; [reflexivity | |].
  - f_equal. apply round_pos_comp.
    + rewrite <- Qlt_alt in C. lra.
    + rewrite E. reflexivity.
  - apply round_pos_comp; [|exact E].
    rewrite <- Qgt_alt in C. exact C.
Qed.

(** The rounded ratio of a part to the whole is a finite value between 0
    and 1. *)
Lemma ratio_unit_interval (a t : Z) (decimals : nat) :
  (1 <= decimals <= 3)%nat -> 0 <= a <= t -> 1 <= t <= 2 ^ 63 ->
  exists q, np_round (f64_div (f64_of_Z a) (f64_of_Z t)) decimals = Fin q /\
            (0 <= q <= 1)%Q.
Proof.
  intros Hd Ha Ht.
  assert (Hd' : (decimals <= 18)%nat) by lia.
  pose proof (ratio_mono 0 a t decimals Hd' ltac:(lia) Ht) as Lo.
  pose proof (ratio_mono a t t decimals Hd' ltac:(lia) Ht) as Hi.
  destruct (f64_of_Z_pos t Ht) as (qt & Et & Hqt).
  assert (E0 : np_round (f64_div (f64_of_Z 0) (f64_of_Z t)) decimals = Fin 0).
  { rewrite Et. change (f64_of_Z 0) with (Fin 0). simpl f64_div.
    rewrite (Qeq_bool_pos qt Hqt).
    rewrite (rn64_comp (0 / qt) 0) by (unfold Qdiv; apply Qmult_0_l).
    destruct decimals as [|[|[|[|]]]]; try lia; vm_compute; reflexivity. }
  assert (E1 : np_round (f64_div (f64_of_Z t) (f64_of_Z t)) decimals = Fin 1).
  { rewrite Et. simpl f64_div. rewrite (Qeq_bool_pos qt Hqt).
    rewrite (rn64_comp (qt / qt) 1) by (apply Qmult_inv_r; lra).
    destruct decimals as [|[|[|[|]]]]; try lia; vm_compute; reflexivity. }
  rewrite E0 in Lo. rewrite E1 in Hi.
  destruct (np_round (f64_div (f64_of_Z a) (f64_of_Z t)) decimals)
    as [q|[|]|]; simpl in *; try discriminate.
  exists q. split; [reflexivity|].
  apply Qle_bool_iff in Lo, Hi. split; assumption.
Qed.

(** ** Stage conversion: range of the rates, and what they depend on *)

Section ConversionRangeFacts.
Import BillDetails.
Variable parse : string -> option Z.

(** X4. On a population with at least one record that is not withdrawn (and
    fewer than 2^63), each of the five printed rates is a finite number
    between 0 and 1: never NaN, never an infinity, never negative. *)
Theorem conversion_rates_in_unit_interval
    (bill_details : list (row (option string))) :
  0 < Z.of_nat (length (List.filter not_withdrawn bill_details)) < 2 ^ 63 ->
  forall rate,
    In rate [cmt_meet_rate; cmt_proc_rate; law_meet_rate; law_proc_rate;
             proc_rate] ->
    exists q, rate (stage_conversion parse bill_details) = Fin q /\
              (0 <= q <= 1)%Q.
Proof.
  intros Hlen rate Hrate.
  assert (Hlen' : 1 <= Z.of_nat (length (durations parse bill_details)) <= 2 ^ 63).
  { rewrite durations_filter, length_map. lia. }
  unfold stage_conversion.
  destruct Hrate as [<- | [<- | [<- | [<- | [<- | []]]]]];
    cbn [cmt_meet_rate cmt_proc_rate law_meet_rate law_proc_rate proc_rate];
    apply ratio_unit_interval; try lia; try exact Hlen'; apply reached_bounds.
Qed.

Lemma filter_Permutation {A : Type} (p : A -> bool) (l l' : list A) :
  Permutation l l' -> Permutation (List.filter p l) (List.filter p l').
Proof.
  induction 1 as [|x l l' _ IH|x y l|l l' l'' _ IH1 _ IH2]; simpl.
  - constructor.
  - destruct (p x); [constructor|]; exact IH.
  - destruct (p x), (p y); try reflexivity. constructor.
  - etransitivity; eassumption.
Qed.

Lemma reached_Permutation (col : detail -> Z) (df df' : list detail) :
  Permutation df df' -> reached col df = reached col df'.
Proof.
  intros H. unfold reached. f_equal.
  apply Permutation_length, filter_Permutation, H.
Qed.

Lemma stage_conversion_of_converted
    (bill_details : list (row (option string))) :
  stage_conversion parse bill_details
  = Converted.conversion_of (map (coerce parse) bill_details).
Proof. reflexivity. Qed.

(** X5. Once the date columns are converted, the printed rates depend only
    on the rows that are not withdrawn, and not on their order: two
    converted frames whose non-withdrawn rows are the same up to order
    give the same five rates, whatever their withdrawn rows hold. *)
Theorem conversion_ignores_withdrawn_and_order
    (converted converted' : list (row (option Z))) :
  Permutation (List.filter not_withdrawn converted)
              (List.filter not_withdrawn converted') ->
  Converted.conversion_of converted = Converted.conversion_of converted'.
Proof.
  intros H.
  assert (P : Permutation
                (map add_durations (List.filter not_withdrawn converted))
                (map add_durations (List.filter not_withdrawn converted')))
    by (apply Permutation_map, H).
  unfold Converted.conversion_of. cbn zeta.
  rewrite (Permutation_length P).
  rewrite !(reached_Permutation _ _ _ P). reflexivity.
Qed.

End ConversionRangeFacts.

Lemma conversion_rates_in_unit_interval_witness :
  exists q,
    BillDetails.proc_rate
      (BillDetails.stage_conversion IsoDate.iso_date Samples.synthetic) = Fin q /\
    (0 <= q <= 1)%Q.
Proof.
  apply (conversion_rates_in_unit_interval IsoDate.iso_date Samples.synthetic).
  - vm_compute. split; reflexivity.
  - simpl. tauto.
Defined.

Lemma conversion_ignores_withdrawn_and_order_witness :
  Converted.conversion_of
    (map (BillDetails.coerce IsoDate.iso_date)
         [Samples.withdrawn_bill; Samples.stalled; Samples.fully_processed])
  = Converted.conversion_of
      (map (BillDetails.coerce IsoDate.iso_date)
           [Samples.fully_processed; Samples.stalled]).
Proof.
  apply conversion_ignores_withdrawn_and_order.
  apply perm_swap.
Defined.

(** ** Means of the duration columns *)

Lemma f64_of_Z_range (z : Z) :
  1 <= z <= 2 ^ 63 ->
  exists q, f64_of_Z z = Fin q /\ (1 <= q <= inject_Z (2 ^ 63))%Q.
Proof.
  intros [Hl Hu]. unfold f64_of_Z.
  assert (A : f64_leb (rn64 1) (rn64 (inject_Z z)) = true).
  { apply rn64_mono; [lra|]. change 1%Q with (inject_Z 1). rewrite <- Zle_Qle. exact Hl. }
  assert (B : f64_leb (rn64 (inject_Z z)) (rn64 (inject_Z (2 ^ 63))) = true).
  { apply rn64_mono.
    - change 0%Q with (inject_Z 0). rewrite <- Zle_Qle. lia.
    - rewrite <- Zle_Qle. exact Hu. }
  replace (rn64 1) with (Fin 1) in A by (vm_compute; reflexivity).
  replace (rn64 (inject_Z (2 ^ 63))) with (Fin (inject_Z (2 ^ 63))) in B
    by (vm_compute; reflexivity).
  destruct (rn64 (inject_Z z)) as [q|[|]|]; try discriminate.
  exists q. split; [reflexivity|]. simpl in A, B.
  apply Qle_bool_iff in A, B. split; assumption.
Qed.

Lemma f64_of_Z_not_nan (z : Z) : f64_of_Z z <> NaN.
Proof. apply rn64_not_nan. Qed.

Lemma f64_div_pos_not_nan (x : float64) (q : Q) :
  x <> NaN -> (0 < q)%Q -> f64_div x (Fin q) <> NaN.
Proof.
  intros Hx Hq. destruct x as [a|s|]; simpl; [| discriminate | congruence].
  rewrite (Qeq_bool_pos q Hq). apply rn64_not_nan.
Qed.

Section MeanFacts.
Import BillDetails DurationMeans.

Lemma filter_map_length {A : Type} (col : A -> Z) (p : Z -> bool) (l : list A) :
  length (List.filter p (map col l)) = length (List.filter (fun r => p (col r)) l).
Proof.
  induction l as [|x l IH]; simpl; [reflexivity|].
  destruct (p (col x)); simpl; rewrite IH; reflexivity.
Qed.

Lemma column_count_is_reached (col : detail -> Z) (df : list detail) :
  Z.of_nat (length (List.filter (fun v => negb (v =? -1)) (map col df)))
  = reached col df.
Proof. unfold reached. rewrite filter_map_length. reflexivity. Qed.

(** X6. The mean of a duration column is NaN exactly when no row reached
    the stage, that is when the count behind the matching conversion rate
    is 0; rows whose value is -1 are left out of the mean, they are not
    averaged in as -1.  (Frames of fewer than 2^63 rows.) *)
Theorem column_mean_nan_iff_none_reached (col : detail -> Z)
    (df : list detail) :
  Z.of_nat (length df) < 2 ^ 63 ->
  (column_mean col df = NaN <-> reached col df = 0) /\
  column_mean col df
  = column_mean col (List.filter (fun r => negb (col r =? -1)) df).
Proof.
  intros Hlen. split.
  - unfold column_mean. rewrite column_count_is_reached.
    pose proof (reached_bounds col df) as Hb.
    destruct (0 <? reached col df) eqn:E.
    + apply Z.ltb_lt in E. split; [|lia].
      intros C. exfalso. revert C.
      destruct (f64_of_Z_pos (reached col df)) as (q & Eq & Hq); [lia|].
      rewrite Eq. apply f64_div_pos_not_nan; [apply f64_of_Z_not_nan | exact Hq].
    + apply Z.ltb_ge in E. split; [lia | reflexivity].
  - unfold column_mean.
    assert (E : List.filter (fun v => negb (v =? -1))
                  (map col (List.filter (fun r => negb (col r =? -1)) df))
                = List.filter (fun v => negb (v =? -1)) (map col df)).
    { clear Hlen. induction df as [|r df IH]; simpl; [reflexivity|].
      destruct (negb (col r =? -1)) eqn:Er; simpl; rewrite ?Er, IH; reflexivity. }
    rewrite E. reflexivity.
Qed.

Lemma sum_bounds (values : list Z) (lo hi : Z) :
  (forall v, In v values -> lo <= v <= hi) ->
  lo * Z.of_nat (length values) <= fold_right Z.add 0 values
    <= hi * Z.of_nat (length values).
Proof.
  induction values as [|v values IH]; intros H; simpl fold_right; simpl length.
  - lia.
  - assert (Hv : lo <= v <= hi) by (apply H; left; reflexivity).
    assert (IH' := IH (fun w Hw => H w (or_intror Hw))).
    lia.
Qed.

(** X7. When the values of a column that are not -1 all lie between 0 and
    some bound [hi], and at least one row has such a value, the mean of the
    column is a finite number between 0 and [hi]; this is the case of a
    frame whose dates are in lifecycle order.  (The number of rows, and the
    bound times that number, are taken to be at most 2^53, so that count
    and sum are float64 values.) *)
Theorem column_mean_within_bounds (col : detail -> Z) (df : list detail)
    (hi : Z) :
  (forall r, In r df -> col r <> -1 -> 0 <= col r <= hi) ->
  0 < reached col df ->
  Z.of_nat (length df) <= 2 ^ 53 ->
  hi * Z.of_nat (length df) <= 2 ^ 53 ->
  exists q, column_mean col df = Fin q /\ (0 <= q <= inject_Z hi)%Q.
Proof.
  intros Hvals Hreached Hrows Hsmall.
  unfold column_mean. rewrite column_count_is_reached.
  rewrite (proj2 (Z.ltb_lt _ _) Hreached).
  set (values := List.filter (fun v => negb (v =? -1)) (map col df)).
  assert (Hcount : Z.of_nat (length values) = reached col df)
    by apply column_count_is_reached.
  assert (Hin : forall v, In v values -> 0 <= v <= hi).
  { intros v Hv. apply filter_In in Hv as [Hv Hne].
    apply in_map_iff in Hv as (r & <- & Hr).
    apply negb_true_iff, Z.eqb_neq in Hne. apply Hvals; assumption. }
  pose proof (sum_bounds values 0 hi Hin) as Hsum. rewrite Hcount in Hsum.
  pose proof (reached_bounds col df) as Hb.
  set (sum := fold_right Z.add 0 values) in *.
  set (count := reached col df) in *.
  assert (Hhi : 0 <= hi) by nia.
  assert (Hhi53 : hi <= 2 ^ 53) by nia.
  rewrite (f64_of_Z_exact sum) by nia.
  rewrite (f64_of_Z_exact count) by lia.
  assert (Hcq : (0 < inject_Z count)%Q).
  { change 0%Q with (inject_Z 0). rewrite <- Zlt_Qlt. exact Hreached. }
  simpl f64_div. rewrite (Qeq_bool_pos _ Hcq).
  assert (Hq0 : (0 <= inject_Z sum / inject_Z count)%Q).
  { apply Qle_shift_div_l; [exact Hcq|]. rewrite Qmult_0_l.
    change 0%Q with (inject_Z 0). rewrite <- Zle_Qle. lia. }
  assert (Hq1 : (inject_Z sum / inject_Z count <= inject_Z hi)%Q).
  { apply Qle_shift_div_r; [exact Hcq|].
    rewrite <- inject_Z_mult, <- Zle_Qle. lia. }
  pose proof (rn64_mono 0 _ ltac:(lra) Hq0) as Lo.
  pose proof (rn64_mono _ _ Hq0 Hq1) as Hi.
  change (rn64 0) with (Fin 0) in Lo.
  change (rn64 (inject_Z hi)) with (f64_of_Z hi) in Hi.
  rewrite (f64_of_Z_exact hi) in Hi by lia.
  destruct (rn64 (inject_Z sum / inject_Z count)) as [q|[|]|];
    simpl in Lo, Hi; try discriminate.
  exists q. split; [reflexivity|].
  apply Qle_bool_iff in Lo, Hi. split; assumption.
Qed.

End MeanFacts.

Lemma column_mean_nan_iff_none_reached_witness :
  DurationMeans.column_mean BillDetails.CMT_MEET
    (BillDetails.durations IsoDate.iso_date Samples.synthetic)
  = DurationMeans.column_mean BillDetails.CMT_MEET
      (List.filter (fun r => negb (BillDetails.CMT_MEET r =? -1))
         (BillDetails.durations IsoDate.iso_date Samples.synthetic)).
Proof.
  apply column_mean_nan_iff_none_reached. vm_compute. reflexivity.
Defined.

Lemma column_mean_within_bounds_witness :
  exists q,
    DurationMeans.column_mean BillDetails.TOTAL_DT
      (BillDetails.durations IsoDate.iso_date Samples.synthetic) = Fin q /\
    (0 <= q <= inject_Z 10)%Q.
Proof.
  apply column_mean_within_bounds.
  - intros r [<- | [<- | []]] H; vm_compute in H; vm_compute;
      try (split; discriminate); exfalso; apply H; reflexivity.
  - vm_compute. reflexivity.
  - vm_compute. discriminate.
  - vm_compute. discriminate.
Defined.

Example duration_means_sample :
  DurationMeans.duration_means IsoDate.iso_date
    [Samples.fully_processed; Samples.disposed_early; Samples.stalled;
     Samples.withdrawn_bill]
  = DurationMeans.Means (f64_literal (5 # 2)) (Fin 2) (f64_literal (3 # 2))
                        (f64_literal (3 # 2)) (Fin 1) (Fin 2) (Fin 9).
Proof. vm_compute. reflexivity. Qed.

(** ** Grouping: the groups partition the rows that have a key *)

Lemma keys_of_NoDup (col : list (option string)) : List.NoDup (keys_of col).
Proof.
  induction col as [|[k|] col IH]; simpl; [constructor | | exact IH].
  destruct (isin k (keys_of col)) eqn:E; [exact IH|].
  constructor; [|exact IH].
  intros C. apply isin_In in C. congruence.
Qed.

Lemma groupby_keys {A : Type} (key : A -> option string) (df : list A) :
  map fst (groupby key df) = keys_of (map key df).
Proof.
  unfold groupby. rewrite map_map. simpl. apply map_id.
Qed.

Lemma filter_length_split {A : Type} (p q : A -> bool) (l : list A) :
  (forall x, In x l -> p x = true -> q x = true -> False) ->
  length (List.filter (fun x => p x || q x) l)
  = (length (List.filter p l) + length (List.filter q l))%nat.
Proof.
  induction l as [|x l IH]; intros H; simpl; [reflexivity|].
  assert (IH' := IH (fun y Hy => H y (or_intror Hy))).
  pose proof (H x (or_introl eq_refl)) as Hx.
  destruct (p x), (q x); simpl; try lia.
Qed.

Lemma group_sizes_sum {A : Type} (key : A -> option string) (df : list A)
    (ks : list string) :
  List.NoDup ks ->
  sum_Z (map (fun k => Z.of_nat (length (List.filter (fun r => opt_eqb (key r) k) df))) ks)
  = Z.of_nat (length (List.filter
                        (fun r => existsb (fun k => opt_eqb (key r) k) ks) df)).
Proof.
  induction 1 as [|k ks Hk Hnd IH]; simpl.
  - induction df as [|r df IHdf]; simpl; [reflexivity | exact IHdf].
  - rewrite IH, filter_length_split; [lia|].
    intros r _ H1 H2. apply opt_eqb_Some in H1.
    apply existsb_exists in H2 as (k' & Hk' & H2). apply opt_eqb_Some in H2.
    apply Hk. congruence.
Qed.

Lemma groupby_partition {A : Type} (key : A -> option string) (df : list A) :
  sum_Z (map (fun g => Z.of_nat (length (snd g))) (groupby key df))
  = Z.of_nat (length (List.filter (has_key key) df)).
Proof.
  unfold groupby. rewrite map_map. simpl.
  rewrite (group_sizes_sum key df _ (keys_of_NoDup _)).
  f_equal. f_equal. apply filter_ext_in. intros r Hr. unfold has_key.
  destruct (key r) as [k|] eqn:E.
  - apply existsb_exists. exists k. split; [|simpl; apply String.eqb_refl].
    apply in_keys_of. rewrite <- E. apply in_map. exact Hr.
  - destruct (existsb _ _) eqn:C; [|reflexivity].
    apply existsb_exists in C as (k & _ & C). discriminate C.
Qed.

Section GroupTotals.
Import CommitteeStats.

(** X8. The committee groups partition the bills that have a committee:
    the committee names of the table are pairwise distinct, the BILL_COUNTs
    add up to the number of bills whose COMMITTEE_NAME is not null, and a
    bill with a null committee is counted in no group. *)
Theorem committee_groups_partition_bills (bills : list Bills.bill) :
  List.NoDup (map COMMITTEE_NAME (committe_stats bills)) /\
  sum_Z (map BILL_COUNT (committe_stats bills))
  = Z.of_nat (length (List.filter (has_key Bills.COMMITTEE_NAME) bills)).
Proof.
  unfold committe_stats, group_stats. rewrite !map_map. simpl. split.
  - change (fun x : string * list Bills.bill => fst x) with (@fst string (list Bills.bill)).
    rewrite groupby_keys. apply keys_of_NoDup.
  - rewrite <- groupby_partition. f_equal. apply map_ext.
    intros g. rewrite length_map. reflexivity.
Qed.

(** X9. In every row of the committee table the three counts are ordered,
    0 <= PASS_COUNT <= NEW_BILL_COUNT <= BILL_COUNT, and both rates are
    finite numbers between 0 and 1.  (Frames of fewer than 2^63 rows.) *)
Theorem committee_counts_and_rates_in_range
    (key : Bills.bill -> option string) (bills : list Bills.bill)
    (row : stat) :
  Z.of_nat (length bills) < 2 ^ 63 ->
  In row (group_stats key bills) ->
  0 <= PASS_COUNT row <= NEW_BILL_COUNT row /\
  NEW_BILL_COUNT row <= BILL_COUNT row /\
  (exists p, PASS_RATE row = Fin p /\ (0 <= p <= 1)%Q) /\
  (exists p, PROCESSED_RATE row = Fin p /\ (0 <= p <= 1)%Q).
Proof.
  intros Hlen Hrow.
  pose proof (group_stats_bill_count_pos key bills row Hrow) as Hpos.
  unfold group_stats in Hrow.
  apply in_map_iff in Hrow as ([k g] & <- & Hg).
  cbn [PASS_RATE PROCESSED_RATE BILL_COUNT PASS_COUNT NEW_BILL_COUNT fst snd] in *.
  apply in_groupby in Hg as [_ ->].
  rewrite length_map in *.
  set (g := List.filter (fun r => opt_eqb (key r) k) bills) in *.
  pose proof (filter_length_le (fun r => opt_eqb (key r) k) bills) as Hle.
  pose proof (pass_count_le_new_bill_count g) as Hpn.
  assert (Hnb : Bills.count_status Bills.resolved g <= Z.of_nat (length g)).
  { unfold Bills.count_status. apply Nat2Z.inj_le, filter_length_le. }
  fold g in Hle.
  split; [exact Hpn|]. split; [exact Hnb|].
  split; apply ratio_unit_interval; lia.
Qed.

End GroupTotals.

Lemma committee_counts_and_rates_in_range_witness :
  exists p, np_round (f64_div (f64_of_Z 2) (f64_of_Z 3)) 2 = Fin p /\
            (0 <= p <= 1)%Q.
Proof.
  apply (committee_counts_and_rates_in_range Bills.COMMITTEE_NAME
           [Bills.Bill "2200010" "a" (Some "법제사법위원회") "원안가결";
            Bills.Bill "2200011" "b" (Some "법제사법위원회") "대안반영폐기";
            Bills.Bill "2200012" "c" (Some "법제사법위원회") "임기만료폐기";
            Bills.Bill "2200013" "d" None "수정가결"]%string
           (CommitteeStats.Stat "법제사법위원회" 3 1 2
              (np_round (f64_div (f64_of_Z 1) (f64_of_Z 3)) 2)
              (np_round (f64_div (f64_of_Z 2) (f64_of_Z 3)) 2))).
  - vm_compute. reflexivity.
  - left. reflexivity.
Defined.

(** ** Headcounts and the per-capita table *)

Section HeadcountFacts.
Import PerCapita.

Lemma member_ratio_counts (members : list Members.member) :
  map (fun h => (h_POLY_NM h, MEMBER_COUNT h)) (member_ratio members)
  = map (fun g : string * list Members.member =>
           (fst g, Z.of_nat (length (snd g))))
        (groupby (fun m => Some (Members.POLY_NM m)) members).
Proof.
  unfold member_ratio. rewrite !map_map. simpl. apply map_ext.
  intros g. rewrite length_map. reflexivity.
Qed.

Lemma member_ratio_total (members : list Members.member) :
  sum_Z (map MEMBER_COUNT (member_ratio members)) = Z.of_nat (length members).
Proof.
  transitivity (sum_Z (map snd (map (fun h => (h_POLY_NM h, MEMBER_COUNT h))
                                    (member_ratio members)))).
  { rewrite map_map. reflexivity. }
  rewrite member_ratio_counts, map_map. cbn [snd].
  rewrite groupby_partition. f_equal. f_equal.
  induction members as [|m members IH]; simpl; [reflexivity|].
  f_equal. exact IH.
Qed.

Lemma member_ratio_parties (members : list Members.member) :
  map h_POLY_NM (member_ratio members)
  = keys_of (map (fun m => Some (Members.POLY_NM m)) members).
Proof.
  transitivity (map fst (map (fun h => (h_POLY_NM h, MEMBER_COUNT h))
                             (member_ratio members))).
  { rewrite map_map. reflexivity. }
  rewrite member_ratio_counts, map_map. simpl.
  apply (groupby_keys (fun m => Some (Members.POLY_NM m)) members).
Qed.

Lemma sum_Z_member_le (values : list Z) (v : Z) :
  (forall w, In w values -> 0 <= w) -> In v values -> v <= sum_Z values.
Proof.
  induction values as [|w values IH]; intros Hnn Hin; [destruct Hin|].
  simpl. assert (Hw : 0 <= w) by (apply Hnn; left; reflexivity).
  assert (Hrest : 0 <= sum_Z values).
  { clear IH Hin. induction values as [|u values IHv]; simpl; [lia|].
    assert (0 <= u) by (apply Hnn; right; left; reflexivity).
    assert (0 <= sum_Z values).
    { apply IHv. intros x [Hx | Hx]; apply Hnn; [left | right; right]; assumption. }
    lia. }
  destruct Hin as [-> | Hin]; [lia|].
  assert (v <= sum_Z values) by (apply IH; [intros x Hx; apply Hnn; right|]; assumption).
  lia.
Qed.

Lemma has_key_always {A : Type} (f : A -> string) (l : list A) :
  List.filter (has_key (fun x => Some (f x))) l = l.
Proof.
  induction l as [|x l IH]; simpl; [reflexivity|]. f_equal. exact IH.
Qed.

Lemma member_ratio_inner_total (members : list Members.member) :
  fold_right Z.add 0
    (map snd
       (map (fun g : string * list Members.member =>
               (fst g, Z.of_nat (length (map Members.MONA_CD (snd g)))))
            (groupby (fun m => Some (Members.POLY_NM m)) members)))
  = Z.of_nat (length members).
Proof.
  rewrite map_map. cbn [snd].
  rewrite <- (has_key_always Members.POLY_NM members) at 2.
  rewrite <- groupby_partition. unfold sum_Z. f_equal. apply map_ext.
  intros g. rewrite length_map. reflexivity.
Qed.

Lemma member_ratio_row (members : list Members.member) (h : headcount) :
  In h (member_ratio members) ->
  MEMBER_RATIO h
  = np_round (f64_div (f64_of_Z (MEMBER_COUNT h))
                      (f64_of_Z (Z.of_nat (length members)))) 2.
Proof.
  unfold member_ratio. rewrite member_ratio_inner_total.
  intros H. apply in_map_iff in H as (r & <- & _). reflexivity.
Qed.

Lemma member_count_le (members : list Members.member) (h : headcount) :
  In h (member_ratio members) -> MEMBER_COUNT h <= Z.of_nat (length members).
Proof.
  intros Hh. rewrite <- member_ratio_total. apply sum_Z_member_le.
  - intros w Hw. apply in_map_iff in Hw as (h' & <- & Hh').
    destruct (in_member_ratio members h' Hh'). lia.
  - apply in_map. exact Hh.
Qed.

(** X10. The headcount table partitions the members: its party names are
    pairwise distinct, the MEMBER_COUNTs add up to the number of members,
    every party has at least one member, and every MEMBER_RATIO is a
    finite number between 0 and 1.  (Fewer than 2^63 members.) *)
Theorem member_ratio_partitions_members (members : list Members.member) :
  Z.of_nat (length members) < 2 ^ 63 ->
  List.NoDup (map h_POLY_NM (member_ratio members)) /\
  sum_Z (map MEMBER_COUNT (member_ratio members)) = Z.of_nat (length members) /\
  forall h, In h (member_ratio members) ->
    1 <= MEMBER_COUNT h /\
    exists q, MEMBER_RATIO h = Fin q /\ (0 <= q <= 1)%Q.
Proof.
  intros Hlen. split; [|split].
  - rewrite member_ratio_parties. apply keys_of_NoDup.
  - apply member_ratio_total.
  - intros h Hh.
    destruct (in_member_ratio members h Hh) as [Hpos _].
    pose proof (member_count_le members h Hh) as Hle.
    split; [lia|].
    rewrite (member_ratio_row members h Hh).
    apply ratio_unit_interval; lia.
Qed.

Lemma filter_unique_key {A : Type} (f : A -> string) (k : string) (l : list A) :
  List.NoDup (map f l) ->
  (length (List.filter (fun x => String.eqb k (f x)) l) <= 1)%nat.
Proof.
  induction l as [|x l IH]; intros Hnd; simpl; [lia|].
  inversion Hnd as [|y ys Hnotin Hnd']; subst.
  destruct (String.eqb k (f x)) eqn:E; [|apply IH; exact Hnd'].
  apply String.eqb_eq in E. subst k. simpl.
  assert (Hnone : List.filter (fun y => String.eqb (f x) (f y)) l = []).
  { destruct (List.filter _ l) as [|y rest] eqn:Ef; [reflexivity|].
    exfalso. assert (Hy : In y (List.filter (fun y => String.eqb (f x) (f y)) l))
      by (rewrite Ef; left; reflexivity).
    apply filter_In in Hy as [Hy Q]. apply String.eqb_eq in Q.
    apply Hnotin. rewrite Q. apply in_map. exact Hy. }
  rewrite Hnone. simpl. lia.
Qed.

(** X11. The left merge keeps the parties of [data] one for one: when the
    party names of the headcount table are pairwise distinct, the result
    has exactly the rows of [data], in the same order, each with its
    BILL_COUNT; no party is dropped and none is repeated, whether or not
    it has a headcount. *)
Theorem per_capita_keeps_every_party (data : list (string * Z))
    (member_ratio : list headcount) :
  List.NoDup (map h_POLY_NM member_ratio) ->
  map (fun r => (p_POLY_NM r, BILL_COUNT r)) (per_capita data member_ratio)
  = data.
Proof.
  intros Hnd. unfold per_capita.
  induction data as [|[p c] data IH]; [reflexivity|].
  cbn [flat_map]. rewrite map_app, IH. clear IH. cbn [fst snd].
  pose proof (filter_unique_key h_POLY_NM p member_ratio Hnd) as H1.
  destruct (List.filter _ member_ratio) as [|h [|h' rest]];
    [reflexivity | reflexivity | simpl in H1; lia].
Qed.

(** X12. In the cell itself no RATIO is NaN: the parties of [data] are read
    from the member frame through the inner join, so every row has a
    headcount of at least one member, a BILL_COUNT of at least one bill,
    and RATIO is a finite positive number.  (The joined lead proposals and
    the members are taken to be fewer than 2^63.) *)
Theorem party_ratio_is_a_positive_number
    (proposers : list Proposers.proposer) (members : list Members.member)
    (bills : list Bills.bill) (row : party_row) :
  Z.of_nat (length members) < 2 ^ 63 ->
  Z.of_nat (length (lead_props (bill_props proposers members bills))) < 2 ^ 63 ->
  In row (party_ratio proposers members bills) ->
  (exists m, p_MEMBER_COUNT row = Some m /\ 1 <= m) /\
  1 <= BILL_COUNT row /\
  exists q, RATIO row = Fin q /\ (0 < q)%Q.
Proof.
  intros Hm Hl Hrow.
  destruct (party_ratio_always_matched _ _ _ _ Hrow) as (m & Em & Hmpos).
  unfold party_ratio in Hrow.
  apply in_per_capita in Hrow as ([p c] & Hd & H). cbn [fst snd] in H.
  assert (Hc : 1 <= c <= 2 ^ 63).
  { unfold bill_counts in Hd. apply in_map_iff in Hd as ([k g] & E & Hg).
    injection E as <- <-. apply in_groupby in Hg as [Hk ->].
    rewrite length_map.
    pose proof (filter_length_le (fun r => opt_eqb (Some (POLY_NM r)) k)
                  (lead_props (bill_props proposers members bills))) as Hle.
    apply in_map_iff in Hk as (r & Hr & Hin).
    assert (Hg : In r (List.filter (fun r => opt_eqb (Some (POLY_NM r)) k)
                         (lead_props (bill_props proposers members bills)))).
    { apply filter_In. split; [exact Hin|]. apply opt_eqb_Some. exact Hr. }
    destruct (List.filter _ (lead_props _)); [destruct Hg|].
    simpl length in *. lia. }
  destruct H as [[_ ->] | (h & Hh & _ & ->)]; [discriminate Em|].
  cbn [p_MEMBER_COUNT BILL_COUNT RATIO] in *. injection Em as <-.
  assert (Hmle : MEMBER_COUNT h <= 2 ^ 63).
  { pose proof (member_count_le members h Hh). lia. }
  split; [exists (MEMBER_COUNT h); split; [reflexivity | lia]|].
  split; [lia|].
  destruct (f64_of_Z_range c Hc) as (qc & Ec & Hqc).
  destruct (f64_of_Z_range (MEMBER_COUNT h)) as (qm & Eqm & Hqm); [lia|].
  rewrite Ec, Eqm. simpl f64_div.
  rewrite Qeq_bool_pos by lra.
  assert (B63 : (0 < inject_Z (2 ^ 63))%Q) by reflexivity.
  assert (Hlow : (1 / inject_Z (2 ^ 63) <= qc / qm)%Q).
  { apply Qle_shift_div_l; [lra|].
    apply Qle_trans with (1 / inject_Z (2 ^ 63) * inject_Z (2 ^ 63))%Q.
    - apply Qmult_le_l; [apply Qlt_shift_div_l; [exact B63 | lra] | lra].
    - unfold Qdiv. rewrite <- Qmult_assoc, (Qmult_comm (/ _)), Qmult_inv_r, Qmult_1_r
        by (intros C; rewrite C in B63; discriminate).
      lra. }
  assert (Hhigh : (qc / qm <= inject_Z (2 ^ 63))%Q).
  { apply Qle_shift_div_r; [lra|].
    apply Qle_trans with (inject_Z (2 ^ 63) * 1)%Q; [lra|].
    apply Qmult_le_l; [exact B63 | lra]. }
  assert (Hlow0 : (0 <= 1 / inject_Z (2 ^ 63))%Q).
  { apply Qle_shift_div_l; [exact B63 | lra]. }
  pose proof (rn64_mono _ _ Hlow0 Hlow) as Lo.
  pose proof (rn64_mono (qc / qm) _ ltac:(lra) Hhigh) as Hi.
  replace (rn64 (1 / inject_Z (2 ^ 63))) with (Fin (1 / inject_Z (2 ^ 63))) in Lo
    by (vm_compute; reflexivity).
  replace (rn64 (inject_Z (2 ^ 63))) with (Fin (inject_Z (2 ^ 63))) in Hi
    by (vm_compute; reflexivity).
  destruct (rn64 (qc / qm)) as [q|[|]|]; simpl in Lo, Hi; try discriminate.
  exists q. split; [reflexivity|].
  apply Qle_bool_iff in Lo.
  eapply Qlt_le_trans; [|exact Lo]. reflexivity.
Qed.

End HeadcountFacts.

Lemma member_ratio_partitions_members_witness :
  List.NoDup
    (map PerCapita.h_POLY_NM
       (PerCapita.member_ratio
          [Members.Member "M1" "가당"; Members.Member "M2" "나당";
           Members.Member "M3" "가당"]%string)).
Proof.
  apply member_ratio_partitions_members. vm_compute. reflexivity.
Defined.

Lemma per_capita_keeps_every_party_witness :
  map (fun r => (PerCapita.p_POLY_NM r, PerCapita.BILL_COUNT r))
      (PerCapita.per_capita [("가당", 7); ("나당", 3)]%string
         [PerCapita.Headcount "가당" 10 (Fin 1)])
  = [("가당", 7); ("나당", 3)]%string.
Proof.
  apply per_capita_keeps_every_party.
  constructor; [intros []|constructor].
Defined.

Lemma party_ratio_is_a_positive_number_witness :
  exists q,
    PerCapita.RATIO (PerCapita.PartyRow "가당" 1 (Some 2) (Fin (1 # 2))) = Fin q /\
    (0 < q)%Q.
Proof.
  apply (party_ratio_is_a_positive_number
           [Proposers.Proposer "B1" "M1" "의원대표";
            Proposers.Proposer "B1" "M2" "의원공동"]%string
           [Members.Member "M1" "가당"; Members.Member "M2" "가당"]%string
           [Bills.Bill "B1" "x" None "원안가결"]%string).
  - vm_compute. reflexivity.
  - vm_compute. reflexivity.
  - vm_compute. left. reflexivity.
Defined.

(** ** Counting labels and joining proposers to members *)

Section JoinFacts.
Import CoSponsor JoinedRows.

(** X13. The dict made from [value_counts] maps each label to the number
    of times it occurs in the column, and has no entry for a label that
    does not occur. *)
Theorem value_counts_counts_occurrences (xs : list string) (x : string) :
  value_counts xs !! x
  = if (count_occ string_dec xs x =? 0)%nat then None
    else Some (count_occ string_dec xs x).
Proof.
  induction xs as [|y xs IH]; [apply lookup_empty|].
  cbn [value_counts fold_right count_occ].
  change (fold_right (fun x m => <[x := S (default O (m !! x))]> m) ∅ xs)
    with (value_counts xs).
  destruct (string_dec y x) as [->|Hne].
  - rewrite lookup_insert_eq, IH.
    destruct (count_occ string_dec xs x); reflexivity.
  - rewrite lookup_insert_ne by exact Hne. exact IH.
Qed.

Lemma filter_members_unique (members : list Members.member) (id : string) :
  List.NoDup (map Members.MONA_CD members) ->
  (length (List.filter (fun m => String.eqb id (Members.MONA_CD m)) members)
   = if isin id (map Members.MONA_CD members) then 1 else 0)%nat.
Proof.
  intros Hnd.
  pose proof (filter_unique_key Members.MONA_CD id members Hnd) as Hle.
  destruct (isin id (map Members.MONA_CD members)) eqn:E.
  - apply isin_In, in_map_iff in E as (m & Hm & Hin).
    assert (Hf : In m (List.filter (fun m => String.eqb id (Members.MONA_CD m))
                                   members)).
    { apply filter_In. split; [exact Hin|]. apply String.eqb_eq. auto. }
    destruct (List.filter _ members) as [|m' [|m'' rest]];
      [destruct Hf | reflexivity | simpl in Hle; lia].
  - destruct (List.filter _ members) as [|m rest] eqn:Ef; [reflexivity|].
    assert (Hf : In m (List.filter (fun m => String.eqb id (Members.MONA_CD m))
                                   members)) by (rewrite Ef; left; reflexivity).
    apply filter_In in Hf as [Hin Q]. apply String.eqb_eq in Q.
    assert (C : isin id (map Members.MONA_CD members) = true).
    { apply isin_In. rewrite Q. apply in_map. exact Hin. }
    congruence.
Qed.

(** X14. With pairwise distinct member identifiers the inner join neither
    drops nor repeats a matched proposer: the proposer columns of the
    joined frame are exactly the proposer rows whose PROPOSER_ID is some
    member's MONA_CD, in their order; a proposer without a member record
    gives no row. *)
Theorem merge_members_keeps_matched_proposers
    (proposers : list Proposers.proposer) (members : list Members.member) :
  List.NoDup (map Members.MONA_CD members) ->
  map proposer_of (merge_members proposers members)
  = List.filter (has_member members) proposers.
Proof.
  intros Hnd. unfold merge_members, has_member.
  induction proposers as [|p proposers IH]; [reflexivity|].
  cbn [flat_map List.filter]. rewrite map_app, IH. clear IH.
  pose proof (filter_members_unique members (Proposers.PROPOSER_ID p) Hnd) as H1.
  destruct (isin (Proposers.PROPOSER_ID p) (map Members.MONA_CD members)).
  - destruct (List.filter _ members) as [|m [|m' rest]]; try discriminate H1.
    destruct p. reflexivity.
  - destruct (List.filter _ members) as [|m rest]; [reflexivity | discriminate H1].
Qed.

End JoinFacts.

Lemma merge_members_keeps_matched_proposers_witness :
  map JoinedRows.proposer_of
      (CoSponsor.merge_members
         [Proposers.Proposer "B1" "M1" "의원대표";
          Proposers.Proposer "B1" "M9" "의원공동";
          Proposers.Proposer "B2" "M2" "의원대표"]%string
         [Members.Member "M1" "가당"; Members.Member "M2" "나당"]%string)
  = List.filter
      (JoinedRows.has_member
         [Members.Member "M1" "가당"; Members.Member "M2" "나당"]%string)
      [Proposers.Proposer "B1" "M1" "의원대표";
       Proposers.Proposer "B1" "M9" "의원공동";
       Proposers.Proposer "B2" "M2" "의원대표"]%string.
Proof.
  apply merge_members_keeps_matched_proposers.
  constructor; [|constructor; [|constructor]]; simpl; intuition discriminate.
Defined.

(** ** The dashboard's view state *)

Section DashboardFacts.
Import Dashboard.
Variable member : Type.

(** X15. A member is selected only under the member tab: in every state
    the dashboard can reach from its initial one by tab clicks, member
    clicks and age changes, [selectedMember] is null unless [activeTab] is
    'member-stats'. *)
Theorem selected_member_only_on_member_tab (s : state member) :
  reachable member s ->
  selectedMember s <> None -> activeTab s = member_stats.
Proof.
  induction 1 as [|s s' _ IH Hstep]; [intros C; destruct C; reflexivity|].
  destruct Hstep as [s tab | s m Ht | s age Ht | s m Ht | s age Ht]; simpl.
  - destruct tab; intros C; try reflexivity; destruct C; reflexivity.
  - reflexivity.
  - intros C. destruct C. reflexivity.
  - intros _. exact Ht.
  - intros C. destruct C. reflexivity.
Qed.

End DashboardFacts.

Lemma selected_member_only_on_member_tab_witness :
  Dashboard.activeTab
    (Dashboard.setSelectedMember nat (Some 7%nat)
       (Dashboard.handleTabChange nat Dashboard.member_stats
          (Dashboard.initial nat)))
  = Dashboard.member_stats.
Proof.
  apply (selected_member_only_on_member_tab nat).
  - eapply Dashboard.reach_step.
    + eapply Dashboard.reach_step; [apply Dashboard.reach_initial|].
      apply Dashboard.click_tab.
    + apply Dashboard.member_page_select. reflexivity.
  - discriminate.
Defined.

(** ** Frontend utilities *)

Section UtilsFacts.
Import Utils.

Lemma split_nonempty (sep : N) (s : jsstring) : split sep s <> [].
Proof.
  destruct s as [|c s]; simpl; [discriminate|].
  destruct (N.eqb c sep); [discriminate|].
  destruct (split sep s); discriminate.
Qed.

Lemma last_cons_nonempty {A : Type} (x : A) (l : list A) (d : A) :
  l <> [] -> List.last (x :: l) d = List.last l d.
Proof. destruct l; [contradiction | reflexivity]. Qed.

Lemma split_last_no_sep (sep : N) (s : jsstring) :
  ~ In sep (List.last (split sep s) []).
Proof.
  induction s as [|c s IH]; simpl; [tauto|].
  destruct (N.eqb c sep) eqn:E.
  - rewrite last_cons_nonempty by apply split_nonempty. exact IH.
  - apply N.eqb_neq in E.
    destruct (split sep s) as [|seg rest] eqn:Es; [simpl; intuition congruence|].
    destruct rest as [|seg' rest'].
    + simpl in *. intros [C | C]; [congruence | exact (IH C)].
    + exact IH.
Qed.

Lemma split_no_sep (sep : N) (s : jsstring) :
  ~ In sep s -> split sep s = [s].
Proof.
  induction s as [|c s IH]; intros H; simpl; [reflexivity|].
  destruct (N.eqb c sep) eqn:E.
  - apply N.eqb_eq in E. exfalso. apply H. left. exact E.
  - rewrite IH; [reflexivity|]. intros C. apply H. right. exact C.
Qed.

Lemma split_trailing (sep : N) (s : jsstring) :
  split sep (s ++ [sep]) = split sep s ++ [[]].
Proof.
  induction s as [|c s IH]; [simpl; rewrite N.eqb_refl; reflexivity|].
  simpl. destruct (N.eqb c sep).
  - rewrite IH. reflexivity.
  - rewrite IH. destruct (split sep s) as [|seg rest] eqn:Es;
      [destruct (split_nonempty _ _ Es) | reflexivity].
Qed.

Lemma split_last_trailing (sep : N) (s : jsstring) :
  List.last (split sep (s ++ [sep])) [] = [].
Proof. rewrite split_trailing. apply last_last. Qed.

Lemma independent_no_slash : ~ In slash independent.
Proof. unfold independent, slash. simpl. intuition discriminate. Qed.

Lemma short_name_plain (s : jsstring) :
  s <> [] -> ~ In slash s -> getShortPartyName (Some s) = s.
Proof.
  intros Hne Hns. unfold getShortPartyName.
  destruct s as [|c s]; [contradiction|].
  rewrite (split_no_sep slash (c :: s) Hns). reflexivity.
Qed.

(** X16. [getShortPartyName] always returns a usable label: it is never
    empty and never contains '/'; it is '무소속' for an undefined or empty
    name and for a name that ends with '/'; a name without '/' is
    returned as it is, so applying the function twice changes nothing. *)
Theorem short_party_name_is_a_label (fullPartyName : option jsstring) :
  getShortPartyName fullPartyName <> [] /\
  ~ In slash (getShortPartyName fullPartyName) /\
  getShortPartyName (Some (getShortPartyName fullPartyName))
  = getShortPartyName fullPartyName /\
  (forall s, fullPartyName = Some s -> s <> [] -> ~ In slash s ->
     getShortPartyName fullPartyName = s) /\
  (forall s, fullPartyName = Some (s ++ [slash]) ->
     getShortPartyName fullPartyName = independent) /\
  (fullPartyName = None \/ fullPartyName = Some [] ->
     getShortPartyName fullPartyName = independent).
Proof.
  assert (Hne : getShortPartyName fullPartyName <> []).
  { unfold getShortPartyName.
    destruct fullPartyName as [[|c s]|]; try discriminate.
    destruct (List.last (split slash (c :: s)) []); discriminate. }
  assert (Hns : ~ In slash (getShortPartyName fullPartyName)).
  { unfold getShortPartyName.
    destruct fullPartyName as [[|c s]|]; try apply independent_no_slash.
    pose proof (split_last_no_sep slash (c :: s)) as H.
    destruct (List.last (split slash (c :: s)) []) as [|d short];
      [apply independent_no_slash | exact H]. }
  split; [exact Hne|]. split; [exact Hns|].
  split; [apply short_name_plain; assumption|]. split; [|split].
  - intros s -> Hs Hslash. apply short_name_plain; assumption.
  - intros s ->. unfold getShortPartyName.
    rewrite split_last_trailing. destruct (s ++ [slash]); reflexivity.
  - intros [-> | ->]; reflexivity.
Qed.

Lemma slice_prefix {A : Type} (l : list A) (n : Z) :
  0 <= n <= Z.of_nat (length l) -> slice l 0 n = firstn (Z.to_nat n) l.
Proof.
  intros H. unfold slice, relative.
  destruct (0 <? 0) eqn:E0; [discriminate|].
  destruct (n <? 0) eqn:En; [apply Z.ltb_lt in En; lia|].
  rewrite !Z.min_l by lia. simpl skipn. f_equal. lia.
Qed.

Lemma slice_drop_end {A : Type} (l : list A) (n : Z) :
  n < 0 ->
  slice l 0 n = firstn (Z.to_nat (Z.max (Z.of_nat (length l) + n) 0)) l.
Proof.
  intros H. unfold slice, relative.
  destruct (0 <? 0) eqn:E0; [discriminate|].
  rewrite (proj2 (Z.ltb_lt n 0) H).
  rewrite Z.min_l by lia. simpl skipn. f_equal. lia.
Qed.

(** X17. [truncateText] with a limit the text fits in returns the text.
    With a limit [0 <= maxLength < text.length] it returns the first
    [maxLength] code units followed by "...", [maxLength + 3] units in all,
    which is longer than the text itself when the text exceeds the limit by
    one or two units.  With a negative limit it drops that many units from
    the end of the text and still appends "...". *)
Theorem truncateText_cases (text : jsstring) (maxLength : Z) :
  (Z.of_nat (length text) <= maxLength -> truncateText text maxLength = text) /\
  (0 <= maxLength < Z.of_nat (length text) ->
     truncateText text maxLength = firstn (Z.to_nat maxLength) text ++ ellipsis /\
     Z.of_nat (length (truncateText text maxLength)) = maxLength + 3 /\
     (Z.of_nat (length text) - 3 < maxLength ->
      (length text < length (truncateText text maxLength))%nat)) /\
  (maxLength < 0 ->
     truncateText text maxLength
     = firstn (Z.to_nat (Z.max (Z.of_nat (length text) + maxLength) 0)) text
       ++ ellipsis).
Proof.
  unfold truncateText. split; [|split].
  - intros H. rewrite (proj2 (Z.leb_le _ _) H). reflexivity.
  - intros H. rewrite (proj2 (Z.leb_gt _ _)) by lia.
    rewrite slice_prefix by lia.
    assert (L : Z.of_nat (length (firstn (Z.to_nat maxLength) text ++ ellipsis))
                = maxLength + 3).
    { rewrite length_app, length_firstn. simpl length. lia. }
    split; [reflexivity|]. split; [exact L|]. intros H3. lia.
  - intros H. rewrite (proj2 (Z.leb_gt _ _)) by lia.
    rewrite slice_drop_end by exact H. reflexivity.
Qed.

End UtilsFacts.

Lemma truncateText_cases_witness :
  Utils.truncateText [104; 101; 108; 108; 111]%N 4
  = firstn 4 [104; 101; 108; 108; 111]%N ++ Utils.ellipsis.
Proof.
  destruct (truncateText_cases [104; 101; 108; 108; 111]%N 4) as (_ & H & _).
  destruct H as (E & _); [simpl; lia | exact E].
Defined.

Section ChunkFacts.
Import Utils.
Context {A : Type}.

Lemma slice_window (l : list A) (i s : Z) :
  0 <= i < Z.of_nat (length l) -> 1 <= s ->
  slice l i (i + s) = firstn (Z.to_nat s) (skipn (Z.to_nat i) l).
Proof.
  intros Hi Hs. unfold slice, relative.
  rewrite (proj2 (Z.ltb_ge i 0)) by lia.
  rewrite (proj2 (Z.ltb_ge (i + s) 0)) by lia.
  rewrite (Z.min_l i) by lia.
  destruct (Z.le_gt_cases (i + s) (Z.of_nat (length l))) as [Hle | Hgt].
  - rewrite Z.min_l by lia. f_equal. lia.
  - rewrite Z.min_r by lia.
    rewrite !firstn_all2; try reflexivity; rewrite length_skipn; lia.
Qed.

Lemma chunk_loop_ends (array : list A) (chunkSize : Z) (n : nat) :
  1 <= chunkSize ->
  forall (i : Z) (chunks : list (list A)),
    0 <= i -> Z.of_nat (length array) - i <= Z.of_nat n ->
    exists rest,
      (forall fuel, (n < fuel)%nat ->
         chunk_loop fuel array chunkSize i chunks = Some (chunks ++ rest)) /\
      concat rest = skipn (Z.to_nat i) array /\
      Forall (fun c => (1 <= length c)%nat /\ Z.of_nat (length c) <= chunkSize) rest /\
      Forall (fun c => Z.of_nat (length c) = chunkSize) (removelast rest).
Proof.
  intros Hs. induction n as [|n IH]; intros i chunks Hi Hn.
  - exists []. repeat split; try constructor.
    + intros fuel Hf. destruct fuel as [|fuel]; [lia|]. simpl.
      rewrite (proj2 (Z.ltb_ge _ _)) by lia. rewrite app_nil_r. reflexivity.
    + simpl. symmetry. apply skipn_all2. lia.
  - destruct (Z.lt_ge_cases i (Z.of_nat (length array))) as [Hlt | Hge].
    + destruct (IH (i + chunkSize) (chunks ++ [slice array i (i + chunkSize)]))
        as (rest & Hrun & Hcat & Hlen & Hfull); [lia | lia |].
      assert (Hsl : slice array i (i + chunkSize)
                    = firstn (Z.to_nat chunkSize) (skipn (Z.to_nat i) array))
        by (apply slice_window; lia).
      exists (slice array i (i + chunkSize) :: rest). repeat split.
      * intros fuel Hf. destruct fuel as [|fuel]; [lia|]. simpl.
        rewrite (proj2 (Z.ltb_lt _ _) Hlt).
        rewrite Hrun by lia. rewrite <- app_assoc. reflexivity.
      * simpl. rewrite Hcat, Hsl.
        replace (Z.to_nat (i + chunkSize))
          with (Z.to_nat chunkSize + Z.to_nat i)%nat by lia.
        rewrite <- skipn_skipn. apply firstn_skipn.
      * constructor; [|exact Hlen].
        rewrite Hsl, length_firstn, length_skipn. split; lia.
      * destruct rest as [|c rest']; [constructor|].
        change (removelast (slice array i (i + chunkSize) :: c :: rest'))
          with (slice array i (i + chunkSize) :: removelast (c :: rest')).
        constructor; [|exact Hfull].
        assert (Hc : (1 <= length c)%nat)
          by (inversion Hlen as [|? ? [H1 _] _]; exact H1).
        assert (Hrem : (1 <= length (skipn (Z.to_nat (i + chunkSize)) array))%nat).
        { rewrite <- Hcat. simpl. rewrite length_app. lia. }
        rewrite length_skipn in Hrem.
        rewrite Hsl, length_firstn, length_skipn. lia.
    + exists []. repeat split; try constructor.
      * intros fuel Hf. destruct fuel as [|fuel]; [lia|]. simpl.
        rewrite (proj2 (Z.ltb_ge _ _)) by lia. rewrite app_nil_r. reflexivity.
      * simpl. symmetry. apply skipn_all2. lia.
Qed.

Lemma chunk_loop_never_ends (array : list A) (chunkSize : Z) (fuel : nat) :
  chunkSize <= 0 -> array <> [] ->
  forall (i : Z) (chunks : list (list A)),
    i <= 0 -> chunk_loop fuel array chunkSize i chunks = None.
Proof.
  intros Hs Hne. induction fuel as [|fuel IH]; intros i chunks Hi; [reflexivity|].
  simpl. assert (Hlen : (0 < length array)%nat)
    by (destruct array; [contradiction | simpl; lia]).
  rewrite (proj2 (Z.ltb_lt _ _)) by lia. apply IH. lia.
Qed.

(** X18. With a chunk size of at least one, the loop of [chunkArray] ends
    after at most [array.length] rounds, and the chunks it returns, joined
    in order, give the array back; no chunk is empty, none is longer than
    the chunk size, and all but the last have exactly that size. *)
Theorem chunkArray_splits_the_array (array : list A) (chunkSize : Z) :
  1 <= chunkSize ->
  exists chunks,
    (forall fuel, (length array < fuel)%nat ->
       chunkArray fuel array chunkSize = Some chunks) /\
    concat chunks = array /\
    Forall (fun c => (1 <= length c)%nat /\ Z.of_nat (length c) <= chunkSize) chunks /\
    Forall (fun c => Z.of_nat (length c) = chunkSize) (removelast chunks).
Proof.
  intros Hs.
  destruct (chunk_loop_ends array chunkSize (length array) Hs 0 [])
    as (rest & Hrun & Hcat & Hlen & Hfull); [lia | lia |].
  exists rest. repeat split; assumption.
Qed.

(** X19. With a chunk size of zero or less, [chunkArray] on an array that
    is not empty never returns: the index never passes the end of the
    array, whatever number of rounds is allowed. *)
Theorem chunkArray_never_returns (array : list A) (chunkSize : Z) :
  chunkSize <= 0 -> array <> [] ->
  forall fuel, chunkArray fuel array chunkSize = None.
Proof.
  intros Hs Hne fuel. apply chunk_loop_never_ends; [assumption | assumption | lia].
Qed.

End ChunkFacts.

Lemma short_party_name_is_a_label_witness :
  Utils.getShortPartyName (Some [97; 47; 98]%N) <> [] /\
  Utils.getShortPartyName (Some [98]%N) = [98]%N /\
  Utils.getShortPartyName (Some [97; 47]%N) = Utils.independent /\
  Utils.getShortPartyName None = Utils.independent /\
  Utils.getShortPartyName (Some []) = Utils.independent.
Proof.
  split; [|split; [|split; [|split]]].
  - exact (proj1 (short_party_name_is_a_label (Some [97; 47; 98]%N))).
  - destruct (short_party_name_is_a_label (Some [98]%N)) as (_ & _ & _ & H & _).
    apply H; [reflexivity | discriminate |].
    unfold Utils.slash. simpl. intuition discriminate.
  - destruct (short_party_name_is_a_label (Some [97; 47]%N))
      as (_ & _ & _ & _ & H & _).
    apply (H [97]%N). reflexivity.
  - destruct (short_party_name_is_a_label None) as (_ & _ & _ & _ & _ & H).
    apply H. left. reflexivity.
  - destruct (short_party_name_is_a_label (Some [])) as (_ & _ & _ & _ & _ & H).
    apply H. right. reflexivity.
Defined.

Lemma chunkArray_splits_the_array_witness :
  exists chunks,
    Utils.chunkArray 6 [1; 2; 3; 4; 5]%nat 2 = Some chunks /\
    concat chunks = [1; 2; 3; 4; 5]%nat.
Proof.
  destruct (chunkArray_splits_the_array [1; 2; 3; 4; 5]%nat 2) as (chunks & Hrun & Hcat & _);
    [lia|].
  exists chunks. split; [apply Hrun; simpl; lia | exact Hcat].
Defined.

Lemma chunkArray_never_returns_witness :
  Utils.chunkArray 1000 [1; 2; 3]%nat 0 = None.
Proof.
  apply chunkArray_never_returns; [lia | discriminate].
Defined.

(** ** The statistics hooks: sorting *)

Section SortFacts.
Context {A : Type}.

Lemma sort_insert_Permutation (compare : A -> A -> Z) (x : A) (l : list A) :
  Permutation (x :: l) (sort_insert compare x l).
Proof.
  induction l as [|y l IH]; simpl; [reflexivity|].
  destruct (compare x y <=? 0); [reflexivity|].
  rewrite <- IH. apply perm_swap.
Qed.

Lemma array_sort_Permutation (compare : A -> A -> Z) (l : list A) :
  Permutation l (array_sort compare l).
Proof.
  induction l as [|x l IH]; simpl; [reflexivity|].
  rewrite <- sort_insert_Permutation. constructor. exact IH.
Qed.

Variable key : A -> Z.

Lemma sort_insert_sorted (x : A) (l : list A) :
  StronglySorted (fun a b => key b <= key a) l ->
  StronglySorted (fun a b => key b <= key a)
                 (sort_insert (fun a b => key b - key a) x l).
Proof.
  induction 1 as [|y l Hl IH Hy]; simpl; [repeat constructor|].
  destruct (key y - key x <=? 0) eqn:E.
  - apply Z.leb_le in E. constructor; [constructor; assumption|].
    constructor; [lia|].
    rewrite List.Forall_forall in Hy |- *. intros b Hb. specialize (Hy b Hb). lia.
  - apply Z.leb_gt in E. constructor; [exact IH|].
    rewrite List.Forall_forall in Hy |- *. intros b Hb.
    apply (Permutation_in _ (Permutation_sym (sort_insert_Permutation _ x l))) in Hb.
    destruct Hb as [<- | Hb]; [lia | exact (Hy b Hb)].
Qed.

Lemma array_sort_sorted (l : list A) :
  StronglySorted (fun a b => key b <= key a)
                 (array_sort (fun a b => key b - key a) l).
Proof.
  induction l as [|x l IH]; simpl; [constructor|].
  apply sort_insert_sorted. exact IH.
Qed.

Lemma sort_insert_stable (c : Z) (x : A) (l : list A) :
  List.filter (fun a => key a =? c) (sort_insert (fun a b => key b - key a) x l)
  = List.filter (fun a => key a =? c) (x :: l).
Proof.
  induction l as [|y l IH]; [reflexivity|].
  cbn [sort_insert]. destruct (key y - key x <=? 0) eqn:E; [reflexivity|].
  apply Z.leb_gt in E. cbn [List.filter] in *. rewrite IH.
  destruct (key y =? c) eqn:Ey, (key x =? c) eqn:Ex; try reflexivity.
  apply Z.eqb_eq in Ey, Ex. lia.
Qed.

Lemma array_sort_stable (c : Z) (l : list A) :
  List.filter (fun a => key a =? c) (array_sort (fun a b => key b - key a) l)
  = List.filter (fun a => key a =? c) l.
Proof.
  induction l as [|x l IH]; [reflexivity|].
  cbn [array_sort fold_right]. rewrite sort_insert_stable.
  cbn [List.filter]. fold (array_sort (fun a b => key b - key a) l).
  rewrite IH. reflexivity.
Qed.

Lemma sorted_head_dominates (R : A -> A -> Prop) (l : list A) (n : nat) :
  StronglySorted R l ->
  forall t b, In t (firstn n l) -> In b (skipn n l) -> R t b.
Proof.
  intros H. revert n. induction H as [|y l Hl IH Hy]; intros n t b Ht Hb.
  - rewrite firstn_nil in Ht. destruct Ht.
  - destruct n as [|n]; [destruct Ht|]. simpl in Ht, Hb.
    destruct Ht as [<- | Ht].
    + rewrite List.Forall_forall in Hy. apply Hy.
      rewrite <- (firstn_skipn n l). apply in_or_app. right. exact Hb.
    + exact (IH n t b Ht Hb).
Qed.

Lemma slice_first (l : list A) (n : Z) :
  0 <= n -> Utils.slice l 0 n = firstn (Z.to_nat n) l.
Proof.
  intros Hn. destruct (Z.le_gt_cases n (Z.of_nat (length l))) as [H | H].
  - apply slice_prefix. lia.
  - unfold Utils.slice, Utils.relative.
    destruct (0 <? 0) eqn:E0; [discriminate|].
    rewrite (proj2 (Z.ltb_ge n 0)) by lia.
    rewrite (Z.min_l 0), (Z.min_r n) by lia. simpl skipn.
    rewrite !firstn_all2; [reflexivity | lia | rewrite length_skipn; lia].
Qed.

End SortFacts.

(** X20. [useTopBills] sorts the array it is given in place: afterwards
    the caller's array holds the same bills by falling [bill_count], bills
    of equal count in their former order.  The value returned is made of
    the first three of them (all, when there are fewer), and no bill left
    out has a higher count than one taken. *)
Theorem useTopBills_sorts_in_place_and_takes_three
    (bills : list Hooks.BillStatisticsResponse) :
  let after := fst (Hooks.useTopBills bills) in
  let top := snd (Hooks.useTopBills bills) in
  Permutation bills after /\
  StronglySorted (fun a b => Hooks.bill_count b <= Hooks.bill_count a) after /\
  (forall c, List.filter (fun a => Hooks.bill_count a =? c) after
             = List.filter (fun a => Hooks.bill_count a =? c) bills) /\
  top = map Hooks.top_bill (firstn 3 after) /\
  length top = Nat.min 3 (length bills) /\
  (forall t b, In t (firstn 3 after) -> In b (skipn 3 after) ->
     Hooks.bill_count b <= Hooks.bill_count t).
Proof.
  cbn zeta. unfold Hooks.useTopBills. cbn [fst snd].
  set (after := array_sort _ bills).
  assert (P : Permutation bills after) by apply array_sort_Permutation.
  assert (S : StronglySorted
                (fun a b => Hooks.bill_count b <= Hooks.bill_count a) after)
    by apply (array_sort_sorted Hooks.bill_count).
  split; [exact P|]. split; [exact S|].
  split; [intros c; apply (array_sort_stable Hooks.bill_count)|].
  rewrite slice_first by lia. split; [reflexivity|]. split.
  - rewrite length_map, length_firstn, (Permutation_length P). reflexivity.
  - intros t b Ht Hb.
    exact (sorted_head_dominates _ after 3 S t b Ht Hb).
Qed.

(** ** The statistics hooks: averages to one decimal *)

Lemma Qfloor_half (z : Z) : Qfloor (inject_Z z + (1 # 2)) = z.
Proof.
  apply Z.le_antisymm.
  - destruct (Z.le_gt_cases (Qfloor (inject_Z z + (1 # 2))) z) as [H | H]; [exact H|].
    exfalso.
    assert (H1 : z + 1 <= Qfloor (inject_Z z + (1 # 2))) by lia.
    rewrite Zle_Qle, inject_Z_plus in H1.
    pose proof (Qfloor_le (inject_Z z + (1 # 2))) as H2.
    change (inject_Z 1) with 1%Q in H1. lra.
  - rewrite <- (Qfloor_Z z) at 1. apply Qfloor_resp_le. lra.
Qed.

Lemma math_round_int (z : Z) :
  math_round (Fin (inject_Z z)) = Fin (inject_Z z).
Proof. unfold math_round. rewrite Qfloor_half. reflexivity. Qed.

Lemma math_round_mono (x y : float64) :
  f64_nn x -> f64_leb x y = true ->
  f64_nn (math_round x) /\ f64_leb (math_round x) (math_round y) = true.
Proof.
  intros Hx Hxy.
  destruct x as [a|[|]|]; try discriminate Hx;
  destruct y as [b|[|]|]; try discriminate Hxy; cbn [math_round]; auto.
  - apply f64_nn_Fin in Hx. cbn [f64_leb] in Hxy. apply Qle_bool_iff in Hxy.
    split.
    + apply f64_nn_Fin. change 0%Q with (inject_Z 0). rewrite <- Zle_Qle.
      rewrite <- (Qfloor_Z 0). apply Qfloor_resp_le.
      change (inject_Z 0) with 0%Q. lra.
    + cbn [f64_leb]. apply Qle_bool_iff. rewrite <- Zle_Qle.
      apply Qfloor_resp_le. lra.
  - apply f64_nn_Fin in Hx. split; [|reflexivity].
    apply f64_nn_Fin. change 0%Q with (inject_Z 0). rewrite <- Zle_Qle.
    rewrite <- (Qfloor_Z 0). apply Qfloor_resp_le.
    change (inject_Z 0) with 0%Q. lra.
Qed.

Lemma ten_literal : f64_literal 10 = Fin (inject_Z 10).
Proof.
  change (f64_literal 10) with (f64_of_Z 10).
  apply f64_of_Z_exact. split; [lia | vm_compute; discriminate].
Qed.

Lemma one_decimal_mono (x y : float64) :
  f64_nn x -> f64_leb x y = true ->
  f64_nn (Hooks.one_decimal x) /\
  f64_leb (Hooks.one_decimal x) (Hooks.one_decimal y) = true.
Proof.
  intros Hx Hxy. unfold Hooks.one_decimal. rewrite ten_literal.
  assert (H10 : (0 < inject_Z 10)%Q) by reflexivity.
  destruct (f64_mul_mono x y _ H10 Hx Hxy) as [M1 M2].
  destruct (math_round_mono _ _ M1 M2) as [R1 R2].
  exact (f64_div_mono _ _ _ H10 R1 R2).
Qed.

Lemma one_decimal_int (z : Z) :
  0 <= z -> 10 * z <= 2 ^ 53 ->
  Hooks.one_decimal (Fin (inject_Z z)) = Fin (inject_Z z).
Proof.
  intros H0 H53. unfold Hooks.one_decimal. rewrite ten_literal.
  cbn [f64_mul].
  rewrite (rn64_comp _ (inject_Z (z * 10))) by (rewrite inject_Z_mult; reflexivity).
  change (rn64 (inject_Z (z * 10))) with (f64_of_Z (z * 10)).
  rewrite f64_of_Z_exact by lia. rewrite math_round_int.
  unfold f64_div. rewrite (Qeq_bool_pos (inject_Z 10)) by reflexivity.
  rewrite (rn64_comp _ (inject_Z z)).
  - change (rn64 (inject_Z z)) with (f64_of_Z z). apply f64_of_Z_exact. lia.
  - rewrite inject_Z_mult. field.
Qed.

Lemma f64_between (x : float64) (lo hi : Q) :
  f64_leb (Fin lo) x = true -> f64_leb x (Fin hi) = true ->
  exists q, x = Fin q /\ (lo <= q <= hi)%Q.
Proof.
  intros Hl Hh. destruct x as [q|[|]|]; try discriminate.
  exists q. split; [reflexivity|].
  cbn [f64_leb] in Hl, Hh. apply Qle_bool_iff in Hl, Hh. split; assumption.
Qed.

(** The mean of [n] values whose exact sum [s] lies between [lo * n] and
    [hi * n], rounded to one decimal. *)
Lemma mean_between (s : Q) (n lo hi : Z) :
  1 <= n <= 2 ^ 53 -> 0 <= lo -> 10 * hi <= 2 ^ 53 ->
  (inject_Z (lo * n) <= s <= inject_Z (hi * n))%Q ->
  exists q, Hooks.one_decimal (f64_div (Fin s) (f64_of_Z n)) = Fin q /\
            (inject_Z lo <= q <= inject_Z hi)%Q.
Proof.
  intros Hn Hlo Hhi [Hs1 Hs2].
  assert (Hnq : (0 < inject_Z n)%Q).
  { change 0%Q with (inject_Z 0). rewrite <- Zlt_Qlt. lia. }
  assert (Hlh : lo <= hi).
  { assert (H : (inject_Z (lo * n) <= inject_Z (hi * n))%Q) by lra.
    rewrite <- Zle_Qle in H. nia. }
  rewrite (f64_of_Z_exact n) by lia.
  unfold f64_div. rewrite (Qeq_bool_pos _ Hnq).
  rewrite !inject_Z_mult in *.
  assert (Hq0 : (inject_Z lo <= s / inject_Z n)%Q)
    by (apply Qle_shift_div_l; assumption).
  assert (Hq1 : (s / inject_Z n <= inject_Z hi)%Q)
    by (apply Qle_shift_div_r; assumption).
  assert (Hlo0 : (0 <= inject_Z lo)%Q).
  { change 0%Q with (inject_Z 0). rewrite <- Zle_Qle. exact Hlo. }
  assert (Hx0 : (0 <= s / inject_Z n)%Q) by (apply Qle_trans with (inject_Z lo); assumption).
  pose proof (rn64_mono _ _ Hlo0 Hq0) as Lo.
  pose proof (rn64_mono _ _ Hx0 Hq1) as Hi.
  change (rn64 (inject_Z lo)) with (f64_of_Z lo) in Lo.
  change (rn64 (inject_Z hi)) with (f64_of_Z hi) in Hi.
  rewrite (f64_of_Z_exact lo) in Lo by lia.
  rewrite (f64_of_Z_exact hi) in Hi by lia.
  assert (Nlo : f64_nn (Fin (inject_Z lo))) by (apply f64_nn_Fin; exact Hlo0).
  destruct (one_decimal_mono _ _ Nlo Lo) as [_ L1].
  assert (Nx : f64_nn (rn64 (s / inject_Z n))) by (apply rn64_nn; exact Hx0).
  destruct (one_decimal_mono _ _ Nx Hi) as [_ L2].
  rewrite one_decimal_int in L1, L2 by lia.
  exact (f64_between _ _ _ L1 L2).
Qed.

Lemma sum_counts_bounds (count : Hooks.member -> Z) (members : list Hooks.member)
    (lo hi : Z) :
  (forall m, In m members -> lo <= count m <= hi) ->
  lo * Z.of_nat (length members) <= Hooks.sum_counts count members
    <= hi * Z.of_nat (length members).
Proof.
  unfold Hooks.sum_counts. intros H.
  assert (G : forall a,
    a + lo * Z.of_nat (length members)
      <= fold_left (fun sum m => sum + count m) members a
      <= a + hi * Z.of_nat (length members)).
  { induction members as [|m members IH]; intros a; [simpl; lia|].
    cbn [fold_left]. specialize (IH (fun x Hx => H x (or_intror Hx)) (a + count m)).
    pose proof (H m (or_introl eq_refl)) as Hm.
    cbn [length]. lia. }
  specialize (G 0). lia.
Qed.

Lemma sum_rates_bounds (members : list Hooks.member) (lo hi : Z) :
  0 <= lo ->
  (forall m, In m members ->
     f64_leb (Fin (inject_Z lo)) (Hooks.lead_pass_rate m) = true /\
     f64_leb (Hooks.lead_pass_rate m) (Fin (inject_Z hi)) = true) ->
  hi * Z.of_nat (length members) <= 2 ^ 53 ->
  exists s, Hooks.sum_rates members = Fin s /\
    (inject_Z (lo * Z.of_nat (length members)) <= s
       <= inject_Z (hi * Z.of_nat (length members)))%Q.
Proof.
  intros Hlo H H53. unfold Hooks.sum_rates.
  assert (G : forall (k : Z) (a : Q),
    0 <= k -> hi * (k + Z.of_nat (length members)) <= 2 ^ 53 ->
    (inject_Z (lo * k) <= a <= inject_Z (hi * k))%Q ->
    exists s,
      fold_left (fun sum m => f64_add sum (Hooks.lead_pass_rate m)) members (Fin a)
      = Fin s /\
      (inject_Z (lo * (k + Z.of_nat (length members))) <= s
         <= inject_Z (hi * (k + Z.of_nat (length members))))%Q).
  { clear H53. induction members as [|m members IH]; intros k a Hk H53 Ha.
    - exists a. split; [reflexivity|]. cbn [length]. rewrite Z.add_0_r. exact Ha.
    - cbn [fold_left].
      destruct (H m (or_introl eq_refl)) as [Hm1 Hm2].
      destruct (f64_between _ _ _ Hm1 Hm2) as (r & Er & Hr). rewrite Er.
      cbn [f64_add].
      assert (Hlh : lo <= hi).
      { assert (E : (inject_Z lo <= inject_Z hi)%Q) by lra.
        rewrite <- Zle_Qle in E. exact E. }
      assert (Hlo0 : (0 <= inject_Z (lo * (k + 1)))%Q).
      { change 0%Q with (inject_Z 0). rewrite <- Zle_Qle. nia. }
      assert (B1 : (inject_Z (lo * (k + 1)) <= a + r)%Q).
      { replace (lo * (k + 1)) with (lo * k + lo) by lia.
        rewrite inject_Z_plus. lra. }
      assert (B2 : (a + r <= inject_Z (hi * (k + 1)))%Q).
      { replace (hi * (k + 1)) with (hi * k + hi) by lia.
        rewrite inject_Z_plus. lra. }
      pose proof (rn64_mono _ _ Hlo0 B1) as Lo.
      pose proof (rn64_mono _ _ (Qle_trans _ _ _ Hlo0 B1) B2) as Hi.
      change (rn64 (inject_Z (lo * (k + 1)))) with (f64_of_Z (lo * (k + 1))) in Lo.
      change (rn64 (inject_Z (hi * (k + 1)))) with (f64_of_Z (hi * (k + 1))) in Hi.
      cbn [length] in H53.
      rewrite f64_of_Z_exact in Lo by nia.
      rewrite f64_of_Z_exact in Hi by nia.
      destruct (f64_between _ _ _ Lo Hi) as (a' & Ea & Ha'). rewrite Ea.
      destruct (IH (fun x Hx => H x (or_intror Hx)) (k + 1) a') as (s & Es & Hs);
        [lia | lia | exact Ha' |].
      exists s. split; [exact Es|].
      cbn [length].
      replace (k + Z.of_nat (S (length members)))
        with (k + 1 + Z.of_nat (length members)) by lia.
      exact Hs. }
  destruct (G 0 0%Q) as (s & Es & Hs); [lia | exact H53 | |].
  - rewrite !Z.mul_0_r. change (inject_Z 0) with 0%Q. lra.
  - exists s. split; [exact Es | exact Hs].
Qed.

(** X21. [useOverallStats] never divides by zero: with no member both
    averages are 0.  With members whose lead counts (pass rates) all lie
    between two whole numbers [lo] and [hi], [0 <= lo], the average lead
    count (pass rate) is a finite number between [lo] and [hi], so never
    NaN.  (The number of members and [10 * hi] times it are taken to be at
    most 2^53, so that the sums are exact.) *)
Theorem useOverallStats_averages_in_range (members : list Hooks.member)
    (lo hi : Z) :
  (members = [] ->
     Hooks.avgLeadBillCount (Hooks.useOverallStats members) = Fin 0 /\
     Hooks.avgLeadPassRate (Hooks.useOverallStats members) = Fin 0) /\
  (members <> [] -> 0 <= lo ->
   Z.of_nat (length members) <= 2 ^ 53 ->
   10 * hi * Z.of_nat (length members) <= 2 ^ 53 ->
     ((forall m, In m members -> lo <= Hooks.lead_count m <= hi) ->
      exists q,
        Hooks.avgLeadBillCount (Hooks.useOverallStats members) = Fin q /\
        (inject_Z lo <= q <= inject_Z hi)%Q) /\
     ((forall m, In m members ->
         f64_leb (Fin (inject_Z lo)) (Hooks.lead_pass_rate m) = true /\
         f64_leb (Hooks.lead_pass_rate m) (Fin (inject_Z hi)) = true) ->
      exists q,
        Hooks.avgLeadPassRate (Hooks.useOverallStats members) = Fin q /\
        (inject_Z lo <= q <= inject_Z hi)%Q)).
Proof.
  split; [intros ->; split; reflexivity|].
  intros Hne Hlo Hn H53.
  assert (Hlen : 1 <= Z.of_nat (length members))
    by (destruct members; [contradiction | cbn [length]; lia]).
  unfold Hooks.useOverallStats.
  cbn [Hooks.avgLeadBillCount Hooks.avgLeadPassRate].
  rewrite (proj2 (Z.eqb_neq _ 0)) by lia.
  split.
  - intros Hc.
    pose proof (sum_counts_bounds Hooks.lead_count members lo hi Hc) as Hs.
    assert (Hhi : 0 <= hi) by nia.
    rewrite (f64_of_Z_exact (Hooks.sum_counts Hooks.lead_count members)) by nia.
    apply mean_between; [lia | exact Hlo | nia |].
    rewrite <- !Zle_Qle. exact Hs.
  - intros Hr.
    destruct members as [|m0 members0] eqn:Em; [contradiction|]. rewrite <- Em in *.
    assert (Hhi : lo <= hi).
    { destruct (Hr m0) as [A B]; [rewrite Em; left; reflexivity|].
      destruct (f64_between _ _ _ A B) as (r & _ & Hrr).
      assert (E : (inject_Z lo <= inject_Z hi)%Q) by lra.
      rewrite <- Zle_Qle in E. exact E. }
    destruct (sum_rates_bounds members lo hi Hlo Hr) as (s & Es & Hs); [nia|].
    rewrite Es. apply mean_between; [lia | exact Hlo | nia | exact Hs].
Qed.

(** ** The statistics hooks: the parties *)

Section PartyFacts.
Import Utils Hooks.

Lemma jsstring_eqb_eq (s t : jsstring) : jsstring_eqb s t = true <-> s = t.
Proof.
  revert t. induction s as [|c s IH]; intros [|d t]; simpl; split;
    try discriminate; try reflexivity.
  - intros H. apply andb_true_iff in H as [H1 H2].
    apply N.eqb_eq in H1. apply IH in H2. congruence.
  - intros H. injection H as -> ->. rewrite N.eqb_refl. simpl. apply IH. reflexivity.
Qed.

Lemma jsstring_eqb_refl (s : jsstring) : jsstring_eqb s s = true.
Proof. apply jsstring_eqb_eq. reflexivity. Qed.

Lemma jsstring_eqb_neq (s t : jsstring) : jsstring_eqb s t = false <-> s <> t.
Proof.
  destruct (jsstring_eqb s t) eqn:E.
  - apply jsstring_eqb_eq in E. split; [discriminate | contradiction].
  - split; [|reflexivity]. intros _ C. apply jsstring_eqb_eq in C. congruence.
Qed.

Lemma party_of_short (m : member) :
  party_of m = getShortPartyName (PLPT_NM m).
Proof.
  unfold party_of, getShortPartyName.
  destruct (PLPT_NM m) as [[|c s]|]; reflexivity.
Qed.

Lemma has_In (party : jsstring) (partyMap : list PartyStats) :
  has party partyMap = true <-> In party (map name partyMap).
Proof.
  unfold has. rewrite existsb_exists, in_map_iff. split.
  - intros (d & Hd & E). apply jsstring_eqb_eq in E. exists d. split; assumption.
  - intros (d & E & Hd). exists d. split; [exact Hd|]. apply jsstring_eqb_eq, E.
Qed.

Lemma update_map (party : jsstring) (f : PartyStats -> PartyStats)
    (partyMap : list PartyStats) :
  List.NoDup (map name partyMap) ->
  update party f partyMap
  = map (fun d => if jsstring_eqb (name d) party then f d else d) partyMap.
Proof.
  induction partyMap as [|d rest IH]; intros Hnd; [reflexivity|].
  inversion Hnd as [|? ? Hnotin Hnd']; subst. cbn [update map].
  destruct (jsstring_eqb (name d) party) eqn:E.
  - f_equal. apply jsstring_eqb_eq in E. subst party.
    rewrite <- (map_id rest) at 1. apply map_ext_in. intros d' Hd'.
    destruct (jsstring_eqb (name d') (name d)) eqn:E'; [|reflexivity].
    apply jsstring_eqb_eq in E'. exfalso. apply Hnotin. rewrite <- E'.
    apply in_map. exact Hd'.
  - f_equal. apply IH. exact Hnd'.
Qed.

Lemma lead_total_app (l : list member) (m : member) :
  lead_total (l ++ [m]) = f64_add (lead_total l) (f64_of_Z (lead_count m)).
Proof. unfold lead_total. rewrite fold_left_app. reflexivity. Qed.

Lemma sum_Z_cons (x : Z) (l : list Z) : sum_Z (x :: l) = x + sum_Z l.
Proof. reflexivity. Qed.

Lemma sum_Z_nonneg (f : member -> Z) (l : list member) :
  (forall m, In m l -> 0 <= f m) -> 0 <= sum_Z (map f l).
Proof.
  induction l as [|m l IH]; intros H; [cbn; lia|].
  cbn [map]. rewrite sum_Z_cons.
  pose proof (H m (or_introl eq_refl)).
  specialize (IH (fun x Hx => H x (or_intror Hx))). lia.
Qed.

Lemma sum_Z_filter_le (f : member -> Z) (p : member -> bool) (l : list member) :
  (forall m, In m l -> 0 <= f m) ->
  sum_Z (map f (List.filter p l)) <= sum_Z (map f l).
Proof.
  induction l as [|m l IH]; intros H; [cbn; lia|].
  pose proof (H m (or_introl eq_refl)).
  specialize (IH (fun x Hx => H x (or_intror Hx))).
  cbn [List.filter map]. rewrite sum_Z_cons.
  destruct (p m); cbn [map]; rewrite ?sum_Z_cons; lia.
Qed.

(** Lead counts that are not negative and add up to at most 2^53 are added
    without rounding. *)
Lemma lead_total_exact (l : list member) :
  (forall m, In m l -> 0 <= lead_count m) ->
  sum_Z (map lead_count l) <= 2 ^ 53 ->
  lead_total l = Fin (inject_Z (sum_Z (map lead_count l))).
Proof.
  intros Hnn Hsum. unfold lead_total.
  assert (G : forall a, 0 <= a ->
    a + sum_Z (map lead_count l) <= 2 ^ 53 ->
    fold_left (fun sum m => f64_add sum (f64_of_Z (lead_count m))) l
              (Fin (inject_Z a))
    = Fin (inject_Z (a + sum_Z (map lead_count l)))).
  { clear Hsum. induction l as [|m l IH]; intros a Ha Hsum.
    - cbn [fold_left map]. change (sum_Z []) with 0. rewrite Z.add_0_r. reflexivity.
    - cbn [map] in Hsum |- *. rewrite sum_Z_cons in Hsum |- *.
      pose proof (Hnn m (or_introl eq_refl)) as Hm.
      pose proof (sum_Z_nonneg lead_count l (fun x Hx => Hnn x (or_intror Hx))) as Hrest.
      cbn [fold_left]. rewrite (f64_of_Z_exact (lead_count m)) by lia.
      cbn [f64_add].
      rewrite (rn64_comp _ (inject_Z (a + lead_count m)))
        by (rewrite inject_Z_plus; reflexivity).
      change (rn64 (inject_Z (a + lead_count m))) with (f64_of_Z (a + lead_count m)).
      rewrite f64_of_Z_exact by lia.
      rewrite (IH (fun x Hx => Hnn x (or_intror Hx)) (a + lead_count m)) by lia.
      rewrite Z.add_assoc. reflexivity. }
  exact (G 0 ltac:(lia) Hsum).
Qed.

Lemma filter_none {A : Type} (f : A -> bool) (l : list A) :
  (forall x, In x l -> f x = false) -> List.filter f l = [].
Proof.
  induction l as [|x l IH]; intros H; [reflexivity|].
  cbn [List.filter]. rewrite (H x (or_introl eq_refl)).
  apply IH. intros y Hy. apply H. right. exact Hy.
Qed.

Lemma accumulated_step (seen : list member) (m : member) (d : PartyStats) :
  accumulated seen d ->
  accumulated (seen ++ [m])
    (if jsstring_eqb (name d) (party_of m) then add_member m d else d).
Proof.
  intros (Ht & Hc & Hs & Hne). unfold accumulated.
  destruct (jsstring_eqb (name d) (party_of m)) eqn:E.
  - apply jsstring_eqb_eq in E. cbn [name topMembers count partyLeadBills add_member].
    rewrite List.filter_app. cbn [List.filter]. unfold in_party at 2.
    rewrite <- E, jsstring_eqb_refl, <- Ht.
    repeat split.
    + rewrite length_app. cbn [length]. lia.
    + rewrite lead_total_app, Hs. reflexivity.
    + intros C. apply app_eq_nil in C as [_ C]. discriminate C.
  - rewrite List.filter_app. cbn [List.filter]. unfold in_party at 2.
    assert (E' : jsstring_eqb (party_of m) (name d) = false).
    { apply jsstring_eqb_neq. apply jsstring_eqb_neq in E. congruence. }
    rewrite E', app_nil_r. repeat split; assumption.
Qed.

Lemma visit_visited (seen : list member) (partyMap : list PartyStats)
    (m : member) :
  visited seen partyMap -> visited (seen ++ [m]) (visit partyMap m).
Proof.
  intros (Hnd & Hacc & Hcov). unfold visit.
  set (fresh := {| name := party_of m; count := 0; partyLeadBills := Fin 0;
                   partyLeadBillCount := Fin 0; partyLeadPassRate := Fin 0;
                   topMembers := [] |}).
  assert (Hkeep : forall l,
    map name (map (fun d => if jsstring_eqb (name d) (party_of m)
                            then add_member m d else d) l)
    = map name l).
  { intros l. rewrite map_map. apply map_ext. intros d.
    destruct (jsstring_eqb (name d) (party_of m)); reflexivity. }
  destruct (has (party_of m) partyMap) eqn:Hhas.
  - rewrite update_map by exact Hnd.
    split; [rewrite Hkeep; exact Hnd|]. split.
    + rewrite List.Forall_map. rewrite List.Forall_forall in Hacc |- *.
      intros d Hd. apply accumulated_step. exact (Hacc d Hd).
    + intros x Hx. rewrite Hkeep. apply in_app_or in Hx as [Hx | [<- | []]].
      * exact (Hcov x Hx).
      * apply has_In. exact Hhas.
  - assert (Hnotin : ~ In (party_of m) (map name partyMap)).
    { intros C. apply has_In in C. congruence. }
    assert (Hnd' : List.NoDup (map name (partyMap ++ [fresh]))).
    { rewrite map_app. cbn [map name fresh].
      apply (Permutation_NoDup (Permutation_cons_append _ _)).
      constructor; assumption. }
    rewrite update_map by exact Hnd'.
    split; [rewrite Hkeep; exact Hnd'|]. split.
    + rewrite List.Forall_map. rewrite List.Forall_forall in Hacc |- *.
      intros d Hd. apply in_app_or in Hd as [Hd | [<- | []]].
      * apply accumulated_step. exact (Hacc d Hd).
      * cbn [name fresh]. rewrite jsstring_eqb_refl. unfold accumulated.
        cbn [name topMembers count partyLeadBills add_member fresh].
        rewrite List.filter_app, filter_none.
        -- cbn [List.filter app]. unfold in_party. rewrite jsstring_eqb_refl.
           repeat split; discriminate.
        -- intros x Hx. unfold in_party. apply jsstring_eqb_neq. intros C.
           apply Hnotin. rewrite <- C. exact (Hcov x Hx).
    + intros x Hx. rewrite Hkeep, map_app. apply in_or_app.
      apply in_app_or in Hx as [Hx | [<- | []]].
      * left. exact (Hcov x Hx).
      * right. left. reflexivity.
Qed.

Lemma fold_visited (members seen : list member) (partyMap : list PartyStats) :
  visited seen partyMap ->
  visited (seen ++ members) (fold_left visit members partyMap).
Proof.
  revert seen partyMap.
  induction members as [|m members IH]; intros seen partyMap H.
  - rewrite app_nil_r. exact H.
  - cbn [fold_left].
    replace (seen ++ m :: members) with ((seen ++ [m]) ++ members)
      by (rewrite <- app_assoc; reflexivity).
    apply IH, visit_visited, H.
Qed.

Lemma all_visited (members : list member) :
  visited members (fold_left visit members []).
Proof.
  apply (fold_visited members [] []).
  split; [constructor|]. split; [constructor|]. intros m [].
Qed.

Lemma summarize_names (partyMap : list PartyStats) :
  map name (map summarize partyMap) = map name partyMap.
Proof. rewrite map_map. reflexivity. Qed.

Lemma unique_key_count (ks : list jsstring) (p : jsstring) :
  List.NoDup ks -> In p ks ->
  sum_Z (map (fun k => if jsstring_eqb p k then 1 else 0) ks) = 1.
Proof.
  induction 1 as [|k ks Hnotin Hnd IH]; intros Hin; [destruct Hin|].
  cbn [map sum_Z fold_right]. fold (sum_Z (map (fun k => if jsstring_eqb p k then 1 else 0) ks)).
  destruct (jsstring_eqb p k) eqn:E.
  - apply jsstring_eqb_eq in E. subst k.
    assert (Z0 : sum_Z (map (fun k => if jsstring_eqb p k then 1 else 0) ks) = 0).
    { clear IH Hin Hnd. induction ks as [|k ks IHk]; [reflexivity|].
      cbn [map sum_Z fold_right].
      fold (sum_Z (map (fun k => if jsstring_eqb p k then 1 else 0) ks)).
      rewrite IHk by (intros C; apply Hnotin; right; exact C).
      destruct (jsstring_eqb p k) eqn:E; [|reflexivity].
      apply jsstring_eqb_eq in E. exfalso. apply Hnotin. left. symmetry. exact E. }
    lia.
  - destruct Hin as [-> | Hin]; [rewrite jsstring_eqb_refl in E; discriminate|].
    rewrite IH by exact Hin. lia.
Qed.

Lemma party_sizes_sum (ks : list jsstring) (members : list member) :
  List.NoDup ks -> (forall m, In m members -> In (party_of m) ks) ->
  sum_Z (map (fun k => Z.of_nat (length (List.filter (in_party k) members))) ks)
  = Z.of_nat (length members).
Proof.
  intros Hnd. induction members as [|m members IH]; intros Hcov.
  - cbn [List.filter length]. clear Hnd Hcov.
    induction ks as [|k ks IHk]; [reflexivity|].
    cbn [map sum_Z fold_right] in *. unfold sum_Z in IHk. rewrite IHk. reflexivity.
  - specialize (IH (fun x Hx => Hcov x (or_intror Hx))).
    pose proof (unique_key_count ks (party_of m) Hnd (Hcov m (or_introl eq_refl))) as H1.
    assert (E : forall l,
      sum_Z (map (fun k => Z.of_nat (length (List.filter (in_party k) (m :: members)))) l)
      = sum_Z (map (fun k => if jsstring_eqb (party_of m) k then 1 else 0) l)
        + sum_Z (map (fun k => Z.of_nat (length (List.filter (in_party k) members))) l)).
    { induction l as [|k l IHl]; [reflexivity|].
      cbn [map sum_Z fold_right]. unfold sum_Z in IHl. rewrite IHl.
      cbn [List.filter]. unfold in_party at 1.
      destruct (jsstring_eqb (party_of m) k); cbn [length]; lia. }
    rewrite E, H1, IH. cbn [length]. lia.
Qed.

(** X22. [usePartyStats] partitions the members by the label that
    [getShortPartyName] gives their party: the names of the entries are
    pairwise distinct, every member's label has an entry, an entry counts
    exactly the members with its label, which is at least one, so that no
    average divides by zero, and the counts add up to the number of
    members.  The [totalLeadBills] of an entry is the sum, in JavaScript
    numbers and in the order of the array, of the lead counts of those
    members; when no lead count is negative and all of them add up to at
    most 2^53, it is their exact sum. *)
Theorem usePartyStats_partitions_members (members : list member) :
  List.NoDup (map name (usePartyStats members)) /\
  (forall m, In m members ->
     In (getShortPartyName (PLPT_NM m)) (map name (usePartyStats members))) /\
  (forall d, In d (usePartyStats members) ->
     1 <= count d /\
     count d = Z.of_nat (length (List.filter
                 (fun m => jsstring_eqb (getShortPartyName (PLPT_NM m)) (name d))
                 members)) /\
     partyLeadBills d
     = lead_total (List.filter
                 (fun m => jsstring_eqb (getShortPartyName (PLPT_NM m)) (name d))
                 members) /\
     ((forall m, In m members -> 0 <= lead_count m) ->
      sum_Z (map lead_count members) <= 2 ^ 53 ->
      partyLeadBills d
      = Fin (inject_Z (sum_Z (map lead_count (List.filter
                 (fun m => jsstring_eqb (getShortPartyName (PLPT_NM m)) (name d))
                 members)))))) /\
  sum_Z (map count (usePartyStats members)) = Z.of_nat (length members).
Proof.
  destruct (all_visited members) as (Hnd & Hacc & Hcov).
  unfold usePartyStats. rewrite summarize_names.
  assert (Hfilter : forall k,
    List.filter (fun m => jsstring_eqb (getShortPartyName (PLPT_NM m)) k) members
    = List.filter (in_party k) members).
  { intros k. apply filter_ext. intros m. unfold in_party.
    rewrite party_of_short. reflexivity. }
  split; [exact Hnd|]. split; [|split].
  - intros m Hm. rewrite <- party_of_short. exact (Hcov m Hm).
  - intros d' Hd'. apply in_map_iff in Hd' as (d & <- & Hd).
    rewrite List.Forall_forall in Hacc.
    destruct (Hacc d Hd) as (Ht & Hc & Hs & Hne).
    cbn [summarize name count partyLeadBills]. rewrite Hfilter, <- Ht.
    split; [|split; [exact Hc|split; [exact Hs|]]].
    + rewrite Hc. destruct (topMembers d); [contradiction | cbn [length]; lia].
    + intros Hnn Hsum. rewrite Hs. apply lead_total_exact.
      * intros m Hm. rewrite Ht in Hm. apply filter_In in Hm as [Hm _].
        exact (Hnn m Hm).
      * rewrite Ht.
        pose proof (sum_Z_filter_le lead_count (in_party (name d)) members Hnn).
        lia.
  - rewrite map_map. cbn [summarize count].
    transitivity (sum_Z (map (fun k => Z.of_nat (length (List.filter (in_party k) members)))
                             (map name (fold_left visit members [])))).
    + rewrite map_map. f_equal. apply map_ext_in. intros d Hd.
      rewrite List.Forall_forall in Hacc.
      destruct (Hacc d Hd) as (Ht & Hc & _). rewrite Hc, Ht. reflexivity.
    + apply party_sizes_sum; assumption.
Qed.

(** X23. The [topMembers] of an entry of [usePartyStats] are at most two
    members with the entry's label, and no member with that label who is
    left out has led more bills than one who is kept. *)
Theorem usePartyStats_top_members_lead (members : list member)
    (d : PartyStats) :
  In d (usePartyStats members) ->
  Z.of_nat (length (topMembers d)) = Z.min 2 (count d) /\
  exists rest,
    Permutation
      (List.filter
         (fun m => jsstring_eqb (getShortPartyName (PLPT_NM m)) (name d)) members)
      (topMembers d ++ rest) /\
    (forall t b, In t (topMembers d) -> In b rest ->
       lead_count b <= lead_count t).
Proof.
  intros Hd'. destruct (all_visited members) as (Hnd & Hacc & Hcov).
  unfold usePartyStats in Hd'. apply in_map_iff in Hd' as (d0 & <- & Hd).
  rewrite List.Forall_forall in Hacc.
  destruct (Hacc d0 Hd) as (Ht & Hc & _ & _).
  cbn [summarize name count topMembers].
  rewrite slice_first by lia.
  set (sorted := array_sort (fun a b => lead_count b - lead_count a) (topMembers d0)).
  assert (P : Permutation (topMembers d0) sorted) by apply array_sort_Permutation.
  split.
  - rewrite length_firstn, <- (Permutation_length P), Hc. lia.
  - exists (skipn (Z.to_nat 2) sorted). split.
    + rewrite firstn_skipn, <- P, Ht. apply Permutation_refl'.
      apply filter_ext. intros m. unfold in_party.
      rewrite party_of_short. reflexivity.
    + intros t b Hin Hb.
      exact (sorted_head_dominates _ sorted (Z.to_nat 2)
               (array_sort_sorted lead_count (topMembers d0)) t b Hin Hb).
Qed.

End PartyFacts.

Lemma useTopBills_sorts_in_place_and_takes_three_witness :
  Hooks.bill_count (HookSamples.bill_of 49 1)
  <= Hooks.bill_count (HookSamples.bill_of 50 5).
Proof.
  destruct (useTopBills_sorts_in_place_and_takes_three HookSamples.bills)
    as (_ & _ & _ & _ & _ & H).
  apply H.
  - vm_compute. left. reflexivity.
  - vm_compute. left. reflexivity.
Defined.

Lemma useOverallStats_averages_in_range_witness :
  exists q,
    Hooks.avgLeadBillCount (Hooks.useOverallStats HookSamples.members) = Fin q /\
    (inject_Z 0 <= q <= inject_Z 100)%Q.
Proof.
  destruct (useOverallStats_averages_in_range HookSamples.members 0 100)
    as [_ H].
  destruct H as [H _].
  - discriminate.
  - lia.
  - vm_compute. discriminate.
  - vm_compute. discriminate.
  - apply H. intros m [<- | [<- | [<- | [<- | []]]]]; vm_compute; split; discriminate.
Defined.

Lemma usePartyStats_partitions_members_witness :
  In (Utils.getShortPartyName (Hooks.PLPT_NM HookSamples.first_member))
     (map Hooks.name (Hooks.usePartyStats HookSamples.members)) /\
  Hooks.partyLeadBills
    (hd (Hooks.summarize (Hooks.Party [] 0 NaN NaN NaN []))
        (Hooks.usePartyStats HookSamples.members))
  = Fin (inject_Z 10).
Proof.
  destruct (usePartyStats_partitions_members HookSamples.members)
    as (_ & H & Hd & _).
  split; [apply H; left; reflexivity|].
  destruct (Hd (hd (Hooks.summarize (Hooks.Party [] 0 NaN NaN NaN []))
                   (Hooks.usePartyStats HookSamples.members)))
    as (_ & _ & _ & Hsum).
  - vm_compute. left. reflexivity.
  - rewrite Hsum.
    + vm_compute. reflexivity.
    + intros m [<- | [<- | [<- | [<- | []]]]]; vm_compute; discriminate.
    + vm_compute. discriminate.
Defined.

Lemma usePartyStats_top_members_lead_witness :
  Z.of_nat (length (Hooks.topMembers
              (hd (Hooks.summarize (Hooks.Party [] 0 NaN NaN NaN []))
                  (Hooks.usePartyStats HookSamples.members))))
  = Z.min 2 (Hooks.count
              (hd (Hooks.summarize (Hooks.Party [] 0 NaN NaN NaN []))
                  (Hooks.usePartyStats HookSamples.members))).
Proof.
  apply (usePartyStats_top_members_lead HookSamples.members).
  vm_compute. left. reflexivity.
Defined.

Example usePartyStats_sample :
  map (fun d => (Hooks.name d, Hooks.count d,
                 f64_same (Hooks.partyLeadBills d) (f64_of_Z 10),
                 f64_same (Hooks.partyLeadBillCount d) (f64_literal (33 # 10)),
                 map Hooks.lead_count (Hooks.topMembers d)))
      (Hooks.usePartyStats HookSamples.members)
  = [ ([66]%N, 3, true, true, [5; 3]);
      (Utils.independent, 1, false, false, [7]) ].
Proof. vm_compute. reflexivity. Qed.
